(** * Transaction validation of the vapor side chain: a shallow embedding

    The development follows [protocol/validation] (gas meter, reference
    integrity checker, graph validator, peg-in claim verifier) and
    [mainchain.RawTxSigWitness.Sign].  Go values are modelled as follows:

    - [int64] and [uint64] are [Z]; every unchecked operation of the source
      writes its wrap-around out ([wrap64], [to_uint64]);
    - a pointer that the source tests against [nil] is an [option];
      dereferencing [None] is the outcome [Panic];
    - a Go [error] is an [error] kind: [errors.Wrap] and [errors.WithDetailf]
      only decorate the message, so an error is modelled by its root;
    - maps are [gmap]s, slices are lists.

    Further parts of the two source files are embedded after these: the
    entry point [ValidateTx] with its standardness and time-range checks,
    [bc.TxHeader], [RawTxSigWitness.Materialize], the builder actions of
    [txbuilder] and the controls of the miner. *)

From stdpp Require Import gmap list strings.
From Stdlib Require Import ZArith Lia.

Local Open Scope Z_scope.

(** ** Machine integers *)

Definition MaxInt64 : Z := 2 ^ 63 - 1.
Definition MinInt64 : Z := - 2 ^ 63.
Definition MaxUint64 : Z := 2 ^ 64 - 1.

Definition is_int64 (z : Z) : Prop := MinInt64 <= z <= MaxInt64.
Definition is_uint64 (z : Z) : Prop := 0 <= z <= MaxUint64.

Definition in_int64 (z : Z) : bool := (MinInt64 <=? z) && (z <=? MaxInt64).

(** Two's complement wrap-around of an [int64] result. *)
Definition wrap64 (z : Z) : Z := (z + 2 ^ 63) mod 2 ^ 64 - 2 ^ 63.

(** The conversions [uint64(x)] and [int64(x)]. *)
Definition to_uint64 (z : Z) : Z := z mod 2 ^ 64.
Definition to_int64 (z : Z) : Z := wrap64 z.

(** Modelled from the spec: package [math/checked] is not among the sources.
    The spec asks for "checked" addition, subtraction, multiplication and
    division: the exact result with [ok = true] when it is representable as an
    [int64], and [(0, false)] otherwise (division by zero included). *)
Module checked.

Definition exact (z : Z) : Z * bool :=
    if in_int64 z then (z, true) else (0, false).

Definition AddInt64 (a b : Z) : Z * bool := exact (a + b).
Definition SubInt64 (a b : Z) : Z * bool := exact (a - b).
Definition MulInt64 (a b : Z) : Z * bool := exact (a * b).
Definition DivInt64 (a b : Z) : Z * bool :=
    if b =? 0 then (0, false) else exact (a ÷ b).

End checked.

(** ** Errors *)

Inductive error : Type :=
  | ErrTxVersion
  | ErrWrongTransactionSize
  | ErrBadTimeRange
  | ErrNotStandardTx
  | ErrWrongCoinbaseTransaction
  | ErrWrongCoinbaseAsset
  | ErrCoinbaseArbitraryOversize
  | ErrEmptyResults
  | ErrMismatchedAssetID
  | ErrMismatchedPosition
  | ErrMismatchedReference
  | ErrMismatchedValue
  | ErrMissingField
  | ErrNoSource
  | ErrOverflow
  | ErrPosition
  | ErrUnbalanced
  | ErrOverGasCredit
  | ErrGasCalculate
  (* bc.ErrMissingEntry and bc.ErrEntryType *)
  | ErrMissingEntry
  | ErrEntryType
  (* fmt.Errorf("entry has unexpected type %T", e) *)
  | ErrUnexpectedType
  (* errors.New("pegin-no-witness") *)
  | ErrPeginNoWitness
  (* errors.New("peginWitness is error") *)
  | ErrPeginWitnessLength
  (* errors.New("Amount out of range") *)
  | ErrAmountOutOfRange
  (* errors.New("Merkleblock validation failed") *)
  | ErrMerkleBlock
  (* errors.New("transaction nout/value do not matches") *)
  | ErrPeginValue
  (* errors.New("The output control program ... does not match ...") *)
  | ErrPeginProgram
  (* errors.New("ParentGenesisBlockHash don't match") *)
  | ErrParentGenesis
  (* the error of AssetAmount.Equal on an absent operand or asset id *)
  | ErrEmptyAssetAmount
  (* an error handed back by a collaborator (parser, VM, oracle) *)
  | ErrExternal (code : N).

#[global] Instance error_eq_dec : EqDecision error.
Proof. solve_decision. Defined.

(** ** Consensus parameters

    Package [consensus] is not among the sources: its constants are the
    fields of a class, read-only inputs of the validator. *)

(** [bc.Hash] and [bc.AssetID] are four [uint64] words, 256 bits read here
    as one number; only equality and their use as map keys matter. *)
Abbreviation Hash := N.
Abbreviation AssetID := N.
Abbreviation bytes := (list Byte.byte).

#[global] Instance byte_eq_dec : EqDecision Byte.byte := Byte.byte_eq_dec.

Class Consensus : Type := {
  BTMAssetID : AssetID;
  VMGasRate : Z;
  StorageGasRate : Z;
  MaxGasAmount : Z;
  DefaultGasCredit : Z;
  CoinbaseArbitrarySizeLimit : Z;
}.

(** ** Gas meter *)

Record GasState : Type := mkGasState {
  BTMValue : Z;
  GasLeft : Z;
  GasUsed : Z;
  GasValid : bool;
  StorageGas : Z;
}.

Definition setBTMValue (v : Z) (g : GasState) : GasState :=
  mkGasState v (GasLeft g) (GasUsed g) (GasValid g) (StorageGas g).
Definition setGasLeft (v : Z) (g : GasState) : GasState :=
  mkGasState (BTMValue g) v (GasUsed g) (GasValid g) (StorageGas g).
Definition setGasUsed (v : Z) (g : GasState) : GasState :=
  mkGasState (BTMValue g) (GasLeft g) v (GasValid g) (StorageGas g).
Definition setGasValidFlag (v : bool) (g : GasState) : GasState :=
  mkGasState (BTMValue g) (GasLeft g) (GasUsed g) v (StorageGas g).
Definition setStorageGas (v : Z) (g : GasState) : GasState :=
  mkGasState (BTMValue g) (GasLeft g) (GasUsed g) (GasValid g) v.

(** [func (g *GasState) setGas(BTMValue int64, txSize int64) error]: the
    receiver is updated in place, so the state after the call is returned
    beside the error, also when the call fails half way. *)
Definition setGas `{Consensus} (g : GasState) (BTMValue txSize : Z)
  : option error * GasState :=
  if BTMValue <? 0 then (Some ErrGasCalculate, g)
  else
    let g := setBTMValue (to_uint64 BTMValue) g in
    let '(q, ok) := checked.DivInt64 BTMValue VMGasRate in
    let g := setGasLeft q g in
    if negb ok then (Some ErrGasCalculate, g)
    else
      let g := if GasLeft g >? MaxGasAmount then setGasLeft MaxGasAmount g else g in
      let '(p, ok) := checked.MulInt64 txSize StorageGasRate in
      let g := setStorageGas p g in
      if negb ok then (Some ErrGasCalculate, g) else (None, g).

(** [func (g *GasState) setGasValid() error] *)
Definition setGasValid (g : GasState) : option error * GasState :=
  let '(d, ok) := checked.SubInt64 (GasLeft g) (StorageGas g) in
  let g := setGasLeft d g in
  if negb ok || (GasLeft g <? 0) then (Some ErrGasCalculate, g)
  else
    let '(u, ok) := checked.AddInt64 (GasUsed g) (StorageGas g) in
    let g := setGasUsed u g in
    if negb ok then (Some ErrGasCalculate, g)
    else (None, setGasValidFlag true g).

(** [func (g *GasState) updateUsage(gasLeft int64) error]; [g.GasUsed +=
    gasUsed] is an unchecked [int64] addition. *)
Definition updateUsage `{Consensus} (g : GasState) (gasLeft : Z)
  : option error * GasState :=
  if gasLeft <? 0 then (Some ErrGasCalculate, g)
  else
    let '(gasUsed, ok) := checked.SubInt64 (GasLeft g) gasLeft in
    if ok then
      let g := setGasUsed (wrap64 (GasUsed g + gasUsed)) g in
      let g := setGasLeft gasLeft g in
      if negb (GasValid g)
         && ((GasUsed g >? DefaultGasCredit) || (StorageGas g >? GasLeft g))
      then (Some ErrOverGasCredit, g)
      else (None, g)
    else (Some ErrGasCalculate, g).

(** ** Entry graph model (package [bc]) *)

Module AssetAmount.
Record t : Type := mk { AssetId : option AssetID; Amount : Z }.
End AssetAmount.

Module ValueSource.
Record t : Type := mk {
    Ref : option Hash;
    Value : option AssetAmount.t;
    Position : Z;
  }.
End ValueSource.

Module ValueDestination.
Record t : Type := mk {
    Ref : option Hash;
    Value : option AssetAmount.t;
    Position : Z;
  }.
End ValueDestination.

Module Program.
Record t : Type := mk { VmVersion : Z; Code : bytes }.
End Program.

Module AssetDefinition.
Record t : Type := mk { Data : option Hash; IssuanceProgram : option Program.t }.
End AssetDefinition.

Module TxHeader.
Record t : Type := mk { Version : Z; ResultIds : list (option Hash) }.
End TxHeader.

Module Mux.
Record t : Type := mk {
    Sources : list (option ValueSource.t);
    WitnessDestinations : list (option ValueDestination.t);
  }.
End Mux.

Module Output.
Record t : Type := mk {
    Source : option ValueSource.t;
    ControlProgram : option Program.t;
  }.
End Output.

Module Retirement.
Record t : Type := mk { Source : option ValueSource.t }.
End Retirement.

Module Issuance.
Record t : Type := mk {
    Value : option AssetAmount.t;
    WitnessDestination : option ValueDestination.t;
    WitnessAssetDefinition : option AssetDefinition.t;
    WitnessArguments : list bytes;
  }.
End Issuance.

Module Spend.
Record t : Type := mk {
    SpentOutputId : option Hash;
    WitnessDestination : option ValueDestination.t;
    WitnessArguments : list bytes;
  }.
End Spend.

Module Coinbase.
Record t : Type := mk {
    WitnessDestination : option ValueDestination.t;
    Arbitrary : option bytes;
  }.
End Coinbase.

Module Claim.
Record t : Type := mk {
    SpentOutputId : option Hash;
    WitnessDestination : option ValueDestination.t;
    Peginwitness : list (option bytes);
  }.
End Claim.

Module Dpos.
Record t : Type := mk { WitnessDestination : option ValueDestination.t }.
End Dpos.

(** The implementations of the interface [bc.Entry] that the validator
    switches on; [OtherEntry] stands for any further implementation (a block
    header, say).  The [nil] interface value is [None : option Entry]. *)
Inductive Entry : Type :=
  | TxHeaderEntry (e : TxHeader.t)
  | MuxEntry (e : Mux.t)
  | OutputEntry (e : Output.t)
  | RetirementEntry (e : Retirement.t)
  | IssuanceEntry (e : Issuance.t)
  | SpendEntry (e : Spend.t)
  | CoinbaseEntry (e : Coinbase.t)
  | ClaimEntry (e : Claim.t)
  | DposEntry (e : Dpos.t)
  | OtherEntry.

(** [*bc.Tx] and [*bc.Block] are compared as pointers in the coinbase rule:
    [Addr] is the address of the transaction object. *)
Module Tx.
Record t : Type := mk {
    Addr : N;
    SerializedSize : Z;
    Entries : gmap N Entry;
    GasInputIDs : list Hash;
  }.
End Tx.

Module Block.
Record t : Type := mk { Transactions : list Tx.t }.
End Block.

(** ** Validation context

    [validationState] is copied at each descent ([vs2 := *vs]); the copy
    shares what [gasStatus] points to and the [cache] map.  The by-value
    fields stay in the record, the shared objects are the store [Shared]
    threaded through the run.  [visited] is a ghost log: the ids whose
    type-specific checks were entered, most recent first. *)

Record validationState : Type := mkVS {
  block : option Block.t;
  tx : Tx.t;
  entryID : Hash;
  sourcePos : Z;
  destPos : Z;
}.

Definition withEntryID (id : Hash) (vs : validationState) : validationState :=
  mkVS (block vs) (tx vs) id (sourcePos vs) (destPos vs).
Definition withSourcePos (p : Z) (vs : validationState) : validationState :=
  mkVS (block vs) (tx vs) (entryID vs) p (destPos vs).
Definition withDestPos (p : Z) (vs : validationState) : validationState :=
  mkVS (block vs) (tx vs) (entryID vs) (sourcePos vs) p.

Record Shared : Type := mkShared {
  gasStatus : GasState;
  cache : gmap N (option error);
  visited : list Hash;
}.

Definition withGas (g : GasState) (s : Shared) : Shared :=
  mkShared g (cache s) (visited s).
Definition withCache (c : gmap N (option error)) (s : Shared) : Shared :=
  mkShared (gasStatus s) c (visited s).
Definition withVisited (v : list Hash) (s : Shared) : Shared :=
  mkShared (gasStatus s) (cache s) v.

(** ** Outcomes

    [Val a]: the code went on with [a]; [Raise e]: the function returned the
    error [e]; [Panic]: a run-time panic (nil dereference, index out of
    range); [OutOfFuel]: the model's recursion bound was reached. *)
Inductive res (A : Type) : Type :=
  | Val (a : A)
  | Raise (e : error)
  | Panic
  | OutOfFuel.
Arguments Val {A} a.
Arguments Raise {A} e.
Arguments Panic {A}.
Arguments OutOfFuel {A}.

Definition bindR {A B} (r : res A) (k : A -> res B) : res B :=
  match r with
  | Val a => k a
  | Raise e => Raise e
  | Panic => Panic
  | OutOfFuel => OutOfFuel
  end.

Definition M (A : Type) : Type := Shared -> res A * Shared.

Definition ret {A} (a : A) : M A := fun s => (Val a, s).
Definition raise {A} (e : error) : M A := fun s => (Raise e, s).
Definition panic {A} : M A := fun s => (Panic, s).
Definition liftR {A} (r : res A) : M A := fun s => (r, s).

Definition bindM {A B} (m : M A) (k : A -> M B) : M B :=
  fun s =>
    match m s with
    | (Val a, s') => k a s'
    | (Raise e, s') => (Raise e, s')
    | (Panic, s') => (Panic, s')
    | (OutOfFuel, s') => (OutOfFuel, s')
    end.

Declare Scope res_scope.
Delimit Scope res_scope with res.
Declare Scope go_scope.
Delimit Scope go_scope with go.

Notation "x <- c ;; k" := (bindR c (fun x => k))
  (at level 100, c at next level, right associativity) : res_scope.
Notation "c ;; k" := (bindR c (fun _ => k))
  (at level 100, right associativity) : res_scope.
Notation "x <- c ;; k" := (bindM c (fun x => k))
  (at level 100, c at next level, right associativity) : go_scope.
Notation "c ;; k" := (bindM c (fun _ => k))
  (at level 100, right associativity) : go_scope.

(** Dereference of a pointer the source does not test. *)
Definition deref {A} (p : option A) : res A :=
  match p with Some a => Val a | None => Panic end.

(** [if cond { return e }] *)
Definition failIf (cond : bool) (e : error) : res unit :=
  if cond then Raise e else Val tt.

(** A call of a method that updates [*vs.gasStatus] and returns an error. *)
Definition onGas (f : GasState -> option error * GasState) : M unit :=
  fun s =>
    let '(e, g) := f (gasStatus s) in
    (match e with Some e => Raise e | None => Val tt end, withGas g s).

(** [for i, x := range l { ... }] with an early return. *)
Fixpoint forRange {A} (f : Z -> A -> M unit) (i : Z) (l : list A) : M unit :=
  match l with
  | [] => ret tt
  | x :: l' => (f i x ;; forRange f (i + 1) l')%go
  end.

Fixpoint foldRange {A S} (f : S -> A -> res S) (acc : S) (l : list A) : res S :=
  match l with
  | [] => Val acc
  | x :: l' => (acc' <- f acc x ;; foldRange f acc' l')%res
  end.

(** ** Collaborators of the graph validator

    Interfaces only: the content hash of an entry, the asset id of an asset
    definition, the verification-program executor ([vm.Verify] on the context
    [NewTxVMContext] builds from the by-value fields of the state, the entry,
    the program and its arguments; it hands back the gas left and an error),
    the order in which a [range] over the map [parity] yields its entries,
    which Go leaves unspecified, and whether [Bytes()] called on a nil
    [*bc.Hash] panics (a value receiver) or not: the two mismatched-reference
    messages are built with it. *)
Class Collaborators : Type := {
  EntryID : Entry -> Hash;
  nilBytesPanics : bool;
  ComputeAssetID : AssetDefinition.t -> AssetID;
  vmVerify : validationState -> Entry -> option Program.t -> list bytes -> Z
             -> Z * option error;
  rangeOrder : gmap N Z -> list (N * Z);
  rangeOrder_perm : forall m, rangeOrder m ≡ₚ map_to_list m;
}.

(** [bc.EntryID(e)]: the zero hash for the nil interface. *)
Definition entryIDOf `{Collaborators} (e : option Entry) : Hash :=
  match e with Some e => EntryID e | None => 0%N end.

(** Modelled from the spec: the method [Equal] of [bc.AssetAmount] is not among the
    sources.  "Identical asset and amount": both operands and both asset ids
    must be present (an error otherwise), and the two are equal when amount
    and asset id are. *)
Definition AssetAmount_Equal (a other : option AssetAmount.t) : option bool :=
  match a, other with
  | Some a, Some b =>
      match AssetAmount.AssetId a, AssetAmount.AssetId b with
      | Some x, Some y =>
          Some ((AssetAmount.Amount a =? AssetAmount.Amount b) && bool_decide (x = y))
      | _, _ => None
      end
  | _, _ => None
  end.

(** Modelled from the spec: the method [Output] of [bc.Tx] is not among the sources.
    "[output(id) -> Output] ... resolves referenced prior outputs": the entry
    stored under [id], which must be an [Output]. *)
Definition Tx_Output (t : Tx.t) (id : Hash) : res Output.t :=
  match Tx.Entries t !! id with
  | None => Raise ErrMissingEntry
  | Some (OutputEntry o) => Val o
  | Some _ => Raise ErrEntryType
  end.

(** ** Peg-in claim verifier *)

Module MerkleBlock.
Record t : Type := mk {
  BlockHeader : bytes;
  TxHashes : list (option Hash);
  StatusHashes : list (option Hash);
  Flags : list Z;
  MatchedTxIDs : list (option Hash);
}.
End MerkleBlock.

(** The parent chain's types ([bytomtypes]), as far as the verifier reads
    them. *)
Module bytomtypes.
Record TxOutput : Type := mkTxOutput { Amount : Z; ControlProgram : bytes }.
Record Tx : Type := mkTx { Outputs : list TxOutput }.
Record BlockHeader : Type := mkBlockHeader {
  Height : Z;
  TransactionsMerkleRoot : Hash;
}.
End bytomtypes.

(** Parsers, hash functions, the partial merkle tree check, the peg contract
    template, the network parameters and the confirmation oracle. *)
Class PeginEnv : Type := {
  ParseUint : bytes -> error + Z;
  MoneyRange : Z -> bool;
  Tx_UnmarshalText : bytes -> error + bytomtypes.Tx;
  json_Unmarshal : bytes -> error + MerkleBlock.t;
  BlockHeader_UnmarshalText : bytes -> error + bytomtypes.BlockHeader;
  ValidateTxMerkleTreeProof :
    list (option Hash) -> list Z -> list (option Hash) -> Hash -> bool;
  GetPeginContractPrograms : bytes -> error + bytes;
  Sha256 : bytes -> bytes;
  P2WSHProgram : bytes -> error + bytes;
  (* [b.UnmarshalText(text)] followed by [b.String()] *)
  HashText : bytes -> string;
  ParentGenesisBlockHash : string;
  PeginMinDepth : Z;
  ValidatePegin : bool;
  IsConfirmedBytomBlock : Z -> Z -> option error;
}.

Definition orRaise {A} (r : error + A) : res A :=
  match r with inl e => Raise e | inr a => Val a end.

Definition errorOf (e : option error) : res unit :=
  match e with Some e => Raise e | None => Val tt end.

(** A [[]byte] read by a conversion or a parser: [nil] reads as empty. *)
Definition sliceOf (b : option bytes) : bytes := default [] b.

(** [for flag := range merkleBlock.Flags { flags = append(flags, uint8(flag)) }]:
    the one-variable form of [range] yields the index. *)
Fixpoint rangeFlags (i : Z) (Flags : list Z) : list Z :=
  match Flags with
  | [] => []
  | _ :: rest => (i mod 2 ^ 8) :: rangeFlags (i + 1) rest
  end.

(** [checkPeginTx]; of [prevout] only [Source.Position] is read. *)
Definition checkPeginTx `{PeginEnv} (rawTx : bytomtypes.Tx) (position : Z)
    (claimAmount : Z) (claimScript : bytes) : res unit :=
  (out <- deref (bytomtypes.Outputs rawTx !! Z.to_nat position) ;;
   failIf (negb (claimAmount =? bytomtypes.Amount out)) ErrPeginValue ;;
   peginContractPrograms <- orRaise (GetPeginContractPrograms claimScript) ;;
   let scriptHash := Sha256 peginContractPrograms in
   controlProg <- orRaise (P2WSHProgram scriptHash) ;;
   failIf (negb (bool_decide (bytomtypes.ControlProgram out = controlProg)))
     ErrPeginProgram)%res.

Definition IsValidPeginWitness `{PeginEnv} (peginWitness : list (option bytes))
    (prevout : Output.t) : res unit :=
  (source <- deref (Output.Source prevout) ;;
   _ <- deref (ValueSource.Value source) ;;
   _ <- deref (Output.ControlProgram prevout) ;;
   let position := ValueSource.Position source in
   failIf (negb (Z.of_nat (length peginWitness) =? 5)) ErrPeginWitnessLength ;;
   w0 <- deref (peginWitness !! 0%nat) ;;
   amount <- orRaise (ParseUint (sliceOf w0)) ;;
   failIf (negb (MoneyRange amount)) ErrAmountOutOfRange ;;
   w2 <- deref (peginWitness !! 2%nat) ;;
   let claimScript := sliceOf w2 in
   w3 <- deref (peginWitness !! 3%nat) ;;
   rawTx <- orRaise (Tx_UnmarshalText (sliceOf w3)) ;;
   w4 <- deref (peginWitness !! 4%nat) ;;
   merkleBlock <- orRaise (json_Unmarshal (sliceOf w4)) ;;
   let flags := rangeFlags 0 (MerkleBlock.Flags merkleBlock) in
   blockHeader <- orRaise (BlockHeader_UnmarshalText (MerkleBlock.BlockHeader merkleBlock)) ;;
   failIf (negb (ValidateTxMerkleTreeProof (MerkleBlock.TxHashes merkleBlock) flags
                   (MerkleBlock.MatchedTxIDs merkleBlock)
                   (bytomtypes.TransactionsMerkleRoot blockHeader)))
     ErrMerkleBlock ;;
   checkPeginTx rawTx position amount claimScript ;;
   w1 <- deref (peginWitness !! 1%nat) ;;
   failIf (negb (bool_decide (HashText (sliceOf w1) = ParentGenesisBlockHash)))
     ErrParentGenesis ;;
   if ValidatePegin
   then errorOf (IsConfirmedBytomBlock (bytomtypes.Height blockHeader) PeginMinDepth)
   else Val tt)%res.

(** ** Reference integrity checker *)

(** The type switch of [checkValidDest]: the source that the referenced
    entry [e] declares for slot [position]. *)
Definition sourceAt (e : Entry) (position : Z) : res (option ValueSource.t) :=
  match e with
  | OutputEntry ref =>
      (failIf (negb (position =? 0)) ErrPosition ;; Val (Output.Source ref))%res
  | RetirementEntry ref =>
      (failIf (negb (position =? 0)) ErrPosition ;; Val (Retirement.Source ref))%res
  | MuxEntry ref =>
      (failIf (Z.of_nat (length (Mux.Sources ref)) <=? position) ErrPosition ;;
       deref (Mux.Sources ref !! Z.to_nat position))%res
  | _ => Raise ErrEntryType
  end.

(** The type switch of [checkValidSrc]: the destination that the referenced
    entry [e] declares for slot [position]. *)
Definition destinationAt (e : Entry) (position : Z)
  : res (option ValueDestination.t) :=
  match e with
  | CoinbaseEntry ref =>
      (failIf (negb (position =? 0)) ErrPosition ;;
       Val (Coinbase.WitnessDestination ref))%res
  | IssuanceEntry ref =>
      (failIf (negb (position =? 0)) ErrPosition ;;
       Val (Issuance.WitnessDestination ref))%res
  | SpendEntry ref =>
      (failIf (negb (position =? 0)) ErrPosition ;;
       Val (Spend.WitnessDestination ref))%res
  | MuxEntry ref =>
      (failIf (Z.of_nat (length (Mux.WitnessDestinations ref)) <=? position)
         ErrPosition ;;
       deref (Mux.WitnessDestinations ref !! Z.to_nat position))%res
  | ClaimEntry ref =>
      (failIf (negb (position =? 0)) ErrPosition ;;
       Val (Claim.WitnessDestination ref))%res
  | DposEntry ref =>
      (failIf (negb (position =? 0)) ErrPosition ;;
       Val (Dpos.WitnessDestination ref))%res
  | _ => Raise ErrEntryType
  end.

(** [if ref == nil || *ref != id { return errors.Wrapf(ErrMismatchedReference,
    ..., id.Bytes(), ref.Bytes()) }]: the message is built from [ref], also
    when it is nil. *)
Definition checkRef `{Collaborators} (ref : option Hash) (id : Hash) : res unit :=
  match ref with
  | None => if nilBytesPanics then Panic else Raise ErrMismatchedReference
  | Some r => failIf (negb (bool_decide (r = id))) ErrMismatchedReference
  end.

(** [checkValidDest].  The other messages are built from values that are
    present where they are used. *)
Definition checkValidDest `{Collaborators} (vs : validationState)
    (vd : option ValueDestination.t) : res unit :=
  match vd with
  | None => Raise ErrMissingField
  | Some vd =>
    match ValueDestination.Ref vd with
    | None => Raise ErrMissingField
    | Some ref =>
      (failIf (match ValueDestination.Value vd with
               | None => true
               | Some v => bool_decide (AssetAmount.AssetId v = None)
               end) ErrMissingField ;;
       e <- match Tx.Entries (tx vs) !! ref with
            | None => Raise ErrMissingEntry
            | Some e => Val e
            end ;;
       src <- sourceAt e (ValueDestination.Position vd) ;;
       src <- deref src ;;
       checkRef (ValueSource.Ref src) (entryID vs) ;;
       failIf (negb (ValueSource.Position src =? destPos vs)) ErrMismatchedPosition ;;
       match AssetAmount_Equal (ValueSource.Value src) (ValueDestination.Value vd) with
       | None => Raise ErrMissingField
       | Some eq => failIf (negb eq) ErrMismatchedValue
       end)%res
    end
  end.

(** [checkValidSrc], open in the recursive call of [checkValid]. *)
Definition checkValidSrc `{Collaborators}
    (checkValid : validationState -> option Entry -> M unit)
    (vstate : validationState) (vs : option ValueSource.t) : M unit :=
  match vs with
  | None => raise ErrMissingField
  | Some vs =>
    match ValueSource.Ref vs with
    | None => raise ErrMissingField
    | Some ref =>
      (liftR (failIf (match ValueSource.Value vs with
                      | None => true
                      | Some v => bool_decide (AssetAmount.AssetId v = None)
                      end) ErrMissingField) ;;
       e <- liftR (match Tx.Entries (tx vstate) !! ref with
                   | None => Raise ErrMissingEntry
                   | Some e => Val e
                   end) ;;
       checkValid (withEntryID ref vstate) (Some e) ;;
       liftR
         (dest <- destinationAt e (ValueSource.Position vs) ;;
          dest <- deref dest ;;
          checkRef (ValueDestination.Ref dest) (entryID vstate) ;;
          failIf (negb (ValueDestination.Position dest =? sourcePos vstate))
            ErrMismatchedPosition ;;
          match AssetAmount_Equal (ValueDestination.Value dest) (ValueSource.Value vs) with
          | None => Raise ErrMissingField
          | Some eq => failIf (negb eq) ErrMismatchedValue
          end)%res)%go
    end
  end.

(** ** Graph validator *)

(** One round of the loop over [e.Sources] that fills [parity]. *)
Definition muxAddSource (t : Tx.t) (parity : gmap N Z) (src : option ValueSource.t)
  : res (gmap N Z) :=
  (src <- deref src ;;
   ref <- deref (ValueSource.Ref src) ;;
   e <- match Tx.Entries t !! ref with
        | None => Raise ErrMissingEntry
        | Some e => Val e
        end ;;
   match e with
   | DposEntry _ => Val parity
   | _ =>
       value <- deref (ValueSource.Value src) ;;
       failIf (AssetAmount.Amount value >? MaxInt64) ErrOverflow ;;
       assetId <- deref (AssetAmount.AssetId value) ;;
       let '(sum, ok) :=
         checked.AddInt64 (default 0 (parity !! assetId))
                          (to_int64 (AssetAmount.Amount value)) in
       failIf (negb ok) ErrOverflow ;;
       Val (<[assetId := sum]> parity)
   end)%res.

(** One round of the loop over [e.WitnessDestinations] that empties it. *)
Definition muxSubDest (parity : gmap N Z) (dest : option ValueDestination.t)
  : res (gmap N Z) :=
  (dest <- deref dest ;;
   value <- deref (ValueDestination.Value dest) ;;
   assetId <- deref (AssetAmount.AssetId value) ;;
   sum <- match parity !! assetId with
          | None => Raise ErrNoSource
          | Some sum => Val sum
          end ;;
   failIf (AssetAmount.Amount value >? MaxInt64) ErrOverflow ;;
   let '(diff, ok) := checked.SubInt64 sum (to_int64 (AssetAmount.Amount value)) in
   failIf (negb ok) ErrOverflow ;;
   Val (<[assetId := diff]> parity))%res.

(** The asset-sum pass: both loops, from the empty map. *)
Definition muxParity (t : Tx.t) (e : Mux.t) : res (gmap N Z) :=
  (parity <- foldRange (muxAddSource t) ∅ (Mux.Sources e) ;;
   foldRange muxSubDest parity (Mux.WitnessDestinations e))%res.

(** One round of [for assetID, amount := range parity]. *)
Definition checkAsset `{Consensus} (t : Tx.t) (kv : N * Z) : M unit :=
  let '(assetID, amount) := kv in
  if bool_decide (assetID = BTMAssetID)
  then onGas (fun g => setGas g amount (to_int64 (Tx.SerializedSize t)))
  else liftR (failIf (negb (amount =? 0)) ErrUnbalanced).

Definition coinbaseMisplaced (vs : validationState) : bool :=
  match block vs with
  | None => true
  | Some b =>
      match Block.Transactions b with
      | [] => true
      | first :: _ => negb (Tx.Addr first =? Tx.Addr (tx vs))%N
      end
  end.

(** The type switch of [checkValid], open in its recursive call. *)
Definition checkEntry `{Consensus} `{Collaborators} `{PeginEnv}
    (checkValid : validationState -> option Entry -> M unit)
    (vs : validationState) (entry : option Entry) : M unit :=
  match entry with
  | Some (TxHeaderEntry e) =>
      (forRange (fun _ resID =>
                   resID <- liftR (deref resID) ;;
                   checkValid (withEntryID resID vs) (Tx.Entries (tx vs) !! resID))
                0 (TxHeader.ResultIds e) ;;
       liftR (failIf ((TxHeader.Version e =? 1)
                      && (Z.of_nat (length (TxHeader.ResultIds e)) =? 0))
                ErrEmptyResults))%go
  | Some (MuxEntry e) =>
      (parity <- liftR (muxParity (tx vs) e) ;;
       forRange (fun _ => checkAsset (tx vs)) 0 (rangeOrder parity) ;;
       forRange (fun _ BTMInputID =>
                   e <- liftR (match Tx.Entries (tx vs) !! BTMInputID with
                               | None => Raise ErrMissingEntry
                               | Some e => Val e
                               end) ;;
                   checkValid (withEntryID BTMInputID vs) (Some e))
                0 (Tx.GasInputIDs (tx vs)) ;;
       forRange (fun i dest => liftR (checkValidDest (withDestPos i vs) dest))
                0 (Mux.WitnessDestinations e) ;;
       (if 0 <? Z.of_nat (length (Tx.GasInputIDs (tx vs)))
        then onGas setGasValid else ret tt) ;;
       forRange (fun i src => checkValidSrc checkValid (withSourcePos i vs) src)
                0 (Mux.Sources e))%go
  | Some (OutputEntry e) =>
      checkValidSrc checkValid (withSourcePos 0 vs) (Output.Source e)
  | Some (RetirementEntry e) =>
      checkValidSrc checkValid (withSourcePos 0 vs) (Retirement.Source e)
  | Some (IssuanceEntry e) =>
      (def <- liftR (deref (Issuance.WitnessAssetDefinition e)) ;;
       let computedAssetID := ComputeAssetID def in
       value <- liftR (deref (Issuance.Value e)) ;;
       assetId <- liftR (deref (AssetAmount.AssetId value)) ;;
       liftR (failIf (negb (bool_decide (computedAssetID = assetId)))
                ErrMismatchedAssetID) ;;
       fun s =>
         let '(gasLeft, err) :=
           vmVerify vs (IssuanceEntry e) (AssetDefinition.IssuanceProgram def)
                    (Issuance.WitnessArguments e) (GasLeft (gasStatus s)) in
         (liftR (errorOf err) ;;
          onGas (fun g => updateUsage g gasLeft) ;;
          liftR (checkValidDest (withDestPos 0 vs) (Issuance.WitnessDestination e))) s)%go
  | Some (SpendEntry e) =>
      (spentOutputId <- liftR (match Spend.SpentOutputId e with
                               | None => Raise ErrMissingField
                               | Some id => Val id
                               end) ;;
       spentOutput <- liftR (Tx_Output (tx vs) spentOutputId) ;;
       fun s =>
         let '(gasLeft, err) :=
           vmVerify vs (SpendEntry e) (Output.ControlProgram spentOutput)
                    (Spend.WitnessArguments e) (GasLeft (gasStatus s)) in
         (liftR (errorOf err) ;;
          onGas (fun g => updateUsage g gasLeft) ;;
          source <- liftR (deref (Output.Source spentOutput)) ;;
          dest <- liftR (deref (Spend.WitnessDestination e)) ;;
          liftR (match AssetAmount_Equal (ValueSource.Value source)
                         (ValueDestination.Value dest) with
                 | None => Raise ErrEmptyAssetAmount
                 | Some eq => failIf (negb eq) ErrMismatchedValue
                 end) ;;
          liftR (checkValidDest (withDestPos 0 vs) (Spend.WitnessDestination e))) s)%go
  | Some (CoinbaseEntry e) =>
      (liftR (failIf (coinbaseMisplaced vs) ErrWrongCoinbaseTransaction) ;;
       dest <- liftR (deref (Coinbase.WitnessDestination e)) ;;
       value <- liftR (deref (ValueDestination.Value dest)) ;;
       assetId <- liftR (deref (AssetAmount.AssetId value)) ;;
       liftR (failIf (negb (bool_decide (assetId = BTMAssetID))) ErrWrongCoinbaseAsset) ;;
       liftR (failIf (match Coinbase.Arbitrary e with
                      | None => false
                      | Some a => Z.of_nat (length a) >? CoinbaseArbitrarySizeLimit
                      end) ErrCoinbaseArbitraryOversize) ;;
       liftR (checkValidDest (withDestPos 0 vs) (Coinbase.WitnessDestination e)) ;;
       fun s => (Val tt, withGas (setGasValidFlag true (gasStatus s)) s))%go
  | Some (ClaimEntry e) =>
      (spentOutputId <- liftR (match Claim.SpentOutputId e with
                               | None => Raise ErrMissingField
                               | Some id => Val id
                               end) ;;
       spentOutput <- liftR (Tx_Output (tx vs) spentOutputId) ;;
       let stack := Claim.Peginwitness e in
       liftR (failIf ((Z.of_nat (length stack) <? 5)
                      || bool_decide (stack !! 1%nat = Some None)
                      || bool_decide (Output.Source spentOutput = None))
                ErrPeginNoWitness) ;;
       liftR (IsValidPeginWitness stack spentOutput) ;;
       source <- liftR (deref (Output.Source spentOutput)) ;;
       dest <- liftR (deref (Claim.WitnessDestination e)) ;;
       liftR (match AssetAmount_Equal (ValueSource.Value source)
                      (ValueDestination.Value dest) with
              | None => Raise ErrEmptyAssetAmount
              | Some eq => failIf (negb eq) ErrMismatchedValue
              end) ;;
       liftR (checkValidDest (withDestPos 0 vs) (Claim.WitnessDestination e)) ;;
       fun s => (Val tt, withGas (setGasValidFlag true (gasStatus s)) s))%go
  | Some (DposEntry _) => ret tt
  | Some OtherEntry | None => raise ErrUnexpectedType
  end.

(** The deferred function of [checkValid]: [vs.cache[entryID] = err] with
    the error the call returns.  After a panic the run is over and the store
    is left as it was. *)
Definition deferred (entryID : Hash) (r : res unit * Shared) : res unit * Shared :=
  match r with
  | (Val _, s') => (Val tt, withCache (<[entryID := None]> (cache s')) s')
  | (Raise err, s') => (Raise err, withCache (<[entryID := Some err]> (cache s')) s')
  | (Panic, s') => (Panic, s')
  | (OutOfFuel, s') => (OutOfFuel, s')
  end.

(** [checkValid]: the cache is consulted first, then the type switch runs
    and its outcome is recorded.  [fuel] bounds the depth of the recursion. *)
Fixpoint checkValid `{Consensus} `{Collaborators} `{PeginEnv}
    (fuel : nat) (vs : validationState) (e : option Entry) : M unit :=
  match fuel with
  | O => fun s => (OutOfFuel, s)
  | S fuel =>
      fun s =>
        let entryID := entryIDOf e in
        match cache s !! entryID with
        | Some err => (errorOf err, s)
        | None =>
            deferred entryID
              (checkEntry (checkValid fuel) vs e
                 (withVisited (entryID :: visited s) s))
        end
  end.

(** A fresh run, as [ValidateTx] starts it: [GasValid] false, an empty
    cache. *)
Definition newStore : Shared :=
  mkShared (mkGasState 0 0 0 false 0) ∅ [].

(** ** Raw transaction signature witness (package [mainchain]) *)

Module mainchain.

(** [chainkd] and [Template] are not among the sources: extended keys are
    byte arrays; the text form of a public key, the public key of a private
    key, the signing function and the signature hash of a template are taken
    as they are. *)
Class SignEnv : Type := {
  Template : Type;
  XPub_String : bytes -> string;
  XPrv_XPub : bytes -> bytes;
  XPrv_Sign : bytes -> bytes -> bytes;
  (* tpl.Hash(index).Byte32() *)
  Template_Hash : Template -> Z -> bytes;
}.

Record keyID : Type := mkKeyID {
  XPub : bytes;
  DerivationPath : list bytes;
}.

Record RawTxSigWitness : Type := mkRawTxSigWitness {
  Quorum : Z;
  Keys : list keyID;
  Sigs : list bytes;
}.

(** [newSigs := make([]HexBytes, len(sw.Keys)); copy(newSigs, sw.Sigs)],
    done when there are fewer signatures than keys. *)
Definition padSigs (sw : RawTxSigWitness) : list bytes :=
  if (length (Sigs sw) <? length (Keys sw))%nat
  then Sigs sw ++ replicate (length (Keys sw) - length (Sigs sw)) []
  else Sigs sw.

(** [for i, keyID := range sw.Keys { ... }], from index [i] on. *)
Fixpoint signLoop `{SignEnv} (tpl : Template) (index : Z) (xprv : bytes)
    (i : nat) (keys : list keyID) (sigs : list bytes) : res (list bytes) :=
  match keys with
  | [] => Val sigs
  | keyID :: rest =>
      match sigs !! i with
      | None => Panic
      | Some sig =>
          if (0 <? length sig)%nat then signLoop tpl index xprv (S i) rest sigs
          else if negb (bool_decide (XPub_String (XPub keyID)
                                     = XPub_String (XPrv_XPub xprv)))
          then signLoop tpl index xprv (S i) rest sigs
          else
            let data := Template_Hash tpl index in
            let sigBytes := XPrv_Sign xprv data in
            Val (<[i := sigBytes]> sigs)
      end
  end.

(** [func (sw *RawTxSigWitness) Sign(tpl, index, xprv) error]: [Val (err, sw')]
    is a return of [err] with the receiver updated to [sw']. *)
Definition Sign `{SignEnv} (sw : RawTxSigWitness) (tpl : Template) (index : Z)
    (xprv : bytes) : res (option error * RawTxSigWitness) :=
  (sigs <- signLoop tpl index xprv 0 (Keys sw) (padSigs sw) ;;
   Val (None, mkRawTxSigWitness (Quorum sw) (Keys sw) sigs))%res.

(** The loop of [Materialize], from the signature at hand on: [nsigs]
    signatures were appended so far, [args] is what the pointer [args] points
    to ([None] for a nil pointer, dereferenced at the first append). *)
Fixpoint materializeLoop (quorum nsigs : Z) (sigs : list bytes)
    (args : option (list bytes)) : res (option (list bytes)) :=
  match sigs with
  | [] => Val args
  | sig :: rest =>
      if nsigs <? quorum then
        if (0 <? length sig)%nat then
          (a <- deref args ;;
           materializeLoop quorum (nsigs + 1) rest (Some (a ++ [sig])))%res
        else materializeLoop quorum nsigs rest args
      else Val args
  end.

(** [func (sw RawTxSigWitness) Materialize(args *[][]byte) error]: [Val (err,
    args')] is a return of [err] with [*args] updated to [args']. *)
Definition Materialize (sw : RawTxSigWitness) (args : option (list bytes))
  : res (option error * option (list bytes)) :=
  (args' <- materializeLoop (Quorum sw) 0 (Sigs sw) args ;;
   Val (None, args'))%res.

End mainchain.

(** ** Transactions and blocks (package [bc])

    [NewTxHeader] fills the six fields of a header.  The structs [bc.Tx] and
    [bc.Block] are not among the sources; they are modelled by what the
    entry point of the validation reads of them.  A [*bc.Tx] embeds the
    pointer [*TxHeader], through which [tx.Version], [tx.SerializedSize],
    [tx.TimeRange] and [tx.ResultIds] are read, and a [*bc.Block] embeds
    [*BlockHeader] the same way: reading a field through a nil embedded
    pointer panics. *)
Module bc.

Module TxHeader.
Record t : Type := mk {
    Version : Z;
    SerializedSize : Z;
    Data : option Hash;
    TimeRange : Z;
    ResultIds : list (option Hash);
    Side : bool;
  }.
End TxHeader.

(** [func NewTxHeader(version, serializedSize uint64, data *Hash, timeRange
    uint64, resultIDs []*Hash, side bool) *TxHeader] *)
Definition NewTxHeader (version serializedSize : Z) (data : option Hash)
    (timeRange : Z) (resultIDs : list (option Hash)) (side : bool) : TxHeader.t :=
  TxHeader.mk version serializedSize data timeRange resultIDs side.

(** What [writeForHash] hands to [mustWriteForHash], call by call; the
    writer is the sequence of the values written so far. *)
Inductive hashed : Type :=
  | HashedUint64 (z : Z)
  | HashedHashes (l : list (option Hash))
  | HashedHash (h : option Hash).

(** [func (h *TxHeader) writeForHash(w io.Writer)] *)
Definition writeForHash (h : TxHeader.t) (w : list hashed) : list hashed :=
  let w := w ++ [HashedUint64 (TxHeader.Version h)] in
  let w := w ++ [HashedUint64 (TxHeader.TimeRange h)] in
  let w := w ++ [HashedHashes (TxHeader.ResultIds h)] in
  if TxHeader.Side h then w ++ [HashedHash (TxHeader.Data h)] else w.

Module Tx.
Record t : Type := mk {
    TxHeader : option TxHeader.t;
    ID : Hash;
    Addr : N;
    Entries : gmap N Entry;
    GasInputIDs : list Hash;
  }.
End Tx.

Module BlockHeader.
Record t : Type := mk { Version : Z; Height : Z }.
End BlockHeader.

Module Block.
Record t : Type := mk {
    BlockHeader : option BlockHeader.t;
    Transactions : list Tx.t;
  }.
End Block.

End bc.

(** The header as the entry [checkValid] switches on, and the transaction
    and the block as the graph validator reads them ([Tx.t], [Block.t]): the
    size of a transaction is its header's. *)
Definition headerEntry (h : bc.TxHeader.t) : Entry :=
  TxHeaderEntry (TxHeader.mk (bc.TxHeader.Version h) (bc.TxHeader.ResultIds h)).

Definition graphTx (tx : bc.Tx.t) : Tx.t :=
  Tx.mk (bc.Tx.Addr tx)
        (from_option bc.TxHeader.SerializedSize 0 (bc.Tx.TxHeader tx))
        (bc.Tx.Entries tx) (bc.Tx.GasInputIDs tx).

Definition graphBlock (b : bc.Block.t) : Block.t :=
  Block.mk (graphTx <$> bc.Block.Transactions b).

(** ** Standardness checker and entry point *)

(** [segwit.IsP2WScript], the recognizer of segregated-witness programs, is
    not among the sources. *)
Class Segwit : Type := {
  IsP2WScript : bytes -> bool;
}.

(** Modelled from the spec: the method [Spend] of [bc.Tx] is not among the
    sources.  "[spend(id) -> Spend]": the entry stored under [id], which must
    be a [Spend]. *)
Definition Tx_Spend (t : Tx.t) (id : Hash) : res Spend.t :=
  match Tx.Entries t !! id with
  | None => Raise ErrMissingEntry
  | Some (SpendEntry sp) => Val sp
  | Some _ => Raise ErrEntryType
  end.

(** [for _, x := range l { ... }] with an early return and no state. *)
Definition forEach {A} (f : A -> res unit) (l : list A) : res unit :=
  foldRange (fun _ => f) tt l.

(** One round of the loop of [checkStandardTx] over [tx.GasInputIDs]. *)
Definition standardGasInput `{Segwit} (t : Tx.t) (id : Hash) : res unit :=
  (spend <- Tx_Spend t id ;;
   spentOutputId <- deref (Spend.SpentOutputId spend) ;;
   spentOutput <- Tx_Output t spentOutputId ;;
   prog <- deref (Output.ControlProgram spentOutput) ;;
   failIf (negb (IsP2WScript (Program.Code prog))) ErrNotStandardTx)%res.

(** One round of its loop over [tx.ResultIds]. *)
Definition standardResult `{Consensus} `{Segwit} (t : Tx.t) (id : option Hash)
  : res unit :=
  (id <- deref id ;;
   e <- match Tx.Entries t !! id with
        | None => Raise ErrMissingEntry
        | Some e => Val e
        end ;;
   match e with
   | OutputEntry output =>
       source <- deref (Output.Source output) ;;
       value <- deref (ValueSource.Value source) ;;
       assetId <- deref (AssetAmount.AssetId value) ;;
       if negb (bool_decide (assetId = BTMAssetID)) then Val tt
       else
         prog <- deref (Output.ControlProgram output) ;;
         failIf (negb (IsP2WScript (Program.Code prog))) ErrNotStandardTx
   | _ => Val tt
   end)%res.

(** [func checkStandardTx(tx *bc.Tx) error] *)
Definition checkStandardTx `{Consensus} `{Segwit} (tx : bc.Tx.t) : res unit :=
  (forEach (standardGasInput (graphTx tx)) (bc.Tx.GasInputIDs tx) ;;
   h <- deref (bc.Tx.TxHeader tx) ;;
   forEach (standardResult (graphTx tx)) (bc.TxHeader.ResultIds h))%res.

(** [func checkTimeRange(tx *bc.Tx, block *bc.Block) error] *)
Definition checkTimeRange (tx : bc.Tx.t) (block : option bc.Block.t) : res unit :=
  (h <- deref (bc.Tx.TxHeader tx) ;;
   if bc.TxHeader.TimeRange h =? 0 then Val tt
   else
     b <- deref block ;;
     bh <- deref (bc.Block.BlockHeader b) ;;
     failIf (bc.TxHeader.TimeRange h <? bc.BlockHeader.Height bh) ErrBadTimeRange)%res.

(** The state [ValidateTx] starts from: [&GasState{GasValid: false}]. *)
Definition freshGas : GasState := mkGasState 0 0 0 false 0.

(** [ValidateTx], which returns a pointer to the gas state and an error:
    [Val (g, err)] is a return of [err] beside a pointer to the gas state
    [g].  [fuel] bounds the depth of the walk. *)
Definition ValidateTx `{Consensus} `{Collaborators} `{PeginEnv} `{Segwit}
    (fuel : nat) (tx : bc.Tx.t) (block : option bc.Block.t)
  : res (GasState * option error) :=
  (b <- deref block ;;
   bh <- deref (bc.Block.BlockHeader b) ;;
   wrongVersion <- (if bc.BlockHeader.Version bh =? 1
                    then h <- deref (bc.Tx.TxHeader tx) ;;
                         Val (negb (bc.TxHeader.Version h =? 1))
                    else Val false) ;;
   if wrongVersion : bool then Val (freshGas, Some ErrTxVersion)
   else
     h <- deref (bc.Tx.TxHeader tx) ;;
     if bc.TxHeader.SerializedSize h =? 0
     then Val (freshGas, Some ErrWrongTransactionSize)
     else
       match checkTimeRange tx block with
       | Raise err => Val (freshGas, Some err)
       | Panic => Panic
       | OutOfFuel => OutOfFuel
       | Val _ =>
           match checkStandardTx tx with
           | Raise err => Val (freshGas, Some err)
           | Panic => Panic
           | OutOfFuel => OutOfFuel
           | Val _ =>
               let vs := mkVS (Some (graphBlock b)) (graphTx tx) (bc.Tx.ID tx) 0 0 in
               match checkValid fuel vs (Some (headerEntry h)) newStore with
               | (Val _, s) => Val (gasStatus s, None)
               | (Raise err, s) => Val (gasStatus s, Some err)
               | (Panic, _) => Panic
               | (OutOfFuel, _) => OutOfFuel
               end
           end
       end)%res.

(** ** Transaction builder actions (package [txbuilder])

    The template builder, the address decoder, the program builders of
    [vmutil] and [types.NewTxOutput] are not among the sources.  An action
    embeds a [bc.AssetAmount], whose fields [AssetId] (a pointer) and
    [Amount] it reads; [Val (err, b')] is a return of [err] with the builder
    updated to [b']. *)
Module txbuilder.

(** [MissingFieldsError(missing...)], [errors.New("unsupport address type")]
    and the errors handed back by the collaborators. *)
Inductive buildError : Type :=
  | MissingFieldsError (missing : list string)
  | ErrUnsupportedAddress
  | ErrCollaborator (code : N).

(** A decoded [common.Address]: the two witness address types the switch of
    [Build] knows, and any other implementation of the interface; each
    holds what [ScriptAddress()] returns. *)
Inductive Address : Type :=
  | AddressWitnessPubKeyHash (script : bytes)
  | AddressWitnessScriptHash (script : bytes)
  | AddressOther (script : bytes).

Definition ScriptAddress (a : Address) : bytes :=
  match a with
  | AddressWitnessPubKeyHash script
  | AddressWitnessScriptHash script
  | AddressOther script => script
  end.

Class BuildEnv : Type := {
  TemplateBuilder : Type;
  TxOutput : Type;
  (* a.AssetId.IsZero(), on a pointer that may be nil *)
  AssetId_IsZero : option AssetID -> bool;
  (* common.DecodeAddress(address, &consensus.ActiveNetParams) *)
  DecodeAddress : string -> buildError + Address;
  P2WPKHProgram : bytes -> buildError + bytes;
  P2WSHProgram : bytes -> buildError + bytes;
  RetireProgram : bytes -> buildError + bytes;
  NewTxOutput : AssetID -> Z -> bytes -> TxOutput;
  AddOutput : TemplateBuilder -> TxOutput -> option buildError * TemplateBuilder;
}.

Record controlAddressAction : Type := mkControlAddressAction {
  caAssetAmount : AssetAmount.t;
  Address_ : string;
}.

Record controlProgramAction : Type := mkControlProgramAction {
  cpAssetAmount : AssetAmount.t;
  Program_ : bytes;
}.

Record retireAction : Type := mkRetireAction {
  rAssetAmount : AssetAmount.t;
  Arbitrary : bytes;
}.

(** [if cond { missing = append(missing, name) }] *)
Definition missingIf (cond : bool) (name : string) (missing : list string)
  : list string :=
  if cond then missing ++ [name] else missing.

(** [out := types.NewTxOutput( *a.AssetId, a.Amount, program); return
    b.AddOutput(out)] *)
Definition addOutput `{BuildEnv} (value : AssetAmount.t) (program : bytes)
    (b : TemplateBuilder) : res (option buildError * TemplateBuilder) :=
  (assetId <- deref (AssetAmount.AssetId value) ;;
   Val (AddOutput b (NewTxOutput assetId (AssetAmount.Amount value) program)))%res.

(** [func (a *controlAddressAction) Build(ctx, b) error] *)
Definition controlAddressAction_Build `{BuildEnv} (a : controlAddressAction)
    (b : TemplateBuilder) : res (option buildError * TemplateBuilder) :=
  let missing := [] in
  let missing := missingIf (bool_decide (Address_ a = EmptyString)) "address" missing in
  let missing :=
    missingIf (AssetId_IsZero (AssetAmount.AssetId (caAssetAmount a))) "asset_id"
      missing in
  let missing :=
    missingIf (AssetAmount.Amount (caAssetAmount a) =? 0) "amount" missing in
  if (0 <? length missing)%nat then Val (Some (MissingFieldsError missing), b)
  else
    match DecodeAddress (Address_ a) with
    | inl err => Val (Some err, b)
    | inr address =>
        let redeemContract := ScriptAddress address in
        match address with
        | AddressWitnessPubKeyHash _ =>
            match P2WPKHProgram redeemContract with
            | inl err => Val (Some err, b)
            | inr program => addOutput (caAssetAmount a) program b
            end
        | AddressWitnessScriptHash _ =>
            match P2WSHProgram redeemContract with
            | inl err => Val (Some err, b)
            | inr program => addOutput (caAssetAmount a) program b
            end
        | AddressOther _ => Val (Some ErrUnsupportedAddress, b)
        end
    end.

(** [func (a *controlProgramAction) Build(ctx, b) error] *)
Definition controlProgramAction_Build `{BuildEnv} (a : controlProgramAction)
    (b : TemplateBuilder) : res (option buildError * TemplateBuilder) :=
  let missing := [] in
  let missing :=
    missingIf (Z.of_nat (length (Program_ a)) =? 0) "control_program" missing in
  let missing :=
    missingIf (AssetId_IsZero (AssetAmount.AssetId (cpAssetAmount a))) "asset_id"
      missing in
  let missing :=
    missingIf (AssetAmount.Amount (cpAssetAmount a) =? 0) "amount" missing in
  if (0 <? length missing)%nat then Val (Some (MissingFieldsError missing), b)
  else addOutput (cpAssetAmount a) (Program_ a) b.

(** [func (a *retireAction) Build(ctx, b) error] *)
Definition retireAction_Build `{BuildEnv} (a : retireAction)
    (b : TemplateBuilder) : res (option buildError * TemplateBuilder) :=
  let missing := [] in
  let missing :=
    missingIf (AssetId_IsZero (AssetAmount.AssetId (rAssetAmount a))) "asset_id"
      missing in
  let missing :=
    missingIf (AssetAmount.Amount (rAssetAmount a) =? 0) "amount" missing in
  if (0 <? length missing)%nat then Val (Some (MissingFieldsError missing), b)
  else
    match RetireProgram (Arbitrary a) with
    | inl err => Val (Some err, b)
    | inr program => addOutput (rAssetAmount a) program b
    end.

End txbuilder.

(** ** Miner (package [miner])

    The methods of [*Miner] take the miner's mutex; they are modelled for one
    caller at a time, as functions of the fields they read and write.  What
    they do to the rest of the world is logged: the start of the controller
    goroutine, the closing of the quit channel, and a send on
    [updateNumWorkers], logged with the value [numWorkers] holds when it is
    sent. *)
Module miner.

Definition defaultNumWorkers : Z := 1.

Inductive event : Type :=
  | StartController
  | CloseQuit
  | UpdateNumWorkers (numWorkers : Z).

Record Miner : Type := mkMiner {
  numWorkers : Z;
  started : bool;
  events : list event;
}.

(** [NewMiner]: the default number of workers, not started. *)
Definition NewMiner : Miner := mkMiner defaultNumWorkers false [].

(** [func (m *Miner) Start()] *)
Definition Start (m : Miner) : Miner :=
  if started m then m
  else mkMiner (numWorkers m) true (events m ++ [StartController]).

(** [func (m *Miner) Stop()] *)
Definition Stop (m : Miner) : Miner :=
  if negb (started m) then m
  else mkMiner (numWorkers m) false (events m ++ [CloseQuit]).

(** [func (m *Miner) IsMining() bool] *)
Definition IsMining (m : Miner) : bool := started m.

(** [func (m *Miner) SetNumWorkers(numWorkers int32)] *)
Definition SetNumWorkers (m : Miner) (n : Z) : Miner :=
  let m := if n =? 0 then Stop m else m in
  let m :=
    if n <? 0 then mkMiner defaultNumWorkers (started m) (events m)
    else mkMiner (to_uint64 n) (started m) (events m) in
  if started m
  then mkMiner (numWorkers m) (started m)
               (events m ++ [UpdateNumWorkers (numWorkers m)])
  else m.

(** The conversion [int32(x)]. *)
Definition to_int32 (z : Z) : Z := (z + 2 ^ 31) mod 2 ^ 32 - 2 ^ 31.

(** [func (m *Miner) NumWorkers() int32] *)
Definition NumWorkers (m : Miner) : Z := to_int32 (numWorkers m).

(** The loop of the controller that stops the most recently created
    workers, [for i := numRunning - 1; i >= m.numWorkers; i--], on [uint64]
    values: the quit channel at index [i] is closed and the slice cut down to
    its first [i] elements.  [runningWorkers] holds the channels of the
    running workers, [closed] the channels closed so far; [fuel] bounds the
    number of rounds. *)
Fixpoint stopWorkers (fuel : nat) (numWorkers i : Z) (runningWorkers closed : list N)
  : res (list N * list N) :=
  match fuel with
  | O => OutOfFuel
  | S fuel =>
      if numWorkers <=? i then
        match runningWorkers !! Z.to_nat i with
        | None => Panic
        | Some quit =>
            stopWorkers fuel numWorkers (to_uint64 (i - 1))
              (take (Z.to_nat i) runningWorkers) (closed ++ [quit])
        end
      else Val (runningWorkers, closed)
  end.

(** The branch of the controller that handles an update when fewer workers
    are wanted than are running. *)
Definition shrinkWorkers (fuel : nat) (numWorkers : Z) (runningWorkers : list N)
  : res (list N * list N) :=
  let numRunning := Z.of_nat (length runningWorkers) in
  stopWorkers fuel numWorkers (to_uint64 (numRunning - 1)) runningWorkers [].

End miner.

(** ** Vocabulary of the statements *)

(** The state [updateUsage] leaves behind when the difference is
    representable: the difference is added to [GasUsed] (an unchecked
    addition) and [GasLeft] is replaced. *)
Definition usageUpdated (g : GasState) (gasLeft : Z) : GasState :=
  mkGasState (BTMValue g) gasLeft (wrap64 (GasUsed g + (GasLeft g - gasLeft)))
             (GasValid g) (StorageGas g).

(** Slot [i] can take a signature of [xprv]: it is empty and its key has the
    text form of the public key of [xprv]. *)
Definition signable `{mainchain.SignEnv} (xprv : bytes) (keys : list mainchain.keyID)
    (sigs : list bytes)
    (i : nat) : Prop :=
  exists k sig, keys !! i = Some k /\ sigs !! i = Some sig /\ length sig = 0%nat
                /\ mainchain.XPub_String (mainchain.XPub k)
                  = mainchain.XPub_String (mainchain.XPrv_XPub xprv).

(** The guard of the dispatcher's [Claim] case. *)
Definition claimGuardFails (e : Claim.t) (spentOutput : Output.t) : Prop :=
  Z.of_nat (length (Claim.Peginwitness e)) < 5
  \/ Claim.Peginwitness e !! 1%nat = Some None
  \/ Output.Source spentOutput = None.

(** The entry is not a delegate entry. *)
Definition notDpos (e : Entry) : Prop :=
  match e with DposEntry _ => False | _ => True end.

(** The three comparisons that close both checks, on the far end
    [(ref, position, value')] and the near end [(id, slot, value)]. *)
Definition compareEdge `{Collaborators} (id : Hash) (slot : Z)
    (value : option AssetAmount.t) (ref : option Hash) (position : Z)
    (value' : option AssetAmount.t) : res unit :=
  (checkRef ref id ;;
   failIf (negb (position =? slot)) ErrMismatchedPosition ;;
   match AssetAmount_Equal value' value with
   | None => Raise ErrMissingField
   | Some eq => failIf (negb eq) ErrMismatchedValue
   end)%res.

(** The value of an edge object is present, with its asset id. *)
Definition hasValue (value : option AssetAmount.t) : Prop :=
  exists v a, value = Some v /\ AssetAmount.AssetId v = Some a.

(** The call returned to its caller (with nil or with an error). *)
Definition normal {A} (r : res A) : Prop :=
  match r with Val _ | Raise _ => True | Panic | OutOfFuel => False end.

(** The entries a visit of [e] descends into, as [checkValid] resolves
    them: the results of a header (the nil entry for a missing one), the
    gas inputs of the transaction and the referenced entries of the sources
    for a mux, the referenced entry of the source for an output or a
    retirement. *)
Definition refEntry (t : Tx.t) (src : option ValueSource.t) : option (option Entry) :=
  match src with
  | Some s =>
      match ValueSource.Ref s with
      | Some ref =>
          match Tx.Entries t !! ref with
          | Some e => Some (Some e)
          | None => None
          end
      | None => None
      end
  | None => None
  end.

Definition children (t : Tx.t) (e : Entry) : list (option Entry) :=
  match e with
  | TxHeaderEntry h =>
      omap (fun resID => match resID with
                         | Some r => Some (Tx.Entries t !! r)
                         | None => None
                         end) (TxHeader.ResultIds h)
  | MuxEntry m =>
      omap (fun id => match Tx.Entries t !! id with
                      | Some e => Some (Some e)
                      | None => None
                      end) (Tx.GasInputIDs t)
      ++ omap (refEntry t) (Mux.Sources m)
  | OutputEntry o => omap (refEntry t) [Output.Source o]
  | RetirementEntry r => omap (refEntry t) [Retirement.Source r]
  | _ => []
  end.

(** [e] is the root of the walk or an entry of the transaction. *)
Definition inGraph (t : Tx.t) (root : Entry) (e : Entry) : Prop :=
  e = root \/ exists k, Tx.Entries t !! k = Some e.

(** "The graph is acyclic by construction": the ids of the entries are
    ranked so that a visit only descends to lower ranks. *)
Definition acyclic `{Collaborators} (rank : Hash -> nat) (t : Tx.t) (root : Entry)
  : Prop :=
  forall e c, inGraph t root e -> c ∈ children t e ->
              (rank (entryIDOf c) < rank (EntryID e))%nat.

(** Every id whose checks were entered is in the cache, unless its rank is
    at least [bound] (its visit is still under way); and no id was entered
    twice. *)
Definition settledBelow (rank : Hash -> nat) (bound : nat) (s : Shared) : Prop :=
  NoDup (visited s)
  /\ forall y, y ∈ visited s -> is_Some (cache s !! y) \/ (bound <= rank y)%nat.

(** From [s] to [s'] the log grew by ids that are now all in the cache, and
    the cache grew by these ids only. *)
Definition grows (s s' : Shared) : Prop :=
  exists new,
    visited s' = new ++ visited s
    /\ (forall y, y ∈ new -> is_Some (cache s' !! y))
    /\ (forall y, is_Some (cache s !! y) -> is_Some (cache s' !! y))
    /\ (forall y, is_Some (cache s' !! y) -> is_Some (cache s !! y) \/ y ∈ new).

(** The computation [m], run while the visit of an id of rank [bound] is
    under way, enters no id twice, and leaves the store grown when it
    returns. *)
Definition visitsOnce (rank : Hash -> nat) (bound : nat) {A} (m : M A) : Prop :=
  forall s, settledBelow rank bound s ->
            NoDup (visited (snd (m s)))
            /\ (normal (fst (m s)) -> grows s (snd (m s))).

(** The computation does not touch the cache or the log. *)
Definition keeps {A} (m : M A) : Prop :=
  forall s, cache (snd (m s)) = cache s /\ visited (snd (m s)) = visited s.

(** The recursive call enters no id twice when it descends below [bound]. *)
Definition descends `{Collaborators} (rank : Hash -> nat) (t : Tx.t) (root : Entry)
    (bound : nat) (rec : validationState -> option Entry -> M unit)
  : Prop :=
  forall vs c,
    tx vs = t -> (forall e, c = Some e -> inGraph t root e) ->
    (rank (entryIDOf c) < bound)%nat ->
    visitsOnce rank bound (rec vs c).

(** The outcome is not the recursion bound of the model. *)
Definition finishesR {A} (r : res A) : Prop := r <> OutOfFuel.

Definition finishes {A} (m : M A) : Prop := forall s, fst (m s) <> OutOfFuel.

(** ** The asset-sum pass in the spec's words

    "For every asset, the sum of source amounts minus the sum of destination
    amounts", the sources of delegate entries left out. *)

(** Asset and amount of a source that counts: present, and not pointing at
    a [Dpos] entry. *)
Definition countedSource (t : Tx.t) (src : option ValueSource.t)
  : option (AssetID * Z) :=
  match src with
  | Some s =>
      match ValueSource.Ref s with
      | Some ref =>
          match Tx.Entries t !! ref with
          | Some (DposEntry _) | None => None
          | Some _ =>
              match ValueSource.Value s with
              | Some v =>
                  match AssetAmount.AssetId v with
                  | Some a => Some (a, AssetAmount.Amount v)
                  | None => None
                  end
              | None => None
              end
          end
      | None => None
      end
  | None => None
  end.

Definition destValue (dest : option ValueDestination.t) : option (AssetID * Z) :=
  match dest with
  | Some d =>
      match ValueDestination.Value d with
      | Some v =>
          match AssetAmount.AssetId v with
          | Some a => Some (a, AssetAmount.Amount v)
          | None => None
          end
      | None => None
      end
  | None => None
  end.

Definition amountOf (a : AssetID) (x : option (AssetID * Z)) : Z :=
  match x with
  | Some (a', n) => if bool_decide (a' = a) then n else 0
  | None => 0
  end.

Definition sumAmounts (a : AssetID) (l : list (option (AssetID * Z))) : Z :=
  foldr (fun x acc => amountOf a x + acc) 0 l.

Definition netAmount (t : Tx.t) (m : Mux.t) (a : AssetID) : Z :=
  sumAmounts a (countedSource t <$> Mux.Sources m)
  - sumAmounts a (destValue <$> Mux.WitnessDestinations m).

(** Some source (or destination) of the list is of asset [a]. *)
Definition mentions (a : AssetID) (l : list (option (AssetID * Z))) : Prop :=
  exists n, Some (a, n) ∈ l.

(** Amounts are [uint64] values. *)
Definition uint64Amounts (l : list (option (AssetID * Z))) : Prop :=
  Forall (fun x => match x with Some (_, n) => 0 <= n | None => True end) l.

(** ** Bidirectional integrity in the spec's words

    "[E]'s corresponding ValueDestination at [p] must reference back to the
    source's own entry and slot with an identical asset and amount." *)

(** Identical asset and amount, both present. *)
Definition sameValue (x y : option AssetAmount.t) : Prop :=
  exists a n,
    x = Some (AssetAmount.mk (Some a) n) /\ y = Some (AssetAmount.mk (Some a) n).

(** The far end of an edge, with back-reference [ref], recorded slot
    [position] and value [value'], refers back to the entry [id], slot
    [slot] and value [value] of the near end. *)
Definition refersBack (id : Hash) (slot : Z) (value : option AssetAmount.t)
    (ref : option Hash) (position : Z) (value' : option AssetAmount.t) : Prop :=
  ref = Some id /\ position = slot /\ sameValue value' value.

(** ** Vocabulary of the further properties *)

(** The gas input [id] is a spend of an output of the transaction whose
    control program has a segregated-witness form. *)
Definition standardSpend `{Segwit} (t : Tx.t) (id : Hash) : Prop :=
  exists sp oid o prog,
    Tx.Entries t !! id = Some (SpendEntry sp)
    /\ Spend.SpentOutputId sp = Some oid
    /\ Tx.Entries t !! oid = Some (OutputEntry o)
    /\ Output.ControlProgram o = Some prog
    /\ IsP2WScript (Program.Code prog) = true.

(** The result [rid] is an entry of the transaction; when it is an output,
    its source carries a value with an asset id, and when that is the native
    asset its control program has a segregated-witness form. *)
Definition standardOutput `{Consensus} `{Segwit} (t : Tx.t) (rid : option Hash)
  : Prop :=
  exists id e,
    rid = Some id /\ Tx.Entries t !! id = Some e
    /\ match e with
       | OutputEntry o =>
           exists source value assetId,
             Output.Source o = Some source
             /\ ValueSource.Value source = Some value
             /\ AssetAmount.AssetId value = Some assetId
             /\ (assetId = BTMAssetID ->
                 exists prog, Output.ControlProgram o = Some prog
                              /\ IsP2WScript (Program.Code prog) = true)
       | _ => True
       end.

(** The version rule and the time-range rule of [ValidateTx]. *)
Definition wrongVersion (bh : bc.BlockHeader.t) (h : bc.TxHeader.t) : Prop :=
  bc.BlockHeader.Version bh = 1 /\ bc.TxHeader.Version h <> 1.

Definition badTimeRange (bh : bc.BlockHeader.t) (h : bc.TxHeader.t) : Prop :=
  bc.TxHeader.TimeRange h <> 0
  /\ bc.TxHeader.TimeRange h < bc.BlockHeader.Height bh.

(** The context of the walk [ValidateTx] starts. *)
Definition rootVS (tx : bc.Tx.t) (b : bc.Block.t) : validationState :=
  mkVS (Some (graphBlock b)) (graphTx tx) (bc.Tx.ID tx) 0 0.
(** The computation leaves every recorded outcome of the cache as it is. *)
Definition stable {A} (m : M A) : Prop :=
  forall s y v, cache s !! y = Some v -> cache (snd (m s)) !! y = Some v.

(** The entry produces value: a source may refer to it. *)
Definition producer (e : Entry) : Prop :=
  match e with
  | CoinbaseEntry _ | IssuanceEntry _ | SpendEntry _ | MuxEntry _
  | ClaimEntry _ | DposEntry _ => True
  | _ => False
  end.

(** The source of a terminal sink (an output or a retirement). *)
Definition sinkSource (e : Entry) : option (option ValueSource.t) :=
  match e with
  | OutputEntry o => Some (Output.Source o)
  | RetirementEntry r => Some (Retirement.Source r)
  | _ => None
  end.

(** One round of the header's loop over its results. *)
Definition visitResult `{Consensus} `{Collaborators} `{PeginEnv} (fuel : nat)
    (vs : validationState) (resID : option Hash) : M unit :=
  (resID <- liftR (deref resID) ;;
   checkValid fuel (withEntryID resID vs) (Tx.Entries (tx vs) !! resID))%go.

(** The computation never resets [GasValid]. *)
Definition keepsGasValid {A} (m : M A) : Prop :=
  forall s, GasValid (gasStatus s) = true -> GasValid (gasStatus (snd (m s))) = true.

(** The computation leaves [GasValid] as it is. *)
Definition sameGasValid {A} (m : M A) : Prop :=
  forall s, GasValid (gasStatus (snd (m s))) = GasValid (gasStatus s).

(** The entries that are exempt from gas: their validation sets [GasValid]. *)
Definition exempt (e : Entry) : Prop :=
  match e with CoinbaseEntry _ | ClaimEntry _ => True | _ => False end.

(** The entry consumes value: a destination may refer to it. *)
Definition consumer (e : Entry) : Prop :=
  match e with
  | OutputEntry _ | RetirementEntry _ | MuxEntry _ => True
  | _ => False
  end.

(** The slot [position] exists on the side of [e] that takes sources. *)
Definition sourceSlot (e : Entry) (position : Z) : Prop :=
  match e with
  | OutputEntry _ | RetirementEntry _ => position = 0
  | MuxEntry m => position < Z.of_nat (length (Mux.Sources m))
  | _ => False
  end.

(** The slot [position] exists on the side of [e] that gives destinations. *)
Definition destinationSlot (e : Entry) (position : Z) : Prop :=
  match e with
  | CoinbaseEntry _ | IssuanceEntry _ | SpendEntry _ | ClaimEntry _ | DposEntry _ =>
      position = 0
  | MuxEntry m => position < Z.of_nat (length (Mux.WitnessDestinations m))
  | _ => False
  end.

(** What the peg-in verifier requires of a stack and of the output it
    claims: the five elements [w0 .. w4]; the amount [w0] parses to, in the
    money range; the parent transaction [w3] and the proof bundle [w4] with
    its block header parse, and the merkle check accepts the bundle's hashes
    with the flags it is handed; the output of the parent transaction at the
    claimed output's position carries the amount and the control program
    derived from the claim script [w2]; [w1] is the hash of the parent
    genesis block; and the parent block is confirmed when that is
    enforced. *)
Definition peginDeposit `{PeginEnv} (stack : list (option bytes)) (prevout : Output.t)
  : Prop :=
  exists source value prog w0 w1 w2 w3 w4 amount rawTx mb header out programs,
    Output.Source prevout = Some source
    /\ ValueSource.Value source = Some value
    /\ Output.ControlProgram prevout = Some prog
    /\ stack = [w0; w1; w2; w3; w4]
    /\ ParseUint (sliceOf w0) = inr amount
    /\ MoneyRange amount = true
    /\ Tx_UnmarshalText (sliceOf w3) = inr rawTx
    /\ json_Unmarshal (sliceOf w4) = inr mb
    /\ BlockHeader_UnmarshalText (MerkleBlock.BlockHeader mb) = inr header
    /\ ValidateTxMerkleTreeProof (MerkleBlock.TxHashes mb)
         (rangeFlags 0 (MerkleBlock.Flags mb)) (MerkleBlock.MatchedTxIDs mb)
         (bytomtypes.TransactionsMerkleRoot header) = true
    /\ bytomtypes.Outputs rawTx !! Z.to_nat (ValueSource.Position source) = Some out
    /\ bytomtypes.Amount out = amount
    /\ GetPeginContractPrograms (sliceOf w2) = inr programs
    /\ P2WSHProgram (Sha256 programs) = inr (bytomtypes.ControlProgram out)
    /\ HashText (sliceOf w1) = ParentGenesisBlockHash
    /\ (ValidatePegin = true ->
        IsConfirmedBytomBlock (bytomtypes.Height header) PeginMinDepth = None).

(** The signatures [Materialize] appends: the first [Quorum] non-empty
    ones, in order. *)
Definition materialized (sw : mainchain.RawTxSigWitness) : list bytes :=
  take (Z.to_nat (mainchain.Quorum sw))
       (filter (fun sig => sig <> []) (mainchain.Sigs sw)).

(** The keys have pairwise distinct text forms. *)
Definition distinctKeys `{mainchain.SignEnv} (keys : list mainchain.keyID) : Prop :=
  forall i j k k',
    keys !! i = Some k -> keys !! j = Some k' ->
    mainchain.XPub_String (mainchain.XPub k) = mainchain.XPub_String (mainchain.XPub k') ->
    i = j.

(** The names of the fields whose test holds, in the order of the tests. *)
Definition missingOf (checks : list (bool * string)) : list string :=
  snd <$> filter (fun c => fst c = true) checks.

(** Calls of the miner's methods by one caller, and the miner after a
    sequence of them. *)
Inductive minerCall : Type :=
  | CallStart
  | CallStop
  | CallSetNumWorkers (n : Z).

Definition callMiner (m : miner.Miner) (c : minerCall) : miner.Miner :=
  match c with
  | CallStart => miner.Start m
  | CallStop => miner.Stop m
  | CallSetNumWorkers n => miner.SetNumWorkers m n
  end.

(** The argument of a call is an [int32]. *)
Definition int32Call (c : minerCall) : Prop :=
  match c with
  | CallSetNumWorkers n => - 2 ^ 31 <= n < 2 ^ 31
  | _ => True
  end.

(** An update of the number of workers is sent with one worker at least. *)
Definition positiveUpdate (ev : miner.event) : Prop :=
  match ev with
  | miner.UpdateNumWorkers k => 1 <= k
  | _ => True
  end.

(** ** Example parameters

    Concrete parameters and stand-ins for the collaborators, used to run the
    model on examples. *)

Definition exampleParams : Consensus := {|
  BTMAssetID := 1%N;
  VMGasRate := 200;
  StorageGasRate := 1;
  MaxGasAmount := 200000;
  DefaultGasCredit := 30000;
  CoinbaseArbitrarySizeLimit := 128;
|}.

(** Gas rate 100 and a ceiling above one million. *)
Definition rate100Params : Consensus := {|
  BTMAssetID := 1%N;
  VMGasRate := 100;
  StorageGasRate := 1;
  MaxGasAmount := 10000000;
  DefaultGasCredit := 30000;
  CoinbaseArbitrarySizeLimit := 128;
|}.

(** Stand-ins for the collaborators: the id of an entry is read off its
    type (an example graph holds one entry of each type at most), every
    program verifies and burns no gas, the map is ranged over in key order. *)
Definition exampleEntryID (e : Entry) : Hash :=
  match e with
  | TxHeaderEntry _ => 1
  | MuxEntry _ => 2
  | OutputEntry _ => 3
  | RetirementEntry _ => 4
  | IssuanceEntry _ => 5
  | SpendEntry _ => 6
  | CoinbaseEntry _ => 7
  | ClaimEntry _ => 8
  | DposEntry _ => 9
  | OtherEntry => 10
  end%N.

Definition exampleCollaborators : Collaborators := {|
  EntryID := exampleEntryID;
  nilBytesPanics := true;
  ComputeAssetID := fun _ => 7%N;
  vmVerify := fun _ _ _ _ gas => (gas, None);
  rangeOrder := map_to_list;
  rangeOrder_perm := fun m => reflexivity (map_to_list m);
|}.

(** Stand-ins for the peg-in collaborators: the amount is the length of its
    text, the proof bundle's flags are its bytes. *)
Definition examplePeginEnv : PeginEnv := {|
  ParseUint := fun b => inr (Z.of_nat (length b));
  MoneyRange := fun _ => true;
  Tx_UnmarshalText := fun _ => inr (bytomtypes.mkTx [bytomtypes.mkTxOutput 1 []]);
  json_Unmarshal := fun b =>
    inr (MerkleBlock.mk [] [] [] (map (fun x => Z.of_N (Byte.to_N x)) b) []);
  BlockHeader_UnmarshalText := fun _ => inr (bytomtypes.mkBlockHeader 1 0%N);
  ValidateTxMerkleTreeProof := fun _ flags _ _ => bool_decide (flags = [0; 1]);
  GetPeginContractPrograms := fun b => inr b;
  Sha256 := fun b => b;
  P2WSHProgram := fun b => inr b;
  HashText := fun _ => EmptyString;
  ParentGenesisBlockHash := EmptyString;
  PeginMinDepth := 6;
  ValidatePegin := false;
  IsConfirmedBytomBlock := fun _ _ => None;
|}.

(** An example graph: an issuance of 5 units of asset 7 flows through a mux
    into an output. *)
Definition exampleValue : option AssetAmount.t := Some (AssetAmount.mk (Some 7%N) 5).

Definition exampleIssuance : Entry :=
  IssuanceEntry
    (Issuance.mk exampleValue
       (Some (ValueDestination.mk (Some 2%N) exampleValue 0))
       (Some (AssetDefinition.mk None None)) []).

Definition balancedMux : Mux.t :=
  Mux.mk [Some (ValueSource.mk (Some 5%N) exampleValue 0)]
         [Some (ValueDestination.mk (Some 3%N) exampleValue 0)].

Definition exampleMux : Entry := MuxEntry balancedMux.

Definition exampleOutput : Entry :=
  OutputEntry (Output.mk (Some (ValueSource.mk (Some 2%N) exampleValue 0)) None).

Definition exampleHeader : Entry := TxHeaderEntry (TxHeader.mk 1 [Some 3%N]).

Definition exampleTx : Tx.t :=
  Tx.mk 1%N 300
    (<[1%N := exampleHeader]> (<[2%N := exampleMux]> (<[3%N := exampleOutput]>
      (<[5%N := exampleIssuance]> ∅))))
    [].

Definition exampleVS : validationState := mkVS None exampleTx 1%N 0 0.

(** The context in which the mux of the example is visited. *)
Definition muxVS : validationState := mkVS None exampleTx 2%N 0 0.

(** A mux drawing 2^63 units from the issuance. *)
Definition hugeMux : Mux.t :=
  Mux.mk [Some (ValueSource.mk (Some 5%N)
                  (Some (AssetAmount.mk (Some 7%N) (2 ^ 63))) 0)] [].

(** A coinbase of 5 units of the native asset paid into an output; its
    transaction is the first of a block of two. *)
Definition nativeValue : option AssetAmount.t := Some (AssetAmount.mk (Some 1%N) 5).

Definition exampleCoinbase : Coinbase.t :=
  Coinbase.mk (Some (ValueDestination.mk (Some 3%N) nativeValue 0)) None.

Definition coinbaseOutput : Entry :=
  OutputEntry (Output.mk (Some (ValueSource.mk (Some 7%N) nativeValue 0)) None).

Definition coinbaseTx : Tx.t :=
  Tx.mk 1%N 300
    (<[3%N := coinbaseOutput]> (<[7%N := CoinbaseEntry exampleCoinbase]> ∅)) [].

Definition coinbaseBlock : Block.t :=
  Block.mk [coinbaseTx; Tx.mk 2%N 300 (Tx.Entries exampleTx) []].

Definition coinbaseVS : validationState := mkVS (Some coinbaseBlock) coinbaseTx 7%N 0 0.

(** A claim whose witness stack holds four elements, spending the output
    of the coinbase example. *)
Definition shortClaim : Claim.t :=
  Claim.mk (Some 3%N) (Some (ValueDestination.mk (Some 2%N) nativeValue 0))
    [Some [Byte.x35]; Some []; Some []; Some []].

Definition shortClaimVS : validationState := mkVS None coinbaseTx 8%N 0 0.

(** A five-element stack whose proof bundle carries the flags [[1; 0]], and
    the same stack with the flags [[7; 9]]. *)
Definition peginStack (flags : bytes) : list (option bytes) :=
  [Some [Byte.x35]; Some []; Some []; Some []; Some flags].

Definition peginPrevout : Output.t :=
  Output.mk (Some (ValueSource.mk (Some 7%N) nativeValue 0))
            (Some (Program.mk 1 [])).

(** A mux whose only source points at a delegate entry and carries 2^63
    units; and a mux with one destination and no source. *)
Definition hugeValue : option AssetAmount.t := Some (AssetAmount.mk (Some 7%N) (2 ^ 63)).

Definition dposMux : Mux.t :=
  Mux.mk [Some (ValueSource.mk (Some 9%N) hugeValue 0)] [].

Definition dposTx : Tx.t :=
  Tx.mk 1%N 300
    (<[2%N := MuxEntry dposMux]>
       (<[9%N := DposEntry (Dpos.mk (Some (ValueDestination.mk (Some 2%N) hugeValue 0)))]> ∅))
    [].

Definition dposVS : validationState := mkVS None dposTx 2%N 0 0.

Definition sourcelessMux : Mux.t :=
  Mux.mk [] [Some (ValueDestination.mk (Some 3%N) exampleValue 0)].

(** The ranks of the ids of the example graph: header, output, mux,
    issuance, from the root down. *)
Definition exampleRank (id : Hash) : nat :=
  match id with
  | 1%N => 3%nat
  | 3%N => 2%nat
  | 2%N => 1%nat
  | _ => 0%nat
  end.

(** The context in which the output of the example is visited, and its
    source. *)
Definition outputVS : validationState := mkVS None exampleTx 3%N 0 0.

Definition outputSource : ValueSource.t :=
  ValueSource.mk (Some 2%N) exampleValue 0.

(** Stand-ins for the keys: a public key is its private key, its text form
    its bytes, a signature the key followed by the data. *)
Definition exampleSignEnv : mainchain.SignEnv := {|
  mainchain.Template := unit;
  mainchain.XPub_String := fun b => String.string_of_list_ascii (map Ascii.ascii_of_byte b);
  mainchain.XPrv_XPub := fun b => b;
  mainchain.XPrv_Sign := fun k d => k ++ d;
  mainchain.Template_Hash := fun _ _ => [Byte.x2a];
|}.

(** ** Further examples *)

(** The recognizer of the examples: a program is of segregated-witness form
    when it is not empty. *)
Definition exampleSegwit : Segwit := {|
  IsP2WScript := fun code => bool_decide (code <> []);
|}.

(** The example graph as a transaction of version 1 and size 300 with the
    output as its only result, in a block of version 1 and height 0. *)
Definition exampleTxHeader : bc.TxHeader.t :=
  bc.NewTxHeader 1 300 None 0 [Some 3%N] false.

Definition exampleBcTx : bc.Tx.t :=
  bc.Tx.mk (Some exampleTxHeader) 1%N 1%N (Tx.Entries exampleTx) [].

Definition exampleBcBlock : bc.Block.t :=
  bc.Block.mk (Some (bc.BlockHeader.mk 1 0)) [exampleBcTx].

(** A transaction whose only gas input spends an output with an empty
    control program; and the example transaction with serialized size 0. *)
Definition nonStandardTx : bc.Tx.t :=
  bc.Tx.mk (Some exampleTxHeader) 1%N 1%N
    (<[6%N := SpendEntry (Spend.mk (Some 3%N) None [])]>
       (<[3%N := OutputEntry peginPrevout]> ∅))
    [6%N].

Definition emptySizeTx : bc.Tx.t :=
  bc.Tx.mk (Some (bc.NewTxHeader 1 0 None 0 [Some 3%N] false)) 1%N 1%N
    (Tx.Entries exampleTx) [].

(** The issuance of the example graph and the context of its visit. *)
Definition issuance7 : Issuance.t :=
  Issuance.mk exampleValue
    (Some (ValueDestination.mk (Some 2%N) exampleValue 0))
    (Some (AssetDefinition.mk None None)) [].

Definition issuanceVS : validationState := mkVS None exampleTx 5%N 0 0.

(** A spend of an output of 5 units of the native asset that declares 5
    units of asset 7 as its destination value. *)
Definition greedySpend : Spend.t :=
  Spend.mk (Some 3%N) (Some (ValueDestination.mk (Some 2%N) exampleValue 0)) [].

Definition spendTx : Tx.t :=
  Tx.mk 1%N 300
    (<[3%N := OutputEntry peginPrevout]> (<[6%N := SpendEntry greedySpend]> ∅)) [].

Definition spendVS : validationState := mkVS None spendTx 6%N 0 0.

(** A claim on the same output with a five-element stack, paid into a mux. *)
Definition fullClaim : Claim.t :=
  Claim.mk (Some 3%N) (Some (ValueDestination.mk (Some 2%N) nativeValue 0))
    (peginStack [Byte.x01; Byte.x00]).

Definition claimTx : Tx.t :=
  Tx.mk 1%N 300
    (<[3%N := OutputEntry peginPrevout]>
       (<[8%N := ClaimEntry fullClaim]>
          (<[2%N := MuxEntry (Mux.mk [Some (ValueSource.mk (Some 8%N) nativeValue 0)] [])]>
             ∅))) [].

Definition claimVS : validationState := mkVS None claimTx 8%N 0 0.

(** An output whose source sits at position 1. *)
Definition farPrevout : Output.t :=
  Output.mk (Some (ValueSource.mk (Some 7%N) nativeValue 1))
            (Some (Program.mk 1 [])).

(** Stand-ins for the collaborators of the builder actions: the builder is
    the list of the outputs added so far, the zero asset id is 0 (and the nil
    pointer), the addresses p, s and x decode to the three address types. *)
Definition exampleBuildEnv : txbuilder.BuildEnv := {|
  txbuilder.TemplateBuilder := list (AssetID * Z * bytes);
  txbuilder.TxOutput := AssetID * Z * bytes;
  txbuilder.AssetId_IsZero := fun a => bool_decide (a = None \/ a = Some 0%N);
  txbuilder.DecodeAddress := fun s =>
    if bool_decide (s = "p"%string)
    then inr (txbuilder.AddressWitnessPubKeyHash [Byte.x01])
    else if bool_decide (s = "s"%string)
    then inr (txbuilder.AddressWitnessScriptHash [Byte.x02])
    else if bool_decide (s = "x"%string)
    then inr (txbuilder.AddressOther [Byte.x03])
    else inl (txbuilder.ErrCollaborator 1);
  txbuilder.P2WPKHProgram := fun b => inr (Byte.x00 :: b);
  txbuilder.P2WSHProgram := fun b => inr (Byte.x00 :: b);
  txbuilder.RetireProgram := fun b => inr (Byte.x6a :: b);
  txbuilder.NewTxOutput := fun a n p => (a, n, p);
  txbuilder.AddOutput := fun b o => (None, b ++ [o]);
|}.

(** * Theorems *)

(** ** Checked arithmetic *)

Lemma in_int64_true z : in_int64 z = true <-> is_int64 z.
Proof. unfold in_int64, is_int64. rewrite andb_true_iff, !Z.leb_le. tauto. Qed.

Lemma in_int64_false z : in_int64 z = false <-> ~ is_int64 z.
Proof. rewrite <- in_int64_true. destruct (in_int64 z); split; congruence. Qed.

Lemma exact_ok z : is_int64 z -> checked.exact z = (z, true).
Proof. intros Hz. unfold checked.exact. apply in_int64_true in Hz. by rewrite Hz. Qed.

Lemma exact_overflow z : ~ is_int64 z -> checked.exact z = (0, false).
Proof. intros Hz. unfold checked.exact. apply in_int64_false in Hz. by rewrite Hz. Qed.

Lemma exact_true z r : checked.exact z = (r, true) -> r = z /\ is_int64 z.
Proof.
  unfold checked.exact. destruct (in_int64 z) eqn:E; intros [= <-].
  split; [done | by apply in_int64_true].
Qed.

Lemma wrap64_id z : is_int64 z -> wrap64 z = z.
Proof.
  unfold is_int64, MinInt64, MaxInt64, wrap64. intros Hz.
  rewrite Z.mod_small; lia.
Qed.

(** ** Gas meter *)

(** C4.  [setGas] rejects a negative amount with the gas-calculation error;
    otherwise [gas_left] is the amount divided by the gas rate (checked),
    clamped to the ceiling, [storage_gas] is the size times the storage rate
    (checked), and a failed division or multiplication is the
    gas-calculation error; at rate 100, one hundred million yields one
    million when the ceiling allows it. *)
Theorem setGas_spec `{Consensus} (g : GasState) (btm txSize : Z) :
  (btm < 0 -> setGas g btm txSize = (Some ErrGasCalculate, g)) /\
  (0 <= btm -> VMGasRate <> 0 -> is_int64 (btm ÷ VMGasRate) ->
   is_int64 (txSize * StorageGasRate) ->
   checked.DivInt64 btm VMGasRate = (btm ÷ VMGasRate, true) /\
   checked.MulInt64 txSize StorageGasRate = (txSize * StorageGasRate, true) /\
   setGas g btm txSize =
     (None, mkGasState (to_uint64 btm) (Z.min (btm ÷ VMGasRate) MaxGasAmount)
              (GasUsed g) (GasValid g) (txSize * StorageGasRate))) /\
  (0 <= btm ->
   snd (checked.DivInt64 btm VMGasRate) = false
   \/ snd (checked.MulInt64 txSize StorageGasRate) = false ->
   fst (setGas g btm txSize) = Some ErrGasCalculate) /\
  (VMGasRate = 100 -> 1000000 <= MaxGasAmount ->
   GasLeft (snd (setGas g 100000000 txSize)) = 1000000).
Proof.
  split; [|split; [|split]].
  - intros Hneg. unfold setGas. by apply Z.ltb_lt in Hneg as ->.
  - intros Hpos Hrate Hq Hp.
    assert (Hdiv : checked.DivInt64 btm VMGasRate = (btm ÷ VMGasRate, true)).
    { unfold checked.DivInt64. apply Z.eqb_neq in Hrate as ->. by apply exact_ok. }
    assert (Hmul : checked.MulInt64 txSize StorageGasRate
                   = (txSize * StorageGasRate, true)) by by apply exact_ok.
    split; [done|]. split; [done|].
    unfold setGas. apply Z.ltb_ge in Hpos as ->. rewrite Hdiv, Hmul. simpl.
    destruct (Z.gtb_spec (btm ÷ VMGasRate) MaxGasAmount) as [Hgt|Hle]; simpl;
      unfold setStorageGas, setGasLeft, setBTMValue; simpl.
    + by rewrite Z.min_r by lia.
    + by rewrite Z.min_l by lia.
  - intros Hpos Hfail. unfold setGas. apply Z.ltb_ge in Hpos as ->.
    destruct (checked.DivInt64 btm VMGasRate) as [q [|]] eqn:Ediv; simpl in *;
      [|done].
    destruct (checked.MulInt64 txSize StorageGasRate) as [p [|]] eqn:Emul;
      simpl in *; [|done].
    by destruct Hfail.
  - intros Hrate Hmax. unfold setGas. simpl.
    unfold checked.DivInt64. rewrite Hrate. simpl.
    change (100000000 ÷ 100) with 1000000.
    destruct (Z.gtb_spec 1000000 MaxGasAmount) as [Hgt|Hle]; [lia|].
    by destruct (checked.MulInt64 txSize StorageGasRate) as [p [|]].
Qed.

Lemma setGas_spec_witness :
  setGas (H := rate100Params) (mkGasState 0 0 0 false 0) (-1) 300
    = (Some ErrGasCalculate, mkGasState 0 0 0 false 0)
  /\ setGas (H := rate100Params) (mkGasState 0 0 0 false 0) 100000000 300
     = (None, mkGasState 100000000 1000000 0 false 300)
  /\ setGas (H := exampleParams) (mkGasState 0 0 0 false 0) 4000000000 300
     = (None, mkGasState 4000000000 200000 0 false 300).
Proof.
  split; [|split].
  - apply (proj1 (setGas_spec (H := rate100Params) (mkGasState 0 0 0 false 0) (-1) 300)).
    lia.
  - apply (proj1 (proj2 (setGas_spec (H := rate100Params)
                           (mkGasState 0 0 0 false 0) 100000000 300)));
      vm_compute; try split; congruence.
  - apply (proj1 (proj2 (setGas_spec (H := exampleParams)
                           (mkGasState 0 0 0 false 0) 4000000000 300)));
      vm_compute; try split; congruence.
Defined.

Ltac gas_cases :=
  split_and?; simpl in *; try done; try lia; auto;
  try (split; intros;
       repeat match goal with
              | H : _ /\ _ |- _ => destruct H
              | H : _ \/ _ |- _ => destruct H
              end;
       simpl in *; split_and?; auto; (done || lia)).

(** C5.  [updateUsage] rejects a negative argument with the gas-calculation
    error, as it does a difference that is not representable; otherwise it
    adds the difference to [gas_used] and sets [gas_left], and it returns the
    over-credit error exactly when [gas_valid] is false and [gas_used] is
    above the free credit or [storage_gas] above the new [gas_left]. *)
Theorem updateUsage_spec `{Consensus} (g : GasState) (gasLeft : Z) :
  (gasLeft < 0 -> updateUsage g gasLeft = (Some ErrGasCalculate, g)) /\
  (0 <= gasLeft -> ~ is_int64 (GasLeft g - gasLeft) ->
   updateUsage g gasLeft = (Some ErrGasCalculate, g)) /\
  (0 <= gasLeft -> is_int64 (GasLeft g - gasLeft) ->
   checked.SubInt64 (GasLeft g) gasLeft = (GasLeft g - gasLeft, true) /\
   snd (updateUsage g gasLeft) = usageUpdated g gasLeft /\
   (fst (updateUsage g gasLeft) = None
    \/ fst (updateUsage g gasLeft) = Some ErrOverGasCredit)) /\
  (fst (updateUsage g gasLeft) = Some ErrOverGasCredit <->
   0 <= gasLeft /\ is_int64 (GasLeft g - gasLeft) /\ GasValid g = false /\
   (GasUsed (usageUpdated g gasLeft) > DefaultGasCredit \/ StorageGas g > gasLeft)).
Proof.
  unfold updateUsage, checked.SubInt64.
  destruct (Z.ltb_spec gasLeft 0) as [Hneg|Hpos]; [gas_cases|].
  destruct (decide (is_int64 (GasLeft g - gasLeft))) as [Hin|Hout];
    [rewrite exact_ok by done | rewrite exact_overflow by done; gas_cases].
  simpl. fold (usageUpdated g gasLeft).
  destruct (GasValid g) eqn:Evalid; simpl; [gas_cases|].
  destruct (Z.gtb_spec (wrap64 (GasUsed g + (GasLeft g - gasLeft))) DefaultGasCredit)
    as [Hcredit|Hcredit]; simpl; [gas_cases|].
  destruct (Z.gtb_spec (StorageGas g) gasLeft) as [Hst|Hst]; simpl; gas_cases.
Qed.

Lemma updateUsage_spec_witness :
  updateUsage (H := exampleParams) (mkGasState 0 100 0 false 10) (-1)
    = (Some ErrGasCalculate, mkGasState 0 100 0 false 10)
  /\ snd (updateUsage (H := exampleParams) (mkGasState 0 100 0 false 10) 40)
     = mkGasState 0 40 60 false 10
  /\ fst (updateUsage (H := exampleParams) (mkGasState 0 100 0 false 50) 40)
     = Some ErrOverGasCredit.
Proof.
  split; [|split].
  - apply (proj1 (updateUsage_spec (H := exampleParams) (mkGasState 0 100 0 false 10) (-1))).
    lia.
  - apply (proj1 (proj2 (proj2 (updateUsage_spec (H := exampleParams)
                                  (mkGasState 0 100 0 false 10) 40))));
      vm_compute; try split; congruence.
  - apply (proj2 (proj2 (proj2 (updateUsage_spec (H := exampleParams)
                                  (mkGasState 0 100 0 false 50) 40)))).
    vm_compute. repeat split; try congruence. right. reflexivity.
Defined.

(** ** Raw transaction signature witness *)

Section sign.
Import mainchain.
Context `{SignEnv}.

Lemma padSigs_app (sw : RawTxSigWitness) :
  padSigs sw = Sigs sw ++ replicate (length (Keys sw) - length (Sigs sw)) [].
Proof.
  unfold padSigs. destruct (Nat.ltb_spec (length (Sigs sw)) (length (Keys sw))); [done|].
  replace (length (Keys sw) - length (Sigs sw))%nat with 0%nat by lia.
  by rewrite app_nil_r.
Qed.

Lemma padSigs_length (sw : RawTxSigWitness) :
  (length (Keys sw) <= length (padSigs sw))%nat.
Proof. rewrite padSigs_app, length_app, length_replicate. lia. Qed.

(** The loop from index [i] on, the first [i] slots having been passed over. *)
Lemma signLoop_spec tpl index xprv (keys pre : list keyID) (sigs : list bytes) :
  (length (pre ++ keys) <= length sigs)%nat ->
  (forall j, (j < length pre)%nat -> ~ signable xprv (pre ++ keys) sigs j) ->
  (signLoop tpl index xprv (length pre) keys sigs = Val sigs
   /\ forall j, ~ signable xprv (pre ++ keys) sigs j)
  \/ (exists i, signable xprv (pre ++ keys) sigs i
      /\ (forall j, (j < i)%nat -> ~ signable xprv (pre ++ keys) sigs j)
      /\ signLoop tpl index xprv (length pre) keys sigs
         = Val (<[i := XPrv_Sign xprv (Template_Hash tpl index)]> sigs)).
Proof.
  revert pre. induction keys as [|k keys IH]; intros pre Hlen Hbefore.
  - left. split; [done|]. intros j Hs.
    destruct (decide (j < length pre)%nat) as [Hj|Hj]; [by apply (Hbefore j Hj)|].
    destruct Hs as (k & sig & Hk & _).
    rewrite app_nil_r in Hk. apply lookup_lt_Some in Hk. lia.
  - simpl.
    assert (Hk : (pre ++ k :: keys) !! length pre = Some k).
    { by rewrite lookup_app_r, Nat.sub_diag by lia. }
    destruct (sigs !! length pre) as [sig|] eqn:Esig.
    2: { apply lookup_ge_None in Esig. rewrite length_app in Hlen. simpl in Hlen. lia. }
    assert (Hnext : ~ signable xprv (pre ++ k :: keys) sigs (length pre) ->
      (signLoop tpl index xprv (S (length pre)) keys sigs = Val sigs
       /\ forall j, ~ signable xprv (pre ++ k :: keys) sigs j)
      \/ (exists i, signable xprv (pre ++ k :: keys) sigs i
          /\ (forall j, (j < i)%nat -> ~ signable xprv (pre ++ k :: keys) sigs j)
          /\ signLoop tpl index xprv (S (length pre)) keys sigs
             = Val (<[i := XPrv_Sign xprv (Template_Hash tpl index)]> sigs))).
    { intros Hhere.
      specialize (IH (pre ++ [k])).
      rewrite <- !(assoc_L (++)) in IH. simpl in IH.
      assert (Hl : length (pre ++ [k]) = S (length pre)).
      { rewrite length_app. simpl. lia. }
      rewrite Hl in IH.
      apply IH.
      - rewrite length_app in *. simpl in *. lia.
      - intros j Hj. destruct (decide (j = length pre)) as [->|Hne]; [done|].
        apply Hbefore. lia. }
    destruct (Nat.ltb_spec 0 (length sig)) as [Hfull|Hempty].
    { apply Hnext. intros (k' & sig' & _ & Hs & Hl & _). simplify_eq. lia. }
    destruct (decide (XPub_String (XPub k) = XPub_String (XPrv_XPub xprv)))
      as [Heq|Hne].
    + rewrite bool_decide_eq_true_2 by done. simpl.
      right. exists (length pre). split; [|split; [done|done]].
      exists k, sig. split_and!; [done|done|lia|done].
    + rewrite bool_decide_eq_false_2 by done. simpl.
      apply Hnext. intros (k' & sig' & Hk' & _ & _ & Hs). simplify_eq.
Qed.

End sign.

(** C10.  [Sign] returns nil; [Keys] and [Quorum] are unchanged; [Sigs] is
    padded with empty slots up to the number of keys, and then either left
    as it is (no slot is empty with a matching key) or changed in exactly
    the first slot that is empty and whose key has the text form of the
    signing key's public key; where that text form is injective the key
    equals the public key. *)
Theorem Sign_frame `{mainchain.SignEnv} (sw : mainchain.RawTxSigWitness)
    (tpl : mainchain.Template) (index : Z) (xprv : bytes) :
  exists sw',
    mainchain.Sign sw tpl index xprv = Val (None, sw')
    /\ mainchain.Quorum sw' = mainchain.Quorum sw
    /\ mainchain.Keys sw' = mainchain.Keys sw
    /\ mainchain.padSigs sw
       = mainchain.Sigs sw
         ++ replicate (length (mainchain.Keys sw) - length (mainchain.Sigs sw)) []
    /\ ((mainchain.Sigs sw' = mainchain.padSigs sw
         /\ forall j, ~ signable xprv (mainchain.Keys sw) (mainchain.padSigs sw) j)
        \/ exists i,
            signable xprv (mainchain.Keys sw) (mainchain.padSigs sw) i
            /\ (forall j, (j < i)%nat ->
                 ~ signable xprv (mainchain.Keys sw) (mainchain.padSigs sw) j)
            /\ mainchain.Sigs sw'
               = <[i := mainchain.XPrv_Sign xprv (mainchain.Template_Hash tpl index)]>
                   (mainchain.padSigs sw)
            /\ (forall j, j <> i ->
                 mainchain.Sigs sw' !! j = mainchain.padSigs sw !! j)
            /\ ((forall a b, mainchain.XPub_String a = mainchain.XPub_String b -> a = b) ->
                exists k, mainchain.Keys sw !! i = Some k
                          /\ mainchain.XPub k = mainchain.XPrv_XPub xprv)).
Proof.
  unfold mainchain.Sign.
  destruct (signLoop_spec tpl index xprv (mainchain.Keys sw) [] (mainchain.padSigs sw))
    as [[Hrun Hnone]|(i & Hi & Hfirst & Hrun)].
  - apply padSigs_length.
  - simpl. lia.
  - simpl in *. rewrite Hrun. simpl. eexists. split; [done|].
    split_and!; [done|done|apply padSigs_app|]. left. by split.
  - simpl in *. rewrite Hrun. simpl. eexists. split; [done|].
    split_and!; [done|done|apply padSigs_app|]. right. exists i.
    split_and!; [done|done|done| |].
    + intros j Hj. simpl. by rewrite list_lookup_insert_ne.
    + intros Hinj. destruct Hi as (k & sig & Hk & _ & _ & Hs).
      exists k. split; [done|]. by apply Hinj.
Qed.

Lemma Sign_frame_witness :
  mainchain.Sign (H := exampleSignEnv)
    (mainchain.mkRawTxSigWitness 1
       [mainchain.mkKeyID [Byte.x01] []; mainchain.mkKeyID [Byte.x02] [];
        mainchain.mkKeyID [Byte.x02] []]
       [[Byte.x09]]) tt 0 [Byte.x02]
  = Val (None,
         mainchain.mkRawTxSigWitness 1
           [mainchain.mkKeyID [Byte.x01] []; mainchain.mkKeyID [Byte.x02] [];
            mainchain.mkKeyID [Byte.x02] []]
           [[Byte.x09]; [Byte.x02; Byte.x2a]; []]).
Proof.
  destruct (Sign_frame (H := exampleSignEnv)
    (mainchain.mkRawTxSigWitness 1
       [mainchain.mkKeyID [Byte.x01] []; mainchain.mkKeyID [Byte.x02] [];
        mainchain.mkKeyID [Byte.x02] []]
       [[Byte.x09]]) tt 0 [Byte.x02]) as (sw' & Hrun & _).
  rewrite Hrun. vm_compute in Hrun. by injection Hrun as <-.
Defined.

(** ** Graph validator: the cache and the type switch *)

Section validator.
Context `{Consensus} `{Collaborators} `{PeginEnv}.

Lemma checkValid_cached fuel vs e s err :
  cache s !! entryIDOf e = Some err ->
  checkValid (S fuel) vs e s = (errorOf err, s).
Proof. intros Hc. simpl. by rewrite Hc. Qed.

Lemma checkValid_fresh fuel vs e s :
  cache s !! entryIDOf e = None ->
  checkValid (S fuel) vs e s
  = deferred (entryIDOf e)
      (checkEntry (checkValid fuel) vs e
         (withVisited (entryIDOf e :: visited s) s)).
Proof. intros Hc. simpl. by rewrite Hc. Qed.

Lemma coinbaseMisplaced_false vs :
  coinbaseMisplaced vs = false <->
  exists b first rest,
    block vs = Some b /\ Block.Transactions b = first :: rest
    /\ Tx.Addr first = Tx.Addr (tx vs).
Proof.
  unfold coinbaseMisplaced. split.
  - destruct (block vs) as [b|]; [|done].
    destruct (Block.Transactions b) as [|first rest] eqn:Etx; [done|].
    intros Hneg%negb_false_iff%N.eqb_eq. by exists b, first, rest.
  - intros (b & first & rest & -> & -> & Haddr).
    apply negb_false_iff. by apply N.eqb_eq.
Qed.

End validator.

(** ** Coinbase *)

Section coinbase.
Context `{Consensus} `{Collaborators} `{PeginEnv}.

(** C6, as the code has it.  On a coinbase entry not yet in the cache,
    [checkValid] first requires the transaction to be the first one of the
    enclosing block, whatever follows it ([ErrWrongCoinbaseTransaction]
    otherwise), then the destination asset to be the native asset
    ([ErrWrongCoinbaseAsset]), then the arbitrary payload to be within the
    limit ([ErrCoinbaseArbitraryOversize]), then validates the destination
    edge, and then sets [GasValid] to true whatever the gas state was; the
    outcome is recorded in the cache. *)
Theorem coinbase_rule (fuel : nat) (vs : validationState) (e : Coinbase.t)
    (s : Shared) (dest : ValueDestination.t) (value : AssetAmount.t)
    (assetId : AssetID) :
  let id := EntryID (CoinbaseEntry e) in
  let run := checkValid (S fuel) vs (Some (CoinbaseEntry e)) s in
  let failed err :=
    (Raise err, mkShared (gasStatus s) (<[id := Some err]> (cache s))
                         (id :: visited s)) in
  cache s !! id = None ->
  Coinbase.WitnessDestination e = Some dest ->
  ValueDestination.Value dest = Some value ->
  AssetAmount.AssetId value = Some assetId ->
  (coinbaseMisplaced vs = false <->
   exists b first rest,
     block vs = Some b /\ Block.Transactions b = first :: rest
     /\ Tx.Addr first = Tx.Addr (tx vs)) /\
  (coinbaseMisplaced vs = true -> run = failed ErrWrongCoinbaseTransaction) /\
  (coinbaseMisplaced vs = false ->
   (assetId <> BTMAssetID -> run = failed ErrWrongCoinbaseAsset) /\
   (assetId = BTMAssetID ->
    (forall a, Coinbase.Arbitrary e = Some a ->
               Z.of_nat (length a) > CoinbaseArbitrarySizeLimit ->
               run = failed ErrCoinbaseArbitraryOversize) /\
    ((Coinbase.Arbitrary e = None
      \/ exists a, Coinbase.Arbitrary e = Some a
                   /\ Z.of_nat (length a) <= CoinbaseArbitrarySizeLimit) ->
     (forall err, checkValidDest (withDestPos 0 vs) (Some dest) = Raise err ->
                  run = failed err) /\
     (checkValidDest (withDestPos 0 vs) (Some dest) = Val tt ->
      run = (Val tt, mkShared (setGasValidFlag true (gasStatus s))
                              (<[id := None]> (cache s)) (id :: visited s)))))).
Proof.
  intros id run failed Hfresh Hdest Hvalue Hasset.
  split; [apply coinbaseMisplaced_false|].
  subst run. rewrite checkValid_fresh by done.
  unfold checkEntry, bindM, liftR. rewrite Hdest. simpl. rewrite Hvalue. simpl.
  rewrite Hasset. simpl.
  split; [by intros ->|]. intros ->. simpl.
  split; [intros Hne; by rewrite bool_decide_eq_false_2|].
  intros Heq. rewrite bool_decide_eq_true_2 by done. simpl.
  split.
  - intros a Ha Hlen. rewrite Ha.
    destruct (Z.gtb_spec (Z.of_nat (length a)) CoinbaseArbitrarySizeLimit); [done|lia].
  - intros Harb.
    assert (Hok : match Coinbase.Arbitrary e with
                  | Some a => Z.of_nat (length a) >? CoinbaseArbitrarySizeLimit
                  | None => false
                  end = false).
    { destruct Harb as [->|(a & -> & Hlen)]; [done|].
      destruct (Z.gtb_spec (Z.of_nat (length a)) CoinbaseArbitrarySizeLimit); [lia|done]. }
    rewrite Hok. simpl.
    split; [intros err ->; done | intros ->; done].
Qed.

End coinbase.

Lemma coinbase_rule_witness :
  checkValid (H := exampleParams) (H0 := exampleCollaborators) (H1 := examplePeginEnv)
    1 coinbaseVS (Some (CoinbaseEntry exampleCoinbase)) newStore
  = (Val tt, mkShared (mkGasState 0 0 0 true 0) (<[7%N := None]> ∅) [7%N]).
Proof.
  pose proof (coinbase_rule (H := exampleParams) (H0 := exampleCollaborators)
                (H1 := examplePeginEnv) 0 coinbaseVS exampleCoinbase newStore
                (ValueDestination.mk (Some 3%N) nativeValue 0)
                (AssetAmount.mk (Some 1%N) 5) 1%N
                eq_refl eq_refl eq_refl eq_refl)
    as (_ & _ & Hrun).
  destruct (Hrun eq_refl) as (_ & Hnative).
  destruct (Hnative eq_refl) as (_ & Hsmall).
  destruct (Hsmall (or_introl eq_refl)) as (_ & Hok).
  exact (Hok eq_refl).
Defined.

(** C6 as stated fails: the coinbase transaction below is the first of a
    block of two transactions, hence not the sole one, and its coinbase
    entry is accepted. *)
Lemma coinbase_not_sole_counterexample :
  length (Block.Transactions coinbaseBlock) = 2%nat
  /\ block coinbaseVS = Some coinbaseBlock
  /\ fst (checkValid (H := exampleParams) (H0 := exampleCollaborators)
            (H1 := examplePeginEnv)
            1 coinbaseVS (Some (CoinbaseEntry exampleCoinbase)) newStore)
     = Val tt.
Proof. by vm_compute. Qed.

(** ** Peg-in claims *)

Lemma IsValidPeginWitness_short `{PeginEnv} (stack : list (option bytes))
    (prevout : Output.t) :
  Z.of_nat (length stack) <> 5 ->
  IsValidPeginWitness stack prevout
  = (source <- deref (Output.Source prevout) ;;
     _ <- deref (ValueSource.Value source) ;;
     _ <- deref (Output.ControlProgram prevout) ;;
     Raise ErrPeginWitnessLength)%res.
Proof.
  intros Hlen. unfold IsValidPeginWitness.
  destruct (Output.Source prevout) as [source|]; [simpl|done].
  destruct (ValueSource.Value source); [simpl|done].
  destruct (Output.ControlProgram prevout); [simpl|done].
  by apply Z.eqb_neq in Hlen as ->.
Qed.

(** C8.  [IsValidPeginWitness] requires exactly five stack elements: a stack
    of any other length is rejected with the same outcome whatever the
    parsers and the merkle check are (so before they are consulted), and the
    dispatcher's [Claim] case reaches the verifier only once the spent
    output is resolved and past its own guard: with fewer than five
    elements, a nil second element or a spent output without source it
    returns "pegin-no-witness" itself; past the guard the verifier's error
    is the outcome. *)
Theorem pegin_stack_length `{Consensus} `{Collaborators} (P P' : PeginEnv)
    (fuel : nat) (vs : validationState) (e : Claim.t) (s : Shared)
    (stack : list (option bytes)) (prevout : Output.t)
    (spentOutputId : Hash) (spentOutput : Output.t) :
  let id := EntryID (ClaimEntry e) in
  let run := checkValid (H1 := P) (S fuel) vs (Some (ClaimEntry e)) s in
  let failed err :=
    (Raise err, mkShared (gasStatus s) (<[id := Some err]> (cache s))
                         (id :: visited s)) in
  (Z.of_nat (length stack) <> 5 ->
   IsValidPeginWitness (H := P) stack prevout
   = IsValidPeginWitness (H := P') stack prevout
   /\ (IsValidPeginWitness (H := P) stack prevout = Raise ErrPeginWitnessLength
       \/ IsValidPeginWitness (H := P) stack prevout = Panic)
   /\ (forall source value prog,
         Output.Source prevout = Some source ->
         ValueSource.Value source = Some value ->
         Output.ControlProgram prevout = Some prog ->
         IsValidPeginWitness (H := P) stack prevout = Raise ErrPeginWitnessLength)) /\
  (cache s !! id = None ->
   (Claim.SpentOutputId e = None -> run = failed ErrMissingField) /\
   (Claim.SpentOutputId e = Some spentOutputId ->
    (forall err, Tx_Output (tx vs) spentOutputId = Raise err -> run = failed err) /\
    (Tx_Output (tx vs) spentOutputId = Val spentOutput ->
     (claimGuardFails e spentOutput ->
      run = failed ErrPeginNoWitness
      /\ run = checkValid (H1 := P') (S fuel) vs (Some (ClaimEntry e)) s) /\
     (~ claimGuardFails e spentOutput ->
      5 <= Z.of_nat (length (Claim.Peginwitness e))
      /\ (exists w1, Claim.Peginwitness e !! 1%nat = Some (Some w1))
      /\ is_Some (Output.Source spentOutput)
      /\ (forall err,
            IsValidPeginWitness (H := P) (Claim.Peginwitness e) spentOutput
            = Raise err ->
            run = failed err))))).
Proof.
  intros id run failed. split.
  - intros Hlen. rewrite !IsValidPeginWitness_short by done.
    split; [done|]. split.
    + destruct (Output.Source prevout) as [source|]; simpl; [|by right].
      destruct (ValueSource.Value source); simpl; [|by right].
      destruct (Output.ControlProgram prevout); simpl; [by left|by right].
    + intros source value prog Hs Hv Hp.
      rewrite Hs. simpl. rewrite Hv. simpl. by rewrite Hp.
  - intros Hfresh. subst run.
    rewrite !checkValid_fresh by done.
    unfold checkEntry, bindM, liftR.
    split; [by intros ->|]. intros Hid. rewrite Hid. simpl.
    split; [by intros err ->|]. intros Hout. rewrite Hout. simpl.
    set (guard := (Z.of_nat (length (Claim.Peginwitness e)) <? 5)
                  || bool_decide (Claim.Peginwitness e !! 1%nat = Some None)
                  || bool_decide (Output.Source spentOutput = None)).
    assert (Hguard : guard = true <-> claimGuardFails e spentOutput).
    { unfold guard, claimGuardFails.
      rewrite !orb_true_iff, Z.ltb_lt, !bool_decide_eq_true. tauto. }
    split.
    + intros Hfail. apply Hguard in Hfail. by rewrite Hfail.
    + intros Hpass. assert (Hg : guard = false).
      { destruct guard; [|done]. exfalso. by apply Hpass, Hguard. }
      rewrite Hg. simpl. unfold claimGuardFails in Hpass.
      assert (Hlen : 5 <= Z.of_nat (length (Claim.Peginwitness e))) by lia.
      split_and!.
      * done.
      * destruct (Claim.Peginwitness e !! 1%nat) as [[w1|]|] eqn:Ew.
        -- by exists w1.
        -- exfalso. apply Hpass. by right; left.
        -- apply lookup_ge_None in Ew. lia.
      * destruct (Output.Source spentOutput); [done|].
        exfalso. apply Hpass. by right; right.
      * by intros err ->.
Qed.

Lemma pegin_stack_length_witness :
  IsValidPeginWitness (H := examplePeginEnv) (Claim.Peginwitness shortClaim) peginPrevout
    = Raise ErrPeginWitnessLength
  /\ fst (checkValid (H := exampleParams) (H0 := exampleCollaborators)
            (H1 := examplePeginEnv) 1 shortClaimVS (Some (ClaimEntry shortClaim))
            newStore)
     = Raise ErrPeginNoWitness.
Proof.
  pose proof (pegin_stack_length (H := exampleParams) (H0 := exampleCollaborators)
                examplePeginEnv examplePeginEnv 0 shortClaimVS shortClaim newStore
                (Claim.Peginwitness shortClaim) peginPrevout 3%N
                (Output.mk (Some (ValueSource.mk (Some 7%N) nativeValue 0)) None))
    as [Hshort Hcase].
  split.
  - destruct Hshort as (_ & _ & Hlen); [by vm_compute|].
    by eapply Hlen.
  - destruct (Hcase eq_refl) as [_ Hspent].
    destruct (Hspent eq_refl) as [_ Hfound].
    destruct (Hfound eq_refl) as [Hfail _].
    destruct Hfail as [-> _]; [left; by vm_compute | done].
Defined.

(** The flags handed to the merkle check are the indices of the proof's
    flags, not their values. *)
Lemma rangeFlags_indices (i : Z) (Flags : list Z) :
  rangeFlags i Flags
  = map (fun k => (i + Z.of_nat k) mod 2 ^ 8) (seq 0 (length Flags)).
Proof.
  revert i. induction Flags as [|flag rest IH]; intros i; [done|].
  simpl. rewrite Z.add_0_r. f_equal.
  rewrite IH, <- seq_shift, map_map.
  apply map_ext. intros k. f_equal. lia.
Qed.

Lemma rangeFlags_length_only (i : Z) (Flags Flags' : list Z) :
  length Flags = length Flags' -> rangeFlags i Flags = rangeFlags i Flags'.
Proof. intros Hlen. by rewrite !rangeFlags_indices, Hlen. Qed.

(** C7, what the code does: the values of the proof's per-leaf flags never
    reach the merkle check.  Two witness stacks that differ only in the flag
    values of their proof bundles (same number of flags) get the same
    verdict. *)
Theorem merkle_flags_ignored `{PeginEnv} (w0 w1 w2 w3 w4 w4' : option bytes)
    (prevout : Output.t) (mb : MerkleBlock.t) (flags' : list Z) :
  json_Unmarshal (sliceOf w4) = inr mb ->
  json_Unmarshal (sliceOf w4')
  = inr (MerkleBlock.mk (MerkleBlock.BlockHeader mb) (MerkleBlock.TxHashes mb)
           (MerkleBlock.StatusHashes mb) flags' (MerkleBlock.MatchedTxIDs mb)) ->
  length flags' = length (MerkleBlock.Flags mb) ->
  rangeFlags 0 flags'
  = map (fun k => Z.of_nat k mod 2 ^ 8) (seq 0 (length (MerkleBlock.Flags mb)))
  /\ IsValidPeginWitness [w0; w1; w2; w3; w4'] prevout
     = IsValidPeginWitness [w0; w1; w2; w3; w4] prevout.
Proof.
  intros Hmb Hmb' Hlen. split.
  { by rewrite rangeFlags_indices, Hlen. }
  unfold IsValidPeginWitness. simpl.
  rewrite Hmb, Hmb'. simpl.
  by rewrite (rangeFlags_length_only 0 flags' (MerkleBlock.Flags mb)).
Qed.

Lemma merkle_flags_ignored_witness :
  MerkleBlock.Flags
    (MerkleBlock.mk [] [] [] [7; 9] []) = [7; 9]
  /\ rangeFlags 0 [7; 9] = [0; 1]
  /\ IsValidPeginWitness (H := examplePeginEnv)
       (peginStack [Byte.x07; Byte.x09]) peginPrevout
     = IsValidPeginWitness (H := examplePeginEnv)
         (peginStack [Byte.x01; Byte.x00]) peginPrevout
  /\ IsValidPeginWitness (H := examplePeginEnv)
       (peginStack [Byte.x07; Byte.x09]) peginPrevout = Val tt.
Proof.
  destruct (merkle_flags_ignored (H := examplePeginEnv)
              (Some [Byte.x35]) (Some []) (Some []) (Some [])
              (Some [Byte.x01; Byte.x00]) (Some [Byte.x07; Byte.x09])
              peginPrevout (MerkleBlock.mk [] [] [] [1; 0] []) [7; 9]
              eq_refl eq_refl eq_refl) as [Hflags Hsame].
  split; [done|]. split; [exact Hflags|]. split; [exact Hsame|].
  by vm_compute.
Defined.

(** ** Mux: the asset-sum pass *)

Lemma to_int64_amount n : 0 <= n -> n <= MaxInt64 -> to_int64 n = n.
Proof.
  intros Hpos Hmax. apply wrap64_id. unfold is_int64, MinInt64, MaxInt64 in *. lia.
Qed.

Lemma foldRange_app {A S} (f : S -> A -> res S) (acc : S) (l1 l2 : list A) :
  foldRange f acc (l1 ++ l2)
  = (acc' <- foldRange f acc l1 ;; foldRange f acc' l2)%res.
Proof.
  revert acc. induction l1 as [|x l1 IH]; intros acc; [done|].
  simpl. destruct (f acc x); simpl; auto.
Qed.

(** One round over a source that goes on: the source is skipped (not
    counted), or its amount is within [int64] and is added, checked, to the
    entry of its asset. *)
Lemma muxAddSource_Val t parity src parity' :
  muxAddSource t parity src = Val parity' ->
  (countedSource t src = None /\ parity' = parity)
  \/ exists a n,
       countedSource t src = Some (a, n) /\ n <= MaxInt64
       /\ is_int64 (default 0 (parity !! a) + to_int64 n)
       /\ parity' = <[a := default 0 (parity !! a) + to_int64 n]> parity.
Proof.
  unfold muxAddSource, countedSource.
  destruct src as [s|]; [simpl|done].
  destruct (ValueSource.Ref s) as [ref|]; [simpl|done].
  destruct (Tx.Entries t !! ref) as [e|]; [simpl|done].
  assert (Hcounted :
    (value <- deref (ValueSource.Value s) ;;
     failIf (AssetAmount.Amount value >? MaxInt64) ErrOverflow ;;
     assetId <- deref (AssetAmount.AssetId value) ;;
     let '(sum, ok) :=
       checked.AddInt64 (default 0 (parity !! assetId))
                        (to_int64 (AssetAmount.Amount value)) in
     failIf (negb ok) ErrOverflow ;;
     Val (<[assetId := sum]> parity))%res = Val parity' ->
    exists a n,
      match ValueSource.Value s with
      | Some v => match AssetAmount.AssetId v with
                  | Some a => Some (a, AssetAmount.Amount v)
                  | None => None
                  end
      | None => None
      end = Some (a, n) /\ n <= MaxInt64
      /\ is_int64 (default 0 (parity !! a) + to_int64 n)
      /\ parity' = <[a := default 0 (parity !! a) + to_int64 n]> parity).
  { destruct (ValueSource.Value s) as [v|]; [simpl|done].
    destruct (Z.gtb_spec (AssetAmount.Amount v) MaxInt64) as [Hbig|Hsmall]; [done|simpl].
    destruct (AssetAmount.AssetId v) as [a|]; [simpl|done].
    unfold checked.AddInt64.
    destruct (checked.exact _) as [sum [|]] eqn:Esum; [simpl|done].
    apply exact_true in Esum as [-> Hin]. intros [= <-].
    by exists a, (AssetAmount.Amount v). }
  destruct e; try (intros Hrun; right; by apply Hcounted).
  intros [= <-]. by left.
Qed.

(** One round over a destination that goes on: its asset has an entry, from
    which the amount, within [int64], is subtracted, checked. *)
Lemma muxSubDest_Val parity dest parity' :
  muxSubDest parity dest = Val parity' ->
  exists a n sum,
    destValue dest = Some (a, n) /\ parity !! a = Some sum /\ n <= MaxInt64
    /\ is_int64 (sum - to_int64 n)
    /\ parity' = <[a := sum - to_int64 n]> parity.
Proof.
  unfold muxSubDest, destValue.
  destruct dest as [d|]; [simpl|done].
  destruct (ValueDestination.Value d) as [v|]; [simpl|done].
  destruct (AssetAmount.AssetId v) as [a|]; [simpl|done].
  destruct (parity !! a) as [sum|] eqn:Esum; [simpl|done].
  destruct (Z.gtb_spec (AssetAmount.Amount v) MaxInt64) as [Hbig|Hsmall]; [done|simpl].
  unfold checked.SubInt64.
  destruct (checked.exact _) as [diff [|]] eqn:Ediff; [simpl|done].
  apply exact_true in Ediff as [-> Hin]. intros [= <-].
  by exists a, (AssetAmount.Amount v), sum.
Qed.

Lemma sumAmounts_unmentioned a l : ~ mentions a l -> sumAmounts a l = 0.
Proof.
  induction l as [|x l IH]; intros Hno; [done|]. simpl.
  rewrite IH.
  - destruct x as [[a' n]|]; simpl; [|done].
    destruct (decide (a' = a)) as [->|Hne].
    + exfalso. apply Hno. exists n. by left.
    + by rewrite bool_decide_eq_false_2.
  - intros [n Hn]. apply Hno. exists n. by right.
Qed.

Lemma mentions_cons a x l :
  mentions a (x :: l) <-> (exists n, x = Some (a, n)) \/ mentions a l.
Proof.
  unfold mentions. split.
  - intros [n [Heq|Hn]%elem_of_cons]; [left|right]; eauto.
  - intros [[n ->]|[n Hn]]; exists n; [by left | by right].
Qed.

Lemma addSources_sum t srcs : forall parity parity',
  uint64Amounts (countedSource t <$> srcs) ->
  foldRange (muxAddSource t) parity srcs = Val parity' ->
  forall a,
    default 0 (parity' !! a)
    = default 0 (parity !! a) + sumAmounts a (countedSource t <$> srcs)
    /\ (parity' !! a = None ->
        parity !! a = None /\ ~ mentions a (countedSource t <$> srcs)).
Proof.
  induction srcs as [|src srcs IH]; intros parity parity' Hwf Hrun a.
  - simpl in *. injection Hrun as <-. split; [lia|]. intros ?. split; [done|].
    intros [n Hn]. by apply elem_of_nil in Hn.
  - simpl in Hrun. rewrite fmap_cons in Hwf. apply Forall_cons in Hwf as [Hsrc Hwf].
    destruct (muxAddSource t parity src) as [parity1| | |] eqn:Estep; try done.
    simpl in Hrun. destruct (IH _ _ Hwf Hrun a) as [Hsum Hnone].
    rewrite fmap_cons. simpl. rewrite mentions_cons.
    apply muxAddSource_Val in Estep as [[Hc ->]|(a0 & n & Hc & Hmax & _ & ->)].
    { rewrite Hc. simpl. split; [lia|]. intros Hn. destruct (Hnone Hn).
      split; [done|]. by intros [[? ?]|?]. }
    rewrite Hc in Hsrc |- *. rewrite to_int64_amount in * by done. simpl.
    destruct (decide (a0 = a)) as [->|Hne].
    + rewrite bool_decide_eq_true_2 by done.
      rewrite lookup_insert_eq in *. simpl in *.
      split; [lia|]. intros Hn. by destruct (Hnone Hn).
    + rewrite bool_decide_eq_false_2 by done.
      rewrite lookup_insert_ne in * by done.
      split; [lia|]. intros Hn. destruct (Hnone Hn). split; [done|].
      intros [[? [= ? ?]]|?]; by simplify_eq.
Qed.

Lemma subDests_sum dests : forall parity parity',
  uint64Amounts (destValue <$> dests) ->
  foldRange muxSubDest parity dests = Val parity' ->
  forall a,
    default 0 (parity' !! a)
    = default 0 (parity !! a) - sumAmounts a (destValue <$> dests)
    /\ (parity' !! a = None <-> parity !! a = None)
    /\ (parity !! a = None -> ~ mentions a (destValue <$> dests)).
Proof.
  induction dests as [|dest dests IH]; intros parity parity' Hwf Hrun a.
  - simpl in *. injection Hrun as <-. split; [lia|]. split; [done|].
    intros ? [n Hn]. by apply elem_of_nil in Hn.
  - simpl in Hrun. rewrite fmap_cons in Hwf. apply Forall_cons in Hwf as [Hdest Hwf].
    destruct (muxSubDest parity dest) as [parity1| | |] eqn:Estep; try done.
    simpl in Hrun. destruct (IH _ _ Hwf Hrun a) as (Hsum & Hiff & Hnone).
    rewrite fmap_cons. simpl. rewrite mentions_cons.
    apply muxSubDest_Val in Estep as (a0 & n & sum & Hc & Hsome & Hmax & _ & ->).
    rewrite Hc in Hdest |- *. rewrite to_int64_amount in * by done. simpl.
    destruct (decide (a0 = a)) as [->|Hne].
    + rewrite bool_decide_eq_true_2 by done.
      rewrite lookup_insert_eq in *. rewrite Hsome. simpl in *.
      split; [lia|]. split; [|done]. rewrite Hiff. done.
    + rewrite bool_decide_eq_false_2 by done.
      rewrite lookup_insert_ne in * by done.
      split; [lia|]. split; [done|]. intros Hn. specialize (Hnone Hn).
      intros [[? [= ? ?]]|?]; by simplify_eq.
Qed.

(** The map the pass ends with holds, for each asset it has an entry for,
    the net amount; an asset without entry has neither a counted source nor
    a destination. *)
Lemma muxParity_net t m parity :
  uint64Amounts (countedSource t <$> Mux.Sources m) ->
  uint64Amounts (destValue <$> Mux.WitnessDestinations m) ->
  muxParity t m = Val parity ->
  forall a,
    default 0 (parity !! a) = netAmount t m a
    /\ (parity !! a = None ->
        ~ mentions a (countedSource t <$> Mux.Sources m)
        /\ ~ mentions a (destValue <$> Mux.WitnessDestinations m)).
Proof.
  intros Hsrc Hdst Hrun a. unfold muxParity in Hrun.
  destruct (foldRange (muxAddSource t) ∅ (Mux.Sources m)) as [parity0| | |] eqn:Esrc;
    try done.
  simpl in Hrun.
  destruct (addSources_sum _ _ _ _ Hsrc Esrc a) as [Hsum0 Hnone0].
  destruct (subDests_sum _ _ _ Hdst Hrun a) as (Hsum & Hiff & Hnone).
  rewrite lookup_empty in Hsum0. simpl in Hsum0.
  unfold netAmount. split; [lia|].
  intros Hn. apply Hiff in Hn. split; [by apply Hnone0 | by apply Hnone].
Qed.

(** ** Mux: the balance check *)

Section mux.
Context `{Consensus} `{Collaborators} `{PeginEnv}.

Lemma setGas_error_indep g g' n size :
  fst (setGas g n size) = fst (setGas g' n size).
Proof.
  unfold setGas. destruct (n <? 0); [done|].
  destruct (checked.DivInt64 n VMGasRate) as [q [|]]; simpl; [|done].
  by destruct (checked.MulInt64 size StorageGasRate) as [p [|]].
Qed.

Lemma setGas_errors g n size :
  fst (setGas g n size) = None \/ fst (setGas g n size) = Some ErrGasCalculate.
Proof.
  unfold setGas. destruct (n <? 0); [by right|].
  destruct (checked.DivInt64 n VMGasRate) as [q [|]]; simpl; [|by right].
  destruct (checked.MulInt64 size StorageGasRate) as [p [|]]; simpl; auto.
Qed.

Lemma rangeOrder_elem (parity : gmap N Z) a n :
  (a, n) ∈ rangeOrder parity <-> parity !! a = Some n.
Proof. by rewrite (rangeOrder_perm parity), elem_of_map_to_list. Qed.

(** The loop over [parity], in whatever order it is ranged over: it goes on
    only if every asset but the native one is at zero; it stops with
    [ErrUnbalanced] at an asset that is not, or with [ErrGasCalculate] when
    [setGas] refuses the native amount. *)
Lemma parityLoop t l : forall i s,
  (fst (forRange (fun _ => checkAsset t) i l s) = Val tt
   /\ forall a n, (a, n) ∈ l -> a <> BTMAssetID -> n = 0)
  \/ (fst (forRange (fun _ => checkAsset t) i l s) = Raise ErrUnbalanced
      /\ exists a n, (a, n) ∈ l /\ a <> BTMAssetID /\ n <> 0)
  \/ (fst (forRange (fun _ => checkAsset t) i l s) = Raise ErrGasCalculate
      /\ exists b, (BTMAssetID, b) ∈ l
                   /\ forall g, fst (setGas g b (to_int64 (Tx.SerializedSize t)))
                                = Some ErrGasCalculate).
Proof.
  induction l as [|[a n] l IH]; intros i s.
  { left. split; [done|]. intros a n Hin. by apply elem_of_nil in Hin. }
  simpl. unfold bindM, checkAsset at 1.
  destruct (decide (a = BTMAssetID)) as [->|Hne].
  - rewrite bool_decide_eq_true_2 by done. unfold onGas.
    destruct (setGas (gasStatus s) n (to_int64 (Tx.SerializedSize t)))
      as [[err|] g] eqn:Egas; simpl.
    + right. right.
      destruct (setGas_errors (gasStatus s) n (to_int64 (Tx.SerializedSize t)))
        as [Hn|He]; rewrite Egas in *; simpl in *; [done|].
      injection He as ->. split; [done|]. exists n. split; [by left|].
      intros g'. by rewrite (setGas_error_indep g' (gasStatus s)), Egas.
    + destruct (IH (i + 1) (withGas g s)) as [[Hr Hall]|[[Hr Hex]|[Hr Hex]]].
      * left. split; [done|]. intros a' n' [[= -> ->]|Hin]%elem_of_cons Hne'; eauto.
        done.
      * right. left. split; [done|]. destruct Hex as (a' & n' & Hin & ?).
        exists a', n'. split; [by right|done].
      * right. right. split; [done|]. destruct Hex as (b & Hin & ?).
        exists b. split; [by right|done].
  - rewrite bool_decide_eq_false_2 by done. unfold liftR.
    destruct (Z.eqb_spec n 0) as [->|Hn]; simpl.
    + destruct (IH (i + 1) s) as [[Hr Hall]|[[Hr Hex]|[Hr Hex]]].
      * left. split; [done|]. intros a' n' [[= -> ->]|Hin]%elem_of_cons Hne'; eauto.
      * right. left. split; [done|]. destruct Hex as (a' & n' & Hin & ?).
        exists a', n'. split; [by right|done].
      * right. right. split; [done|]. destruct Hex as (b & Hin & ?).
        exists b. split; [by right|done].
    + right. left. split; [done|]. exists a, n. split; [by left|done].
Qed.

Lemma deferred_result id r s1 :
  fst (deferred id (r, s1)) = match r with Val _ => Val tt | _ => r end.
Proof. by destruct r. Qed.

Lemma muxEntry_parity_fails rec vs m s0 e :
  muxParity (tx vs) m = Raise e ->
  checkEntry rec vs (Some (MuxEntry m)) s0 = (Raise e, s0).
Proof. intros Hp. unfold checkEntry, bindM, liftR. by rewrite Hp. Qed.

Lemma muxEntry_loop_fails rec vs m s0 parity e :
  muxParity (tx vs) m = Val parity ->
  fst (forRange (fun _ => checkAsset (tx vs)) 0 (rangeOrder parity) s0) = Raise e ->
  fst (checkEntry rec vs (Some (MuxEntry m)) s0) = Raise e.
Proof.
  intros Hp Hloop. unfold checkEntry, bindM, liftR. rewrite Hp.
  destruct (forRange _ 0 (rangeOrder parity) s0) as [[] s1]; simpl in *; congruence.
Qed.

Lemma muxEntry_passes rec vs m s0 u :
  fst (checkEntry rec vs (Some (MuxEntry m)) s0) = Val u ->
  exists parity,
    muxParity (tx vs) m = Val parity
    /\ fst (forRange (fun _ => checkAsset (tx vs)) 0 (rangeOrder parity) s0) = Val tt.
Proof.
  unfold checkEntry, bindM, liftR.
  destruct (muxParity (tx vs) m) as [parity| | |]; try done.
  intros Hrun. exists parity. split; [done|].
  by destruct (forRange _ 0 (rangeOrder parity) s0) as [[[]| | |] s1].
Qed.

(** C1, as the code has it.  For a mux not yet in the cache whose amounts
    are [uint64] values: if [checkValid] accepts it, every asset other than
    the native one has net amount zero, the sources of delegate entries left
    out of the sums; if the asset-sum pass completes and an asset other than
    the native one, with a counted source, has a nonzero net amount, the mux
    is rejected with [ErrUnbalanced], or with [ErrGasCalculate] when
    [setGas] refuses the native amount first (with [ErrUnbalanced] whenever
    [setGas] accepts it); a source pointing at a delegate entry leaves the
    sums as they are; a destination whose asset has no counted source stops
    the pass with [ErrNoSource]. *)
Theorem mux_balance (fuel : nat) (vs : validationState) (m : Mux.t) (s : Shared) :
  let t := tx vs in
  let run := checkValid (S fuel) vs (Some (MuxEntry m)) s in
  cache s !! EntryID (MuxEntry m) = None ->
  uint64Amounts (countedSource t <$> Mux.Sources m) ->
  uint64Amounts (destValue <$> Mux.WitnessDestinations m) ->
  (fst run = Val tt -> forall a, a <> BTMAssetID -> netAmount t m a = 0) /\
  (forall parity a,
     muxParity t m = Val parity ->
     a <> BTMAssetID ->
     mentions a (countedSource t <$> Mux.Sources m) ->
     netAmount t m a <> 0 ->
     (fst run = Raise ErrUnbalanced \/ fst run = Raise ErrGasCalculate)
     /\ ((forall b, parity !! BTMAssetID = Some b ->
           fst (setGas (gasStatus s) b (to_int64 (Tx.SerializedSize t))) = None) ->
         fst run = Raise ErrUnbalanced)) /\
  (forall parity src ref d,
     ValueSource.Ref src = Some ref ->
     Tx.Entries t !! ref = Some (DposEntry d) ->
     muxAddSource t parity (Some src) = Val parity
     /\ countedSource t (Some src) = None) /\
  (forall parity dest a n,
     destValue dest = Some (a, n) -> parity !! a = None ->
     muxSubDest parity dest = Raise ErrNoSource).
Proof.
  intros t run Hfresh Hsrc Hdst. subst run t.
  rewrite checkValid_fresh by done. simpl entryIDOf.
  set (s0 := withVisited _ s).
  destruct (checkEntry (checkValid fuel) vs (Some (MuxEntry m)) s0) as [r s1] eqn:Erun.
  rewrite deferred_result.
  split; [|split; [|split]].
  - intros Hok a Hne.
    assert (exists u, r = Val u) as [u ->] by (destruct r; naive_solver).
    destruct (muxEntry_passes (checkValid fuel) vs m s0 u) as (parity & Hp & Hloop).
    { by rewrite Erun. }
    destruct (muxParity_net _ _ _ Hsrc Hdst Hp a) as [Hnet Hnone].
    destruct (parity !! a) as [n|] eqn:Ea; simpl in Hnet.
    + destruct (parityLoop (tx vs) (rangeOrder parity) 0 s0) as [[_ Hall]|[[Hr _]|[Hr _]]];
        [|congruence..].
      rewrite <- Hnet. eapply Hall; [|done]. by apply rangeOrder_elem.
    + done.
  - intros parity a Hp Hne Hment Hnet.
    destruct (muxParity_net _ _ _ Hsrc Hdst Hp a) as [Hsum Hnone].
    destruct (parity !! a) as [n|] eqn:Ea; simpl in Hsum.
    2: { exfalso. by apply (Hnone eq_refl). }
    assert (Hr : forall e,
      fst (forRange (fun _ => checkAsset (tx vs)) 0 (rangeOrder parity) s0) = Raise e ->
      r = Raise e).
    { intros e He.
      pose proof (muxEntry_loop_fails (checkValid fuel) vs m s0 parity e Hp He) as Hf.
      by rewrite Erun in Hf. }
    destruct (parityLoop (tx vs) (rangeOrder parity) 0 s0) as [[_ Hall]|[[Hu _]|[Hg Hex]]].
    + exfalso. apply Hnet. rewrite <- Hsum. eapply Hall; [|done].
      by apply rangeOrder_elem.
    + rewrite (Hr _ Hu). split; [by left|done].
    + rewrite (Hr _ Hg). split; [by right|].
      intros Hgas. destruct Hex as (b & Hb%rangeOrder_elem & Hfail).
      specialize (Hgas b Hb). rewrite Hfail in Hgas. done.
  - intros parity src ref d Href Hentry.
    unfold muxAddSource, countedSource. simpl. rewrite Href. simpl.
    by rewrite Hentry.
  - intros parity dest a n Hval Hnone. unfold muxSubDest.
    unfold destValue in Hval.
    destruct dest as [d|]; [simpl|done].
    destruct (ValueDestination.Value d) as [v|]; [simpl|done].
    destruct (AssetAmount.AssetId v) as [a'|]; [simpl|done].
    injection Hval as -> ->. by rewrite Hnone.
Qed.

End mux.

Lemma mux_balance_witness :
  netAmount exampleTx balancedMux 7%N = 0.
Proof.
  refine (proj1 (mux_balance (H := exampleParams) (H0 := exampleCollaborators)
                   (H1 := examplePeginEnv) 2 muxVS balancedMux newStore
                   eq_refl _ _) _ 7%N _).
  - repeat constructor. by vm_compute.
  - repeat constructor. by vm_compute.
  - by vm_compute.
  - by vm_compute.
Defined.

(** C1 as stated fails: the mux below has one destination of 5 units of
    asset 7 (not the native asset, which is 1) and no source; the net amount
    of asset 7 is -5, and the error is [ErrNoSource], not [ErrUnbalanced]. *)
Lemma mux_no_source_counterexample :
  BTMAssetID (Consensus := exampleParams) = 1%N
  /\ netAmount exampleTx sourcelessMux 7%N = -5
  /\ fst (checkValid (H := exampleParams) (H0 := exampleCollaborators)
            (H1 := examplePeginEnv) 2 muxVS (Some (MuxEntry sourcelessMux)) newStore)
     = Raise ErrNoSource.
Proof. by vm_compute. Qed.

(** ** Mux: the bound on single amounts *)

Section mux_bound.
Context `{Consensus} `{Collaborators} `{PeginEnv}.

Lemma checkValid_mux_parity_fails fuel vs m s e :
  cache s !! EntryID (MuxEntry m) = None ->
  muxParity (tx vs) m = Raise e ->
  checkValid (S fuel) vs (Some (MuxEntry m)) s
  = (Raise e, mkShared (gasStatus s)
                (<[EntryID (MuxEntry m) := Some e]> (cache s))
                (EntryID (MuxEntry m) :: visited s)).
Proof.
  intros Hfresh Hp. rewrite checkValid_fresh by done.
  by rewrite (muxEntry_parity_fails _ _ _ _ e Hp).
Qed.

(** C3, as the code has it.  In the asset-sum pass of a mux not yet in the
    cache, an amount of 2^63 or more is rejected with [ErrOverflow] when the
    pass reaches it on a source that does not point at a delegate entry, or
    on a destination whose asset has an entry; an amount up to 2^63-1
    passes the bound, and the round then fails, with [ErrOverflow], only if
    the checked addition or subtraction overflows. *)
Theorem mux_amount_bound (fuel : nat) (vs : validationState) (m : Mux.t)
    (s : Shared) :
  let t := tx vs in
  let id := EntryID (MuxEntry m) in
  let run := checkValid (S fuel) vs (Some (MuxEntry m)) s in
  let failed err :=
    (Raise err, mkShared (gasStatus s) (<[id := Some err]> (cache s))
                         (id :: visited s)) in
  cache s !! id = None ->
  (forall pre src post parity ref e v,
     Mux.Sources m = pre ++ Some src :: post ->
     foldRange (muxAddSource t) ∅ pre = Val parity ->
     ValueSource.Ref src = Some ref -> Tx.Entries t !! ref = Some e ->
     notDpos e -> ValueSource.Value src = Some v ->
     2 ^ 63 <= AssetAmount.Amount v ->
     run = failed ErrOverflow) /\
  (forall parity0 pre dest post parity v a sum,
     foldRange (muxAddSource t) ∅ (Mux.Sources m) = Val parity0 ->
     Mux.WitnessDestinations m = pre ++ Some dest :: post ->
     foldRange muxSubDest parity0 pre = Val parity ->
     ValueDestination.Value dest = Some v -> AssetAmount.AssetId v = Some a ->
     parity !! a = Some sum ->
     2 ^ 63 <= AssetAmount.Amount v ->
     run = failed ErrOverflow) /\
  (forall parity src ref e v a,
     ValueSource.Ref src = Some ref -> Tx.Entries t !! ref = Some e ->
     notDpos e -> ValueSource.Value src = Some v ->
     AssetAmount.AssetId v = Some a ->
     0 <= AssetAmount.Amount v <= 2 ^ 63 - 1 ->
     muxAddSource t parity (Some src)
     = if in_int64 (default 0 (parity !! a) + AssetAmount.Amount v)
       then Val (<[a := default 0 (parity !! a) + AssetAmount.Amount v]> parity)
       else Raise ErrOverflow) /\
  (forall parity dest v a sum,
     ValueDestination.Value dest = Some v -> AssetAmount.AssetId v = Some a ->
     parity !! a = Some sum ->
     0 <= AssetAmount.Amount v <= 2 ^ 63 - 1 ->
     muxSubDest parity (Some dest)
     = if in_int64 (sum - AssetAmount.Amount v)
       then Val (<[a := sum - AssetAmount.Amount v]> parity)
       else Raise ErrOverflow).
Proof.
  intros t id run failed Hfresh. subst t id run failed.
  split; [|split; [|split]].
  - intros pre src post parity ref e v Hsrcs Hpre Href Hentry Hnd Hv Hbig.
    apply checkValid_mux_parity_fails; [done|].
    unfold muxParity. rewrite Hsrcs, foldRange_app, Hpre. simpl.
    assert (Hstep : muxAddSource (tx vs) parity (Some src) = Raise ErrOverflow).
    { unfold muxAddSource. simpl. rewrite Href. simpl. rewrite Hentry. simpl.
      rewrite Hv. simpl.
      destruct (Z.gtb_spec (AssetAmount.Amount v) MaxInt64) as [_|Hsmall].
      - by destruct e.
      - unfold MaxInt64 in Hsmall. lia. }
    by rewrite Hstep.
  - intros parity0 pre dest post parity v a sum Hsrcs Hdests Hpre Hv Ha Hsum Hbig.
    apply checkValid_mux_parity_fails; [done|].
    unfold muxParity. rewrite Hsrcs. simpl.
    rewrite Hdests, foldRange_app, Hpre. simpl.
    assert (Hstep : muxSubDest parity (Some dest) = Raise ErrOverflow).
    { unfold muxSubDest. simpl. rewrite Hv. simpl. rewrite Ha. simpl.
      rewrite Hsum. simpl.
      destruct (Z.gtb_spec (AssetAmount.Amount v) MaxInt64) as [_|Hsmall]; [done|].
      unfold MaxInt64 in Hsmall. lia. }
    by rewrite Hstep.
  - intros parity src ref e v a Href Hentry Hnd Hv Ha Hrange.
    unfold muxAddSource. simpl. rewrite Href. simpl. rewrite Hentry. simpl.
    assert (Hgo :
      (value <- deref (ValueSource.Value src) ;;
       failIf (AssetAmount.Amount value >? MaxInt64) ErrOverflow ;;
       assetId <- deref (AssetAmount.AssetId value) ;;
       let '(sum, ok) :=
         checked.AddInt64 (default 0 (parity !! assetId))
                          (to_int64 (AssetAmount.Amount value)) in
       failIf (negb ok) ErrOverflow ;;
       Val (<[assetId := sum]> parity))%res
      = if in_int64 (default 0 (parity !! a) + AssetAmount.Amount v)
        then Val (<[a := default 0 (parity !! a) + AssetAmount.Amount v]> parity)
        else Raise ErrOverflow).
    { rewrite Hv. simpl.
      destruct (Z.gtb_spec (AssetAmount.Amount v) MaxInt64) as [Hbig|_].
      { unfold MaxInt64 in Hbig. lia. }
      simpl. rewrite Ha. simpl.
      rewrite to_int64_amount by (unfold MaxInt64; lia).
      unfold checked.AddInt64, checked.exact.
      by destruct (in_int64 _). }
    by destruct e.
  - intros parity dest v a sum Hv Ha Hsum Hrange.
    unfold muxSubDest. simpl. rewrite Hv. simpl. rewrite Ha. simpl.
    rewrite Hsum. simpl.
    destruct (Z.gtb_spec (AssetAmount.Amount v) MaxInt64) as [Hbig|_].
    { unfold MaxInt64 in Hbig. lia. }
    simpl. rewrite to_int64_amount by (unfold MaxInt64; lia).
    unfold checked.SubInt64, checked.exact.
    by destruct (in_int64 _).
Qed.

End mux_bound.

Lemma mux_amount_bound_witness :
  checkValid (H := exampleParams) (H0 := exampleCollaborators) (H1 := examplePeginEnv)
    1 muxVS (Some (MuxEntry hugeMux)) newStore
  = (Raise ErrOverflow, mkShared (mkGasState 0 0 0 false 0)
                          (<[2%N := Some ErrOverflow]> ∅) [2%N]).
Proof.
  refine (proj1 (mux_amount_bound (H := exampleParams) (H0 := exampleCollaborators)
                   (H1 := examplePeginEnv) 0 muxVS hugeMux newStore eq_refl)
            [] (ValueSource.mk (Some 5%N) (Some (AssetAmount.mk (Some 7%N) (2 ^ 63))) 0)
            [] ∅ 5%N exampleIssuance (AssetAmount.mk (Some 7%N) (2 ^ 63))
            eq_refl eq_refl eq_refl eq_refl I eq_refl _).
  simpl. lia.
Defined.

(** C3 as stated fails: the only source of the mux below carries 2^63 units
    and points at a delegate entry; the pass skips it and the mux is
    accepted. *)
Lemma mux_dpos_amount_counterexample :
  Mux.Sources dposMux
  = [Some (ValueSource.mk (Some 9%N) (Some (AssetAmount.mk (Some 7%N) (2 ^ 63))) 0)]
  /\ fst (checkValid (H := exampleParams) (H0 := exampleCollaborators)
            (H1 := examplePeginEnv) 2 dposVS (Some (MuxEntry dposMux)) newStore)
     = Val tt.
Proof. by vm_compute. Qed.

(** ** Reference integrity *)

Lemma AssetAmount_Equal_true x y :
  AssetAmount_Equal x y = Some true <-> sameValue x y.
Proof.
  unfold AssetAmount_Equal, sameValue. split.
  - destruct x as [[[a|] n]|], y as [[[b|] k]|]; simpl; try done.
    intros [= [Hn%Z.eqb_eq Ha%bool_decide_eq_true]%andb_true_iff].
    subst. by exists b, k.
  - intros (a & n & -> & ->). simpl.
    by rewrite Z.eqb_refl, bool_decide_eq_true_2.
Qed.

Lemma AssetAmount_Equal_false x y :
  AssetAmount_Equal x y = Some false <->
  exists a n b k,
    x = Some (AssetAmount.mk (Some a) n) /\ y = Some (AssetAmount.mk (Some b) k)
    /\ (n <> k \/ a <> b).
Proof.
  unfold AssetAmount_Equal. split.
  - destruct x as [[[a|] n]|], y as [[[b|] k]|]; simpl; try done.
    intros [= Hf%andb_false_iff]. exists a, n, b, k. split; [done|]. split; [done|].
    destruct Hf as [Hn%Z.eqb_neq|Ha%bool_decide_eq_false]; auto.
  - intros (a & n & b & k & -> & -> & Hne). simpl. f_equal.
    apply andb_false_iff.
    destruct Hne as [Hn|Ha]; [left; by apply Z.eqb_neq | right; by apply bool_decide_eq_false].
Qed.

Lemma compareEdge_verdict `{Collaborators} id slot value ref position value' :
  (forall r, ref = Some r -> r <> id ->
   compareEdge id slot value ref position value' = Raise ErrMismatchedReference) /\
  (ref = None ->
   compareEdge id slot value ref position value'
   = if nilBytesPanics then Panic else Raise ErrMismatchedReference) /\
  (ref = Some id -> position <> slot ->
   compareEdge id slot value ref position value' = Raise ErrMismatchedPosition) /\
  (ref = Some id -> position = slot ->
   AssetAmount_Equal value' value = Some false ->
   compareEdge id slot value ref position value' = Raise ErrMismatchedValue) /\
  (compareEdge id slot value ref position value' = Val tt <->
   refersBack id slot value ref position value').
Proof.
  unfold compareEdge, refersBack, checkRef.
  destruct ref as [r|]; cycle 1.
  { split_and!; try done.
    - by destruct nilBytesPanics.
    - split; [by destruct nilBytesPanics|]. by intros (? & _). }
  destruct (decide (r = id)) as [->|Href].
  2: { rewrite bool_decide_eq_false_2 by done. simpl.
       split_and!; try done.
       - intros [= ->]. done.
       - intros [= ->]. done.
       - split; [done|]. intros ([= ->] & _). done. }
  rewrite bool_decide_eq_true_2 by done. simpl.
  destruct (Z.eqb_spec position slot) as [Hpos|Hpos]; simpl.
  2: { split_and!; try done.
       - intros r [= ->] Hne. done.
       - split; [done|]. by intros (_ & ? & _). }
  split_and!; try done.
  - intros r [= ->] Hne. done.
  - intros _ _ ->. done.
  - rewrite <- AssetAmount_Equal_true.
    destruct (AssetAmount_Equal value' value) as [[|]|]; simpl;
      split; try done; try (by intros (_ & _ & ?)).
Qed.

Section edges.
Context `{Consensus} `{Collaborators} `{PeginEnv}.

Lemma hasValue_guard value :
  hasValue value ->
  match value with
  | Some v => bool_decide (AssetAmount.AssetId v = None)
  | None => true
  end = false.
Proof. intros (v & a & -> & Ha). apply bool_decide_eq_false. by rewrite Ha. Qed.

Instance hasValue_dec value : Decision (hasValue value).
Proof.
  destruct value as [[[a|] n]|].
  - left. by eexists _, a.
  - right. by intros (v & a & [= <-] & ?).
  - right. by intros (v & a & ? & ?).
Defined.

Lemma checkValidDest_resolved vs vd ref e src :
  ValueDestination.Ref vd = Some ref ->
  hasValue (ValueDestination.Value vd) ->
  Tx.Entries (tx vs) !! ref = Some e ->
  sourceAt e (ValueDestination.Position vd) = Val (Some src) ->
  checkValidDest vs (Some vd)
  = compareEdge (entryID vs) (destPos vs) (ValueDestination.Value vd)
      (ValueSource.Ref src) (ValueSource.Position src) (ValueSource.Value src).
Proof.
  intros Href Hval Hentry Hsrc. unfold checkValidDest. rewrite Href.
  rewrite (hasValue_guard _ Hval). simpl. rewrite Hentry. simpl.
  by rewrite Hsrc.
Qed.

Lemma checkValidSrc_resolved rec vstate src ref e s :
  ValueSource.Ref src = Some ref ->
  hasValue (ValueSource.Value src) ->
  Tx.Entries (tx vstate) !! ref = Some e ->
  checkValidSrc rec vstate (Some src) s
  = match rec (withEntryID ref vstate) (Some e) s with
    | (Val _, s') =>
        ((dest <- destinationAt e (ValueSource.Position src) ;;
          dest <- deref dest ;;
          compareEdge (entryID vstate) (sourcePos vstate) (ValueSource.Value src)
            (ValueDestination.Ref dest) (ValueDestination.Position dest)
            (ValueDestination.Value dest))%res, s')
    | (Raise err, s') => (Raise err, s')
    | (Panic, s') => (Panic, s')
    | (OutOfFuel, s') => (OutOfFuel, s')
    end.
Proof.
  intros Href Hval Hentry. unfold checkValidSrc. rewrite Href.
  unfold bindM, liftR. rewrite (hasValue_guard _ Hval). simpl.
  rewrite Hentry. simpl.
  by destruct (rec (withEntryID ref vstate) (Some e) s) as [[] s'].
Qed.

Lemma hasValue_of_guard value :
  match value with
  | Some v => bool_decide (AssetAmount.AssetId v = None)
  | None => true
  end = false -> hasValue value.
Proof.
  destruct value as [v|]; [|done]. intros Hg%bool_decide_eq_false.
  destruct (AssetAmount.AssetId v) as [a|] eqn:Ea; [|done]. by exists v, a.
Qed.

Lemma sameValue_sym x y : sameValue x y -> sameValue y x.
Proof. intros (a & n & -> & ->). by exists a, n. Qed.

Lemma sameValue_hasValue x y : sameValue x y -> hasValue x /\ hasValue y.
Proof. intros (a & n & -> & ->). split; by eexists _, a. Qed.

(** What an accepting source check has gone through. *)
Lemma checkValidSrc_Val_inv rec vstate osrc s :
  fst (checkValidSrc rec vstate osrc s) = Val tt ->
  exists src ref e dest s',
    osrc = Some src /\ ValueSource.Ref src = Some ref
    /\ hasValue (ValueSource.Value src)
    /\ Tx.Entries (tx vstate) !! ref = Some e
    /\ rec (withEntryID ref vstate) (Some e) s = (Val tt, s')
    /\ destinationAt e (ValueSource.Position src) = Val (Some dest)
    /\ refersBack (entryID vstate) (sourcePos vstate) (ValueSource.Value src)
         (ValueDestination.Ref dest) (ValueDestination.Position dest)
         (ValueDestination.Value dest).
Proof.
  destruct osrc as [src|]; [|done].
  destruct (ValueSource.Ref src) as [ref|] eqn:Href; [|by unfold checkValidSrc; rewrite Href].
  destruct (decide (hasValue (ValueSource.Value src))) as [Hval|Hval]; cycle 1.
  { unfold checkValidSrc, bindM, liftR. rewrite Href.
    destruct (match ValueSource.Value src with
              | Some v => bool_decide (AssetAmount.AssetId v = None)
              | None => true
              end) eqn:Eg; [done|]. by apply hasValue_of_guard in Eg. }
  destruct (Tx.Entries (tx vstate) !! ref) as [e|] eqn:Hentry; cycle 1.
  { unfold checkValidSrc, bindM, liftR. rewrite Href, (hasValue_guard _ Hval).
    simpl. by rewrite Hentry. }
  rewrite (checkValidSrc_resolved rec vstate src ref e s Href Hval Hentry).
  destruct (rec (withEntryID ref vstate) (Some e) s) as [[[]| | |] s'] eqn:Erec;
    simpl; try done.
  destruct (destinationAt e (ValueSource.Position src)) as [[dest|]| | |] eqn:Edest;
    simpl; try done.
  intros Hcmp%compareEdge_verdict.
  by exists src, ref, e, dest, s'.
Qed.

(** What an accepting destination check has gone through. *)
Lemma checkValidDest_Val_inv vs ovd :
  checkValidDest vs ovd = Val tt ->
  exists vd ref e src,
    ovd = Some vd /\ ValueDestination.Ref vd = Some ref
    /\ hasValue (ValueDestination.Value vd)
    /\ Tx.Entries (tx vs) !! ref = Some e
    /\ sourceAt e (ValueDestination.Position vd) = Val (Some src)
    /\ refersBack (entryID vs) (destPos vs) (ValueDestination.Value vd)
         (ValueSource.Ref src) (ValueSource.Position src) (ValueSource.Value src).
Proof.
  destruct ovd as [vd|]; [|done].
  destruct (ValueDestination.Ref vd) as [ref|] eqn:Href;
    [|by unfold checkValidDest; rewrite Href].
  destruct (decide (hasValue (ValueDestination.Value vd))) as [Hval|Hval]; cycle 1.
  { unfold checkValidDest. rewrite Href.
    destruct (match ValueDestination.Value vd with
              | Some v => bool_decide (AssetAmount.AssetId v = None)
              | None => true
              end) eqn:Eg; [done|]. by apply hasValue_of_guard in Eg. }
  destruct (Tx.Entries (tx vs) !! ref) as [e|] eqn:Hentry; cycle 1.
  { unfold checkValidDest. rewrite Href, (hasValue_guard _ Hval). simpl.
    by rewrite Hentry. }
  destruct (sourceAt e (ValueDestination.Position vd)) as [[src|]| | |] eqn:Esrc;
    cycle 1.
  all: try (unfold checkValidDest; rewrite Href, (hasValue_guard _ Hval); simpl;
            rewrite Hentry; simpl; by rewrite Esrc).
  rewrite (checkValidDest_resolved vs vd ref e src Href Hval Hentry Esrc).
  intros Hcmp%compareEdge_verdict.
  by exists vd, ref, e, src.
Qed.

Lemma refersBack_mutation id slot value ref position value' :
  refersBack id slot value ref position value' ->
  (forall id', id' <> id -> ~ refersBack id' slot value ref position value') /\
  (forall slot', slot' <> slot -> ~ refersBack id slot' value ref position value') /\
  (forall v, v <> value -> ~ refersBack id slot v ref position value') /\
  (forall r, r <> ref -> ~ refersBack id slot value r position value') /\
  (forall p, p <> position -> ~ refersBack id slot value ref p value') /\
  (forall v, v <> value' -> ~ refersBack id slot value ref position v).
Proof.
  intros (-> & -> & a & n & -> & ->).
  split_and!; intros x Hx (Hr & Hp & b & k & Hv' & Hv); simplify_eq.
Qed.

(** C2.  Source side: once the referenced entry validates and its
    destination for the source's slot is resolved, [checkValidSrc] fails
    with [ErrMismatchedReference] when the back-reference is not the
    current entry id (a nil back-reference fails the same way, or panics
    while the message is built), else with [ErrMismatchedPosition] when the
    recorded
    slot is not the current source slot, else with [ErrMismatchedValue]
    when asset or amount differ, and accepts exactly when the destination
    refers back; an accepting source check always implies that.
    Destination side: the mirror statement for [checkValidDest].
    Agreement: on an edge of the graph, an accepting check on one side
    makes the check on the other side accept.  Mutation: changing any one
    of reference, slot or value on either side of a matching edge breaks
    the match, hence the check. *)
Theorem edge_integrity :
  (forall fuel vstate src ref e dest s s',
     ValueSource.Ref src = Some ref ->
     hasValue (ValueSource.Value src) ->
     Tx.Entries (tx vstate) !! ref = Some e ->
     destinationAt e (ValueSource.Position src) = Val (Some dest) ->
     checkValid fuel (withEntryID ref vstate) (Some e) s = (Val tt, s') ->
     let run := checkValidSrc (checkValid fuel) vstate (Some src) s in
     (forall r, ValueDestination.Ref dest = Some r -> r <> entryID vstate ->
      run = (Raise ErrMismatchedReference, s')) /\
     (ValueDestination.Ref dest = None ->
      run = (if nilBytesPanics then Panic else Raise ErrMismatchedReference, s')) /\
     (ValueDestination.Ref dest = Some (entryID vstate) ->
      ValueDestination.Position dest <> sourcePos vstate ->
      run = (Raise ErrMismatchedPosition, s')) /\
     (ValueDestination.Ref dest = Some (entryID vstate) ->
      ValueDestination.Position dest = sourcePos vstate ->
      AssetAmount_Equal (ValueDestination.Value dest) (ValueSource.Value src)
      = Some false ->
      run = (Raise ErrMismatchedValue, s')) /\
     (run = (Val tt, s') <->
      refersBack (entryID vstate) (sourcePos vstate) (ValueSource.Value src)
        (ValueDestination.Ref dest) (ValueDestination.Position dest)
        (ValueDestination.Value dest))) /\
  (forall fuel vstate src ref e dest s,
     ValueSource.Ref src = Some ref ->
     Tx.Entries (tx vstate) !! ref = Some e ->
     destinationAt e (ValueSource.Position src) = Val (Some dest) ->
     fst (checkValidSrc (checkValid fuel) vstate (Some src) s) = Val tt ->
     refersBack (entryID vstate) (sourcePos vstate) (ValueSource.Value src)
       (ValueDestination.Ref dest) (ValueDestination.Position dest)
       (ValueDestination.Value dest)) /\
  (forall vs vd ref e src,
     ValueDestination.Ref vd = Some ref ->
     hasValue (ValueDestination.Value vd) ->
     Tx.Entries (tx vs) !! ref = Some e ->
     sourceAt e (ValueDestination.Position vd) = Val (Some src) ->
     let run := checkValidDest vs (Some vd) in
     (forall r, ValueSource.Ref src = Some r -> r <> entryID vs ->
      run = Raise ErrMismatchedReference) /\
     (ValueSource.Ref src = None ->
      run = if nilBytesPanics then Panic else Raise ErrMismatchedReference) /\
     (ValueSource.Ref src = Some (entryID vs) ->
      ValueSource.Position src <> destPos vs ->
      run = Raise ErrMismatchedPosition) /\
     (ValueSource.Ref src = Some (entryID vs) ->
      ValueSource.Position src = destPos vs ->
      AssetAmount_Equal (ValueSource.Value src) (ValueDestination.Value vd)
      = Some false ->
      run = Raise ErrMismatchedValue) /\
     (run = Val tt <->
      refersBack (entryID vs) (destPos vs) (ValueDestination.Value vd)
        (ValueSource.Ref src) (ValueSource.Position src) (ValueSource.Value src))) /\
  (forall fuel vstate src cur s,
     Tx.Entries (tx vstate) !! entryID vstate = Some cur ->
     sourceAt cur (sourcePos vstate) = Val (Some src) ->
     fst (checkValidSrc (checkValid fuel) vstate (Some src) s) = Val tt ->
     exists ref e dest,
       ValueSource.Ref src = Some ref
       /\ Tx.Entries (tx vstate) !! ref = Some e
       /\ destinationAt e (ValueSource.Position src) = Val (Some dest)
       /\ checkValidDest (withDestPos (ValueSource.Position src)
                            (withEntryID ref vstate)) (Some dest) = Val tt) /\
  (forall fuel vs vd cur s s',
     Tx.Entries (tx vs) !! entryID vs = Some cur ->
     destinationAt cur (destPos vs) = Val (Some vd) ->
     checkValidDest vs (Some vd) = Val tt ->
     exists ref e src,
       ValueDestination.Ref vd = Some ref
       /\ Tx.Entries (tx vs) !! ref = Some e
       /\ sourceAt e (ValueDestination.Position vd) = Val (Some src)
       /\ (checkValid fuel
             (withEntryID (entryID vs)
                (withSourcePos (ValueDestination.Position vd) (withEntryID ref vs)))
             (Some cur) s = (Val tt, s') ->
           checkValidSrc (checkValid fuel)
             (withSourcePos (ValueDestination.Position vd) (withEntryID ref vs))
             (Some src) s = (Val tt, s'))) /\
  (forall id slot value ref position value',
     refersBack id slot value ref position value' ->
     (forall id', id' <> id -> ~ refersBack id' slot value ref position value') /\
     (forall slot', slot' <> slot -> ~ refersBack id slot' value ref position value') /\
     (forall v, v <> value -> ~ refersBack id slot v ref position value') /\
     (forall r, r <> ref -> ~ refersBack id slot value r position value') /\
     (forall p, p <> position -> ~ refersBack id slot value ref p value') /\
     (forall v, v <> value' -> ~ refersBack id slot value ref position v)).
Proof.
  split_and!.
  - intros fuel vstate src ref e dest s s' Href Hval Hentry Hdest Hrec run.
    subst run. rewrite (checkValidSrc_resolved _ _ _ _ _ _ Href Hval Hentry).
    rewrite Hrec, Hdest. simpl.
    pose proof (compareEdge_verdict (entryID vstate) (sourcePos vstate)
                  (ValueSource.Value src) (ValueDestination.Ref dest)
                  (ValueDestination.Position dest) (ValueDestination.Value dest))
      as (Hr & Hnil & Hp & Hv & Hok).
    split_and!.
    + intros r Href' Hne. by rewrite (Hr r).
    + intros Href'. by rewrite Hnil.
    + intros Heq Hne. by rewrite Hp.
    + intros Heq Hpos Hdiff. by rewrite Hv.
    + rewrite <- Hok. split; [by intros [= ->]|by intros ->].
  - intros fuel vstate src ref e dest s Href Hentry Hdest Hrun.
    apply checkValidSrc_Val_inv in Hrun
      as (src' & ref' & e' & dest' & s' & [= <-] & Href' & _ & Hentry' & _ & Hdest' & Hback).
    rewrite Href in Href'. injection Href' as <-.
    rewrite Hentry in Hentry'. injection Hentry' as <-.
    rewrite Hdest in Hdest'. by injection Hdest' as <-.
  - intros vs vd ref e src Href Hval Hentry Hsrc run. subst run.
    rewrite (checkValidDest_resolved _ _ _ _ _ Href Hval Hentry Hsrc).
    apply compareEdge_verdict.
  - intros fuel vstate src cur s Hcur Hsrc Hrun.
    apply checkValidSrc_Val_inv in Hrun
      as (src' & ref & e & dest & s' & [= <-] & Href & Hval & Hentry & _ & Hdest
          & Hr & Hp & Hsame).
    exists ref, e, dest. split_and!; try done.
    destruct (sameValue_hasValue _ _ Hsame) as [Hdv _].
    rewrite (checkValidDest_resolved _ dest (entryID vstate) cur src); try done.
    + apply compareEdge_verdict. split_and!; [done|done|by apply sameValue_sym].
    + simpl. by rewrite Hp.
  - intros fuel vs vd cur s s' Hcur Hdest Hrun.
    apply checkValidDest_Val_inv in Hrun
      as (vd' & ref & e & src & [= <-] & Href & Hval & Hentry & Hsrc
          & Hr & Hp & Hsame).
    exists ref, e, src. split_and!; try done.
    intros Hrec.
    destruct (sameValue_hasValue _ _ Hsame) as [Hsv _].
    rewrite (checkValidSrc_resolved _ _ src (entryID vs) cur); try done.
    simpl. rewrite Hrec, Hp, Hdest. simpl.
    assert (Hcmp : compareEdge ref (ValueDestination.Position vd)
                     (ValueSource.Value src) (ValueDestination.Ref vd)
                     (ValueDestination.Position vd) (ValueDestination.Value vd)
                   = Val tt).
    { apply compareEdge_verdict. split_and!; [done|done|by apply sameValue_sym]. }
    by rewrite Hcmp.
  - apply refersBack_mutation.
Qed.

End edges.

Lemma edge_integrity_witness :
  exists ref e dest,
    ValueSource.Ref outputSource = Some ref
    /\ Tx.Entries (tx outputVS) !! ref = Some e
    /\ destinationAt e (ValueSource.Position outputSource) = Val (Some dest)
    /\ checkValidDest (H := exampleCollaborators)
         (withDestPos (ValueSource.Position outputSource)
            (withEntryID ref outputVS)) (Some dest) = Val tt.
Proof.
  apply (proj1 (proj2 (proj2 (proj2
           (edge_integrity (H := exampleParams) (H0 := exampleCollaborators)
              (H1 := examplePeginEnv)))))
           5%nat outputVS outputSource exampleOutput newStore);
    by vm_compute.
Defined.

(** ** Memoization *)

Section memo_rules.
Context (rank : Hash -> nat) (bound : nat).

Lemma grows_refl s : grows s s.
Proof.
  exists []. split_and!; [done| |done|by left].
  intros y Hy. by apply elem_of_nil in Hy.
Qed.

Lemma grows_trans s1 s2 s3 : grows s1 s2 -> grows s2 s3 -> grows s1 s3.
Proof.
  intros (n1 & Hv1 & Hc1 & Hm1 & Ho1) (n2 & Hv2 & Hc2 & Hm2 & Ho2).
  exists (n2 ++ n1). split_and!.
  - by rewrite Hv2, Hv1, (assoc_L (++)).
  - intros y [Hy|Hy]%elem_of_app; auto.
  - auto.
  - intros y Hy. destruct (Ho2 y Hy) as [Hy2|Hy2].
    + destruct (Ho1 y Hy2); [by left|right]. apply elem_of_app. by right.
    + right. apply elem_of_app. by left.
Qed.

Lemma settledBelow_grows s s' :
  settledBelow rank bound s -> grows s s' -> NoDup (visited s') ->
  settledBelow rank bound s'.
Proof.
  intros [_ Hs] (new & Hv & Hc & Hm & _) Hnd. split; [done|].
  intros y Hy. rewrite Hv in Hy. apply elem_of_app in Hy as [Hy|Hy].
  - left. by apply Hc.
  - destruct (Hs y Hy) as [Hcached|Hrank]; [left; by apply Hm | by right].
Qed.

Lemma keeps_visitsOnce {A} (m : M A) : keeps m -> visitsOnce rank bound m.
Proof.
  intros Hk s [Hnd Hs]. destruct (Hk s) as [Hc Hv]. split; [by rewrite Hv|].
  intros _. exists []. rewrite Hv, Hc. split_and!; [done| |done|by left].
  intros y Hy. by apply elem_of_nil in Hy.
Qed.

Lemma visitsOnce_bind {A B} (m : M A) (k : A -> M B) :
  visitsOnce rank bound m ->
  (forall a s, fst (m s) = Val a -> visitsOnce rank bound (k a)) ->
  visitsOnce rank bound (bindM m k).
Proof.
  intros Hm Hk s Hs. unfold bindM. destruct (Hm s Hs) as [Hnd Hg].
  specialize (Hk) with (s := s).
  destruct (m s) as [[a|e| |] s1] eqn:Em; simpl in *; try done.
  specialize (Hg I).
  destruct (Hk a eq_refl s1 (settledBelow_grows _ _ Hs Hg Hnd)) as [Hnd' Hg'].
  split; [done|]. intros Hn. eapply grows_trans; eauto.
Qed.

Lemma visitsOnce_forRange {A} (f : Z -> A -> M unit) (l : list A) :
  (forall i a, a ∈ l -> visitsOnce rank bound (f i a)) ->
  forall i, visitsOnce rank bound (forRange f i l).
Proof.
  induction l as [|a l IH]; intros Hf i.
  - apply keeps_visitsOnce. by intros s.
  - simpl. apply visitsOnce_bind.
    + apply Hf. by left.
    + intros _ _ _. apply IH. intros j b Hb. apply Hf. by right.
Qed.

Lemma keeps_liftR {A} (r : res A) : keeps (liftR r).
Proof. by intros s. Qed.

Lemma keeps_onGas f : keeps (onGas f).
Proof. intros s. unfold onGas. by destruct (f (gasStatus s)) as [[e|] g]. Qed.

Lemma keeps_bind {A B} (m : M A) (k : A -> M B) :
  keeps m -> (forall a, keeps (k a)) -> keeps (bindM m k).
Proof.
  intros Hm Hk s. unfold bindM. destruct (Hm s) as [Hc Hv].
  destruct (m s) as [[a|e| |] s1]; simpl in *; try done.
  destruct (Hk a s1) as [Hc' Hv']. by rewrite Hc', Hv'.
Qed.

Lemma keeps_forRange {A} (f : Z -> A -> M unit) (l : list A) :
  (forall i a, keeps (f i a)) -> forall i, keeps (forRange f i l).
Proof.
  intros Hf. induction l as [|a l IH]; intros i; [by intros s|].
  simpl. apply keeps_bind; [apply Hf | intros _; apply IH].
Qed.

End memo_rules.

Section memo.
Context `{Consensus} `{Collaborators} `{PeginEnv}.
Context (rank : Hash -> nat) (t : Tx.t) (root : Entry).
Hypothesis Hacyclic : acyclic rank t root.

Lemma checkValidSrc_visitsOnce rec bound vstate src :
  tx vstate = t ->
  (forall c, refEntry t src = Some c -> visitsOnce rank bound (rec
     (withEntryID (default 0%N (src ≫= ValueSource.Ref)) vstate) c)) ->
  visitsOnce rank bound (checkValidSrc rec vstate src).
Proof.
  intros Htx Hrec. unfold checkValidSrc.
  destruct src as [vs|]; [|apply keeps_visitsOnce; by intros s].
  destruct (ValueSource.Ref vs) as [ref|] eqn:Href;
    [|apply keeps_visitsOnce; by intros s].
  apply visitsOnce_bind; [apply keeps_visitsOnce, keeps_liftR|].
  intros _ _ _. apply visitsOnce_bind; [apply keeps_visitsOnce, keeps_liftR|].
  intros e s He. apply visitsOnce_bind.
  - specialize (Hrec (Some e)). simpl in Hrec. rewrite Href in Hrec. simpl in Hrec.
    apply Hrec. rewrite <- Htx.
    unfold liftR in He. simpl in He.
    destruct (Tx.Entries (tx vstate) !! ref); by simplify_eq.
  - intros _ _ _. apply keeps_visitsOnce, keeps_liftR.
Qed.

Lemma checkAsset_keeps t' kv : keeps (checkAsset t' kv).
Proof.
  destruct kv as [a n]. unfold checkAsset.
  case_bool_decide; [apply keeps_onGas | apply keeps_liftR].
Qed.

Lemma children_result h r :
  Some r ∈ TxHeader.ResultIds h ->
  Tx.Entries t !! r ∈ children t (TxHeaderEntry h).
Proof.
  intros Hr. simpl. apply list_elem_of_omap. by exists (Some r).
Qed.

Lemma children_gasInput m id e :
  id ∈ Tx.GasInputIDs t -> Tx.Entries t !! id = Some e ->
  Some e ∈ children t (MuxEntry m).
Proof.
  intros Hid He. simpl. apply elem_of_app. left.
  apply list_elem_of_omap. exists id. by rewrite He.
Qed.

Lemma children_source m src c :
  src ∈ Mux.Sources m -> refEntry t src = Some c ->
  c ∈ children t (MuxEntry m).
Proof.
  intros Hsrc Hc. simpl. apply elem_of_app. right.
  apply list_elem_of_omap. by exists src.
Qed.

Lemma refEntry_inGraph src c e :
  refEntry t src = Some c -> c = Some e -> inGraph t root e.
Proof.
  unfold refEntry. destruct src as [s|]; [|done].
  destruct (ValueSource.Ref s) as [ref|]; [|done].
  destruct (Tx.Entries t !! ref) as [e'|] eqn:He; [|done].
  intros [= <-] [= <-]. right. by exists ref.
Qed.

(** The type switch enters no id twice, provided the recursive call does
    not. *)
Lemma checkEntry_visitsOnce rec vs e :
  tx vs = t -> inGraph t root e ->
  descends rank t root (rank (EntryID e)) rec ->
  visitsOnce rank (rank (EntryID e)) (checkEntry rec vs (Some e)).
Proof.
  intros Htx Hin Hrec.
  assert (Hsrc : forall vs' src,
    tx vs' = t ->
    (forall c, refEntry t src = Some c -> c ∈ children t e) ->
    visitsOnce rank (rank (EntryID e)) (checkValidSrc rec vs' src)).
  { intros vs' src Htx' Hchild. apply checkValidSrc_visitsOnce; [done|].
    intros c Hc. apply Hrec; [done| |].
    - intros e' ->. by eapply refEntry_inGraph.
    - apply Hacyclic; [done|]. by apply Hchild. }
  destruct e as [h|m|o|r|i|sp|cb|cl|d|]; unfold checkEntry.
  - (* TxHeader *)
    apply visitsOnce_bind; [|intros; apply keeps_visitsOnce, keeps_liftR].
    apply visitsOnce_forRange. intros _ resID Hres.
    apply visitsOnce_bind; [apply keeps_visitsOnce, keeps_liftR|].
    intros r s Hr. unfold liftR in Hr. simpl in Hr.
    destruct resID as [r'|]; [|done]. injection Hr as ->.
    apply Hrec; [done| |].
    + intros e' He'. right. exists r. by rewrite <- Htx.
    + rewrite Htx. apply Hacyclic; [done|]. by apply children_result.
  - (* Mux *)
    apply visitsOnce_bind; [apply keeps_visitsOnce, keeps_liftR|]. intros parity _ _.
    apply visitsOnce_bind.
    { apply keeps_visitsOnce, keeps_forRange. intros. apply checkAsset_keeps. }
    intros _ _ _. apply visitsOnce_bind.
    { apply visitsOnce_forRange. intros _ id Hid.
      apply visitsOnce_bind; [apply keeps_visitsOnce, keeps_liftR|].
      intros e' s He'. unfold liftR in He'. simpl in He'. rewrite Htx in *.
      destruct (Tx.Entries t !! id) as [e''|] eqn:Eid; [|done]. injection He' as ->.
      apply Hrec; [done| |].
      - intros ? [= <-]. right. by exists id.
      - apply Hacyclic; [done|]. by eapply children_gasInput. }
    intros _ _ _. apply visitsOnce_bind.
    { apply keeps_visitsOnce, keeps_forRange. intros. apply keeps_liftR. }
    intros _ _ _. apply visitsOnce_bind.
    { apply keeps_visitsOnce. case_match; [apply keeps_onGas | by intros s]. }
    intros _ _ _. apply visitsOnce_forRange. intros i src Hin'.
    apply Hsrc; [done|]. intros c Hc. by eapply children_source.
  - (* Output *)
    apply Hsrc; [done|]. intros c Hc. simpl. rewrite Hc. by left.
  - (* Retirement *)
    apply Hsrc; [done|]. intros c Hc. simpl. rewrite Hc. by left.
  - (* Issuance *)
    apply keeps_visitsOnce.
    repeat (apply keeps_bind; [apply keeps_liftR|intros ?]).
    intros s. destruct (vmVerify _ _ _ _ _) as [gasLeft err].
    revert s. apply keeps_bind; [apply keeps_liftR|intros ?].
    apply keeps_bind; [apply keeps_onGas|intros ?]. apply keeps_liftR.
  - (* Spend *)
    apply keeps_visitsOnce.
    repeat (apply keeps_bind; [apply keeps_liftR|intros ?]).
    intros s. destruct (vmVerify _ _ _ _ _) as [gasLeft err].
    revert s. apply keeps_bind; [apply keeps_liftR|intros ?].
    apply keeps_bind; [apply keeps_onGas|intros ?].
    repeat (apply keeps_bind; [apply keeps_liftR|intros ?]). apply keeps_liftR.
  - (* Coinbase *)
    apply keeps_visitsOnce.
    repeat (apply keeps_bind; [apply keeps_liftR|intros ?]). by intros s.
  - (* Claim *)
    apply keeps_visitsOnce.
    repeat (apply keeps_bind; [apply keeps_liftR|intros ?]). by intros s.
  - (* Dpos *)
    apply keeps_visitsOnce. by intros s.
  - apply keeps_visitsOnce. by intros s.
Qed.

Lemma checkEntry_nil_keeps rec vs : keeps (checkEntry rec vs None).
Proof. by intros s. Qed.

Lemma grows_deferred s s1 id v :
  grows (withVisited (id :: visited s) s) s1 ->
  grows s (withCache (<[id := v]> (cache s1)) s1).
Proof.
  intros (new & Hv & Hc & Hm & Ho). simpl in *.
  exists (new ++ [id]). split_and!; simpl.
  - by rewrite Hv, <- (assoc_L (++)).
  - intros y [Hy|Hy%list_elem_of_singleton]%elem_of_app.
    + destruct (decide (y = id)) as [->|Hne];
        [by rewrite lookup_insert_eq | rewrite lookup_insert_ne by done; auto].
    + subst. by rewrite lookup_insert_eq.
  - intros y Hy. destruct (decide (y = id)) as [->|Hne];
      [by rewrite lookup_insert_eq | rewrite lookup_insert_ne by done; auto].
  - intros y Hy. destruct (decide (y = id)) as [->|Hne].
    + right. apply elem_of_app. right. by apply list_elem_of_singleton.
    + rewrite lookup_insert_ne in Hy by done.
      destruct (Ho y Hy); [by left|right]. apply elem_of_app. by left.
Qed.

(** [checkValid], descending below any bound, enters no id twice. *)
Lemma checkValid_descends fuel : forall bound, descends rank t root bound (checkValid fuel).
Proof.
  induction fuel as [|fuel IH]; intros bound vs c Htx Hin Hrank s Hs.
  { simpl. split; [apply Hs|done]. }
  simpl. destruct (cache s !! entryIDOf c) as [err|] eqn:Ec.
  { split; [apply Hs|]. intros _. apply grows_refl. }
  set (id := entryIDOf c) in *. set (s0 := withVisited (id :: visited s) s).
  assert (Hs0 : settledBelow rank (rank id) s0).
  { destruct Hs as [Hnd Hs]. split; simpl.
    - apply NoDup_cons. split; [|done]. intros Hy.
      destruct (Hs id Hy) as [[? Hc]|Hr]; [congruence|lia].
    - intros y [->|Hy]%elem_of_cons; [right; lia|].
      destruct (Hs y Hy) as [Hc|Hr]; [by left|right; lia]. }
  assert (Hbody : visitsOnce rank (rank id) (checkEntry (checkValid fuel) vs c)).
  { destruct c as [e|].
    - apply checkEntry_visitsOnce; [done|by apply Hin|apply IH].
    - apply keeps_visitsOnce, checkEntry_nil_keeps. }
  destruct (Hbody s0 Hs0) as [Hnd Hg].
  destruct (checkEntry (checkValid fuel) vs c s0) as [[u|e| |] s1]; simpl in *.
  - split; [done|]. intros _. by apply grows_deferred, Hg.
  - split; [done|]. intros _. by apply grows_deferred, Hg.
  - done.
  - done.
Qed.

End memo.

(** ** Enough fuel

    The recursion bound of the model is never the outcome when it exceeds the
    rank of the entry the walk starts from. *)

Lemma finishesR_bind {A B} (r : res A) (k : A -> res B) :
  finishesR r -> (forall a, finishesR (k a)) -> finishesR (bindR r k).
Proof. intros Hr Hk. destruct r; simpl; [apply Hk|done..]. Qed.

Lemma finishesR_foldRange {A S} (f : S -> A -> res S) (l : list A) :
  (forall acc a, finishesR (f acc a)) -> forall acc, finishesR (foldRange f acc l).
Proof.
  intros Hf. induction l as [|a l IH]; intros acc; [done|].
  simpl. apply finishesR_bind; [apply Hf|apply IH].
Qed.

Ltac finish_pure :=
  unfold deref, failIf, orRaise, errorOf;
  repeat first
    [ progress intros
    | apply finishesR_bind
    | apply finishesR_foldRange
    | match goal with
      | |- finishesR (match ?x with _ => _ end) => destruct x
      | |- finishesR (if ?b then _ else _) => destruct b
      end
    | (unfold finishesR; discriminate) ].

Lemma checkValidDest_finishes `{Collaborators} vs vd :
  finishesR (checkValidDest vs vd).
Proof. unfold checkValidDest, sourceAt, checkRef. finish_pure. Qed.

Lemma destinationAt_finishes e position : finishesR (destinationAt e position).
Proof. unfold destinationAt. finish_pure. Qed.

Lemma muxParity_finishes t m : finishesR (muxParity t m).
Proof. unfold muxParity, muxAddSource, muxSubDest. finish_pure. Qed.

Lemma Tx_Output_finishes t id : finishesR (Tx_Output t id).
Proof. unfold Tx_Output. finish_pure. Qed.

Lemma IsValidPeginWitness_finishes `{PeginEnv} stack prevout :
  finishesR (IsValidPeginWitness stack prevout).
Proof. unfold IsValidPeginWitness, checkPeginTx. finish_pure. Qed.

Lemma finishes_liftR {A} (r : res A) : finishesR r -> finishes (liftR r).
Proof. by intros Hr s. Qed.

Lemma finishes_onGas f : finishes (onGas f).
Proof. intros s. unfold onGas. by destruct (f (gasStatus s)) as [[e|] g]. Qed.

Lemma finishes_bind {A B} (m : M A) (k : A -> M B) :
  finishes m -> (forall a s, fst (m s) = Val a -> finishes (k a)) ->
  finishes (bindM m k).
Proof.
  intros Hm Hk s. unfold bindM. specialize (Hm s). specialize Hk with (s := s).
  destruct (m s) as [[a|e| |] s1]; simpl in *; try done. by apply Hk.
Qed.

Lemma finishes_forRange {A} (f : Z -> A -> M unit) (l : list A) :
  (forall i a, a ∈ l -> finishes (f i a)) -> forall i, finishes (forRange f i l).
Proof.
  induction l as [|a l IH]; intros Hf i; [by intros s|].
  simpl. apply finishes_bind.
  - apply Hf. by left.
  - intros _ _ _. apply IH. intros j b Hb. apply Hf. by right.
Qed.

Ltac finish_go :=
  repeat first
    [ apply finishes_onGas
    | apply finishes_liftR;
      first [ apply checkValidDest_finishes | apply muxParity_finishes
            | apply Tx_Output_finishes | apply IsValidPeginWitness_finishes
            | finish_pure ]
    | (apply finishes_bind; [|intros ? ? ?]) ].

Section fuel.
Context `{Consensus} `{Collaborators} `{PeginEnv}.
Context (rank : Hash -> nat) (t : Tx.t) (root : Entry).
Hypothesis Hacyclic : acyclic rank t root.

Lemma checkValidSrc_finishes rec vstate src :
  (forall c, refEntry t src = Some c ->
             finishes (rec (withEntryID (default 0%N (src ≫= ValueSource.Ref)) vstate) c)) ->
  tx vstate = t ->
  finishes (checkValidSrc rec vstate src).
Proof.
  intros Hrec Htx. unfold checkValidSrc.
  destruct src as [vs|]; [|by intros s].
  destruct (ValueSource.Ref vs) as [ref|] eqn:Href; [|by intros s].
  apply finishes_bind; [finish_go|]. intros _ _ _.
  apply finishes_bind; [finish_go|]. intros e s He.
  apply finishes_bind.
  - specialize (Hrec (Some e)). simpl in Hrec. rewrite Href in Hrec. simpl in Hrec.
    apply Hrec. rewrite <- Htx. unfold liftR in He. simpl in He.
    destruct (Tx.Entries (tx vstate) !! ref); by simplify_eq.
  - intros _ _ _. apply finishes_liftR.
    apply finishesR_bind; [apply destinationAt_finishes|].
    unfold checkRef. finish_pure.
Qed.

Lemma checkEntry_finishes rec vs e :
  tx vs = t -> inGraph t root e ->
  (forall vs' c, tx vs' = t -> (forall e', c = Some e' -> inGraph t root e') ->
                 (rank (entryIDOf c) < rank (EntryID e))%nat ->
                 finishes (rec vs' c)) ->
  finishes (checkEntry rec vs (Some e)).
Proof.
  intros Htx Hin Hrec.
  assert (Hsrc : forall vs' src,
    tx vs' = t ->
    (forall c, refEntry t src = Some c -> c ∈ children t e) ->
    finishes (checkValidSrc rec vs' src)).
  { intros vs' src Htx' Hchild. apply checkValidSrc_finishes; [|done].
    intros c Hc. apply Hrec; [done| |].
    - intros e' ->. by eapply refEntry_inGraph.
    - apply Hacyclic; [done|]. by apply Hchild. }
  destruct e as [h|m|o|r|i|sp|cb|cl|d|]; unfold checkEntry.
  - apply finishes_bind; [|intros; finish_go].
    apply finishes_forRange. intros _ resID Hres.
    apply finishes_bind; [finish_go|].
    intros r s Hr. unfold liftR in Hr. simpl in Hr.
    destruct resID as [r'|]; [|done]. injection Hr as ->.
    apply Hrec; [done| |].
    + intros e' He'. right. exists r. by rewrite <- Htx.
    + rewrite Htx. apply Hacyclic; [done|]. by apply children_result.
  - apply finishes_bind; [finish_go|]. intros parity _ _.
    apply finishes_bind.
    { apply finishes_forRange. intros _ [a n] _. unfold checkAsset.
      case_bool_decide; finish_go. }
    intros _ _ _. apply finishes_bind.
    { apply finishes_forRange. intros _ id Hid.
      apply finishes_bind; [finish_go|].
      intros e' s He'. unfold liftR in He'. simpl in He'. rewrite Htx in *.
      destruct (Tx.Entries t !! id) as [e''|] eqn:Eid; [|done]. injection He' as ->.
      apply Hrec; [done| |].
      - intros ? [= <-]. right. by exists id.
      - apply Hacyclic; [done|]. by eapply children_gasInput. }
    intros _ _ _. apply finishes_bind.
    { apply finishes_forRange. intros. finish_go. }
    intros _ _ _. apply finishes_bind.
    { case_match; [apply finishes_onGas | by intros s]. }
    intros _ _ _. apply finishes_forRange. intros i src Hin'.
    apply Hsrc; [done|]. intros c Hc. by eapply children_source.
  - apply Hsrc; [done|]. intros c Hc. simpl. rewrite Hc. by left.
  - apply Hsrc; [done|]. intros c Hc. simpl. rewrite Hc. by left.
  - finish_go. intros st. destruct (vmVerify _ _ _ _ _) as [gasLeft err].
    revert st. finish_go.
  - finish_go. intros st. destruct (vmVerify _ _ _ _ _) as [gasLeft err].
    revert st. finish_go.
  - finish_go; try by intros st.
  - finish_go; try by intros st.
  - by intros st.
  - by intros st.
Qed.

Lemma checkValid_finishes fuel : forall vs c,
  tx vs = t -> (forall e, c = Some e -> inGraph t root e) ->
  (rank (entryIDOf c) < fuel)%nat ->
  finishes (checkValid fuel vs c).
Proof.
  induction fuel as [|fuel IH]; intros vs c Htx Hin Hrank s; [lia|].
  simpl. destruct (cache s !! entryIDOf c) as [[err|]|]; [done|done|].
  assert (Hbody : finishes (checkEntry (checkValid fuel) vs c)).
  { destruct c as [e|]; [|by intros s'].
    apply checkEntry_finishes; [done|by apply Hin|].
    intros vs' c' Htx' Hin' Hlt. apply IH; [done|done|]. simpl in Hrank. lia. }
  specialize (Hbody (withVisited (entryIDOf c :: visited s) s)).
  by destruct (checkEntry _ _ _ _) as [[] s1].
Qed.

End fuel.

(** ** Memoization: the claim *)

Section memo_claim.
Context `{Consensus} `{Collaborators} `{PeginEnv}.

(** C9.  On an entry id that is not in the cache, [checkValid] runs the
    type switch and records the outcome it returns under that id; on an
    entry id that is in the cache, it returns the recorded outcome and
    leaves the store (gas state, cache, log of entered checks) as it is;
    hence a later call on the same id returns what the first returned
    without entering the checks again.  In an acyclic graph, a walk started
    on a store whose log is settled enters the checks of no id twice; when
    it returns, the ids whose checks it entered are all in the cache and are
    the only ones added to it; and with fuel above the rank of its root the
    walk does not stop for lack of fuel. *)
Theorem checkValid_memoized :
  (forall fuel vs e s,
     cache s !! entryIDOf e = None ->
     checkValid (S fuel) vs e s
     = deferred (entryIDOf e)
         (checkEntry (checkValid fuel) vs e
            (withVisited (entryIDOf e :: visited s) s))
     /\ forall r s',
          checkValid (S fuel) vs e s = (r, s') ->
          (r = Val tt -> cache s' !! entryIDOf e = Some None)
          /\ (forall err, r = Raise err ->
                          cache s' !! entryIDOf e = Some (Some err))) /\
  (forall fuel vs e s err,
     cache s !! entryIDOf e = Some err ->
     checkValid (S fuel) vs e s = (errorOf err, s)) /\
  (forall fuel fuel' vs vs' e e' s r s',
     entryIDOf e' = entryIDOf e ->
     cache s !! entryIDOf e = None ->
     checkValid (S fuel) vs e s = (r, s') ->
     normal r ->
     checkValid (S fuel') vs' e' s' = (r, s')) /\
  (forall rank fuel vs root s,
     acyclic rank (tx vs) root ->
     NoDup (visited s) ->
     (forall y, y ∈ visited s -> is_Some (cache s !! y)) ->
     NoDup (visited (snd (checkValid fuel vs (Some root) s)))
     /\ (normal (fst (checkValid fuel vs (Some root) s)) ->
         grows s (snd (checkValid fuel vs (Some root) s)))
     /\ ((rank (EntryID root) < fuel)%nat ->
         fst (checkValid fuel vs (Some root) s) <> OutOfFuel)).
Proof.
  assert (Hrecord : forall fuel vs e s r s',
    cache s !! entryIDOf e = None ->
    checkValid (S fuel) vs e s = (r, s') ->
    (r = Val tt -> cache s' !! entryIDOf e = Some None)
    /\ (forall err, r = Raise err -> cache s' !! entryIDOf e = Some (Some err))).
  { intros fuel vs e s r s' Hfresh Hrun. rewrite checkValid_fresh in Hrun by done.
    destruct (checkEntry _ _ _ _) as [[u|err'| |] s1]; simpl in Hrun;
      injection Hrun as <- <-; split; try done.
    - intros _. simpl. by rewrite lookup_insert_eq.
    - intros err [= <-]. simpl. by rewrite lookup_insert_eq. }
  split_and!.
  - intros fuel vs e s Hfresh. split; [by apply checkValid_fresh|].
    intros r s'. by apply Hrecord.
  - intros. by apply checkValid_cached.
  - intros fuel fuel' vs vs' e e' s r s' Hid Hfresh Hrun Hnormal.
    destruct (Hrecord _ _ _ _ _ _ Hfresh Hrun) as [Hval Herr].
    destruct r as [[]|err| |]; try done.
    + rewrite (checkValid_cached fuel' vs' e' s' None); [done|].
      rewrite Hid. by apply Hval.
    + rewrite (checkValid_cached fuel' vs' e' s' (Some err)); [done|].
      rewrite Hid. by apply Herr.
  - intros rank fuel vs root s Hacyclic Hnd Hcached.
    assert (Hwalk :
      NoDup (visited (snd (checkValid fuel vs (Some root) s)))
      /\ (normal (fst (checkValid fuel vs (Some root) s)) ->
          grows s (snd (checkValid fuel vs (Some root) s)))).
    { apply (checkValid_descends rank (tx vs) root Hacyclic fuel
               (S (rank (EntryID root))) vs (Some root)).
      - done.
      - intros e [= <-]. by left.
      - simpl. lia.
      - split; [done|]. intros y Hy. left. by apply Hcached. }
    destruct Hwalk as [Hlog Hgrows]. split_and!; [done|done|].
    intros Hfuel.
    apply (checkValid_finishes rank (tx vs) root Hacyclic fuel vs (Some root));
      [done| |done].
    intros e [= <-]. by left.
Qed.

End memo_claim.

Lemma example_acyclic :
  acyclic (H := exampleCollaborators) exampleRank exampleTx exampleHeader.
Proof.
  assert (Hcases : forall e c,
    e ∈ [exampleHeader; exampleMux; exampleOutput; exampleIssuance] ->
    c ∈ children exampleTx e ->
    (exampleRank (entryIDOf (H := exampleCollaborators) c)
     < exampleRank (exampleEntryID e))%nat).
  { intros e c He Hc.
    repeat (apply elem_of_cons in He as [->|He]); [..|by apply elem_of_nil in He];
      vm_compute in Hc;
      repeat (apply elem_of_cons in Hc as [->|Hc]);
      try (by apply elem_of_nil in Hc); vm_compute; lia. }
  intros e c [->|[k Hk]] Hc; apply Hcases; try done.
  - by left.
  - unfold exampleTx in Hk. simpl in Hk.
    repeat (apply lookup_insert_Some in Hk as [[_ <-]|[_ Hk]];
            [repeat ((by left) || right)|]).
    by rewrite lookup_empty in Hk.
Qed.

Lemma checkValid_memoized_witness :
  NoDup (visited (snd (checkValid (H := exampleParams) (H0 := exampleCollaborators)
                         (H1 := examplePeginEnv) 10 exampleVS (Some exampleHeader)
                         newStore)))
  /\ grows newStore
       (snd (checkValid (H := exampleParams) (H0 := exampleCollaborators)
               (H1 := examplePeginEnv) 10 exampleVS (Some exampleHeader) newStore)).
Proof.
  destruct (proj2 (proj2 (proj2
              (checkValid_memoized (H := exampleParams) (H0 := exampleCollaborators)
                 (H1 := examplePeginEnv))))
              exampleRank 10%nat exampleVS exampleHeader newStore
              example_acyclic (NoDup_nil_2 (A := N))) as (Hnd & Hg & _).
  - intros y Hy. by apply elem_of_nil in Hy.
  - split; [exact Hnd|]. apply Hg. by vm_compute.
Defined.


(** ** Further properties of the validator *)

(** [setGasValid] charges the storage gas: it fails with the gas-calculation
    error when the gas left does not cover it (or a checked operation
    overflows); otherwise the storage gas moves from [GasLeft] to [GasUsed]
    and [GasValid] becomes true. *)
Theorem setGasValid_spec (g : GasState) :
  (~ is_int64 (GasLeft g - StorageGas g) \/ GasLeft g - StorageGas g < 0 ->
   fst (setGasValid g) = Some ErrGasCalculate) /\
  (is_int64 (GasLeft g - StorageGas g) -> 0 <= GasLeft g - StorageGas g ->
   (~ is_int64 (GasUsed g + StorageGas g) ->
    fst (setGasValid g) = Some ErrGasCalculate) /\
   (is_int64 (GasUsed g + StorageGas g) ->
    setGasValid g
    = (None, mkGasState (BTMValue g) (GasLeft g - StorageGas g)
               (GasUsed g + StorageGas g) true (StorageGas g)))).
Proof.
  unfold setGasValid, checked.SubInt64, checked.AddInt64. split.
  - intros [Hout|Hneg].
    + by rewrite exact_overflow.
    + destruct (decide (is_int64 (GasLeft g - StorageGas g))) as [Hin|Hout];
        [rewrite exact_ok by done | by rewrite exact_overflow].
      simpl. by apply Z.ltb_lt in Hneg as ->.
  - intros Hin Hpos. rewrite exact_ok by done. simpl.
    apply Z.ltb_ge in Hpos as ->. simpl. split.
    + intros Hout. by rewrite exact_overflow.
    + intros Hused. by rewrite exact_ok.
Qed.

Lemma setGasValid_spec_witness :
  setGasValid (mkGasState 0 100 7 false 30) = (None, mkGasState 0 70 37 true 30)
  /\ fst (setGasValid (mkGasState 0 10 7 false 30)) = Some ErrGasCalculate.
Proof.
  split.
  - apply (proj2 (setGasValid_spec (mkGasState 0 100 7 false 30)));
      vm_compute; try split; congruence.
  - apply (proj1 (setGasValid_spec (mkGasState 0 10 7 false 30))).
    right. simpl. lia.
Defined.

Section switch.
Context `{Consensus} `{Collaborators} `{PeginEnv}.

(** A delegate entry is accepted without any check, an entry of any other
    type than those of the switch (the nil entry included) is refused as
    unexpected, and a version-1 header without results is refused as empty;
    each outcome is recorded in the cache. *)
Theorem checkValid_plain_cases (fuel : nat) (vs : validationState) (s : Shared) :
  (forall d,
     cache s !! EntryID (DposEntry d) = None ->
     checkValid (S fuel) vs (Some (DposEntry d)) s
     = (Val tt, mkShared (gasStatus s) (<[EntryID (DposEntry d) := None]> (cache s))
                  (EntryID (DposEntry d) :: visited s))) /\
  (forall e,
     e = None \/ e = Some OtherEntry ->
     cache s !! entryIDOf e = None ->
     checkValid (S fuel) vs e s
     = (Raise ErrUnexpectedType,
        mkShared (gasStatus s) (<[entryIDOf e := Some ErrUnexpectedType]> (cache s))
          (entryIDOf e :: visited s))) /\
  (forall h,
     cache s !! EntryID (TxHeaderEntry h) = None ->
     TxHeader.Version h = 1 -> TxHeader.ResultIds h = [] ->
     checkValid (S fuel) vs (Some (TxHeaderEntry h)) s
     = (Raise ErrEmptyResults,
        mkShared (gasStatus s)
          (<[EntryID (TxHeaderEntry h) := Some ErrEmptyResults]> (cache s))
          (EntryID (TxHeaderEntry h) :: visited s))).
Proof.
  split_and!.
  - intros d Hfresh. by rewrite checkValid_fresh.
  - intros e [->| ->] Hfresh; by rewrite checkValid_fresh.
  - intros h Hfresh Hv Hr. rewrite checkValid_fresh by done.
    unfold checkEntry, bindM, liftR. rewrite Hr, Hv. done.
Qed.

End switch.

Lemma checkValid_plain_cases_witness :
  fst (checkValid (H := exampleParams) (H0 := exampleCollaborators)
         (H1 := examplePeginEnv) 1 exampleVS None newStore)
  = Raise ErrUnexpectedType.
Proof.
  by rewrite (proj1 (proj2 (checkValid_plain_cases (H := exampleParams)
                              (H0 := exampleCollaborators) (H1 := examplePeginEnv)
                              0 exampleVS newStore))
                None (or_introl eq_refl) eq_refl).
Defined.

(** Once the amount, the parent transaction, the proof bundle and its block
    header are parsed, a refusal of the merkle check (on the flags it is
    handed) is the error "Merkleblock validation failed". *)
Theorem merkle_check_refusal `{PeginEnv} (w0 w1 w2 w3 w4 : option bytes)
    (prevout : Output.t) (source : ValueSource.t) (value : AssetAmount.t)
    (prog : Program.t) (amount : Z) (rawTx : bytomtypes.Tx)
    (mb : MerkleBlock.t) (header : bytomtypes.BlockHeader) :
  Output.Source prevout = Some source ->
  ValueSource.Value source = Some value ->
  Output.ControlProgram prevout = Some prog ->
  ParseUint (sliceOf w0) = inr amount ->
  MoneyRange amount = true ->
  Tx_UnmarshalText (sliceOf w3) = inr rawTx ->
  json_Unmarshal (sliceOf w4) = inr mb ->
  BlockHeader_UnmarshalText (MerkleBlock.BlockHeader mb) = inr header ->
  ValidateTxMerkleTreeProof (MerkleBlock.TxHashes mb)
    (rangeFlags 0 (MerkleBlock.Flags mb)) (MerkleBlock.MatchedTxIDs mb)
    (bytomtypes.TransactionsMerkleRoot header) = false ->
  IsValidPeginWitness [w0; w1; w2; w3; w4] prevout = Raise ErrMerkleBlock.
Proof.
  intros Hs Hv Hp Hamount Hrange Htx Hmb Hheader Hcheck.
  unfold IsValidPeginWitness. rewrite Hs. simpl. rewrite Hv. simpl.
  rewrite Hp. simpl. rewrite Hamount. simpl. rewrite Hrange. simpl.
  rewrite Htx. simpl. rewrite Hmb. simpl. rewrite Hheader. simpl.
  by rewrite Hcheck.
Qed.

Lemma merkle_check_refusal_witness :
  IsValidPeginWitness (H := examplePeginEnv)
    (peginStack [Byte.x01; Byte.x00; Byte.x01]) peginPrevout
  = Raise ErrMerkleBlock.
Proof.
  exact (merkle_check_refusal (H := examplePeginEnv)
           (Some [Byte.x35]) (Some []) (Some []) (Some [])
           (Some [Byte.x01; Byte.x00; Byte.x01]) peginPrevout
           (ValueSource.mk (Some 7%N) nativeValue 0) (AssetAmount.mk (Some 1%N) 5)
           (Program.mk 1 []) 1 (bytomtypes.mkTx [bytomtypes.mkTxOutput 1 []])
           (MerkleBlock.mk [] [] [] [1; 0; 1] []) (bytomtypes.mkBlockHeader 1 0%N)
           eq_refl eq_refl eq_refl eq_refl eq_refl eq_refl eq_refl eq_refl eq_refl).
Defined.

(** * Further properties of the code *)

(** ** Standardness and the entry point *)

Lemma forEach_cons {A} (f : A -> res unit) x l :
  forEach f (x :: l) = (f x ;; forEach f l)%res.
Proof. unfold forEach. simpl. by destruct (f x) as [[]| | |]. Qed.

Lemma forEach_Val {A} (f : A -> res unit) l :
  forEach f l = Val tt <-> Forall (fun x => f x = Val tt) l.
Proof.
  induction l as [|x l IH]; [by split|].
  rewrite forEach_cons, Forall_cons, <- IH.
  destruct (f x) as [[]| | |]; simpl; split; try done; try by intros [? ?].
Qed.

Lemma forEach_app_Raise {A} (f : A -> res unit) pre x post r :
  Forall (fun y => f y = Val tt) pre -> f x = r -> r <> Val tt ->
  forEach f (pre ++ x :: post) = r.
Proof.
  intros Hpre Hx Hr. induction Hpre as [|y pre Hy _ IH]; simpl.
  - rewrite forEach_cons, Hx. by destruct r as [[]| | |].
  - by rewrite forEach_cons, Hy.
Qed.

Lemma forEach_not_Val {A} (f : A -> res unit) l x :
  x ∈ l -> f x <> Val tt -> forEach f l <> Val tt.
Proof.
  intros Hin Hx Hall%forEach_Val. rewrite Forall_forall in Hall. by apply Hx, Hall.
Qed.

Section standard.
Context `{Consensus} `{Segwit}.

Lemma standardGasInput_Val t id :
  standardGasInput t id = Val tt <-> standardSpend t id.
Proof.
  unfold standardGasInput, standardSpend, Tx_Spend, Tx_Output. split.
  - destruct (Tx.Entries t !! id) as [[]|] eqn:Eid; simpl; try done.
    destruct (Spend.SpentOutputId e) as [oid|] eqn:Eoid; simpl; [|done].
    destruct (Tx.Entries t !! oid) as [[]|] eqn:Eo; simpl; try done.
    destruct (Output.ControlProgram e0) as [prog|] eqn:Ep; simpl; [|done].
    destruct (IsP2WScript (Program.Code prog)) eqn:Ew; simpl; [|done].
    intros _. by exists e, oid, e0, prog.
  - intros (sp & oid & o & prog & -> & Hoid & Ho & Hp & Hw). simpl.
    rewrite Hoid. simpl. rewrite Ho. simpl. rewrite Hp. simpl. by rewrite Hw.
Qed.

Lemma standardResult_Val t rid :
  standardResult t rid = Val tt <-> standardOutput t rid.
Proof.
  unfold standardResult, standardOutput. split.
  - destruct rid as [id|]; simpl; [|done].
    destruct (Tx.Entries t !! id) as [e|] eqn:Eid; simpl; [|done].
    intros Hrun. exists id, e. split; [done|]. split; [done|].
    destruct e as [| |o| | | | | | |]; try done.
    destruct (Output.Source o) as [source|] eqn:Es; simpl in *; [|done].
    destruct (ValueSource.Value source) as [value|] eqn:Ev; simpl in *; [|done].
    destruct (AssetAmount.AssetId value) as [assetId|] eqn:Ea; simpl in *; [|done].
    exists source, value, assetId. split_and!; try done.
    intros ->. rewrite bool_decide_eq_true_2 in Hrun by done. simpl in Hrun.
    destruct (Output.ControlProgram o) as [prog|] eqn:Ep; simpl in *; [|done].
    exists prog. split; [done|].
    by destruct (IsP2WScript (Program.Code prog)).
  - intros (id & e & -> & Hid & He). simpl. rewrite Hid. simpl.
    destruct e as [| |o| | | | | | |]; try done.
    destruct He as (source & value & assetId & -> & Hv & Ha & Hprog). simpl.
    rewrite Hv. simpl. rewrite Ha. simpl.
    case_bool_decide as Hbtm; simpl; [|done].
    destruct (Hprog Hbtm) as (prog & -> & Hw). simpl. by rewrite Hw.
Qed.

Lemma standardGasInput_errors t id err :
  standardGasInput t id = Raise err ->
  err ∈ [ErrMissingEntry; ErrEntryType; ErrNotStandardTx].
Proof.
  unfold standardGasInput, Tx_Spend, Tx_Output, deref, failIf.
  repeat (case_match; simpl; try done);
    intros [= <-]; set_solver.
Qed.

Lemma standardResult_errors t rid err :
  standardResult t rid = Raise err ->
  err ∈ [ErrMissingEntry; ErrEntryType; ErrNotStandardTx].
Proof.
  unfold standardResult, deref, failIf.
  repeat (case_match; simpl; try done);
    intros [= <-]; set_solver.
Qed.

Lemma forEach_Raise {A} (f : A -> res unit) l err :
  forEach f l = Raise err -> exists x, x ∈ l /\ f x = Raise err.
Proof.
  induction l as [|x l IH]; [done|]. rewrite forEach_cons.
  destruct (f x) as [[]|e| |] eqn:Ex; simpl; try done.
  - intros (y & Hy & Hf)%IH. exists y. split; [by right|done].
  - intros [= ->]. exists x. split; [by left|done].
Qed.

Lemma checkStandardTx_Val (tx : bc.Tx.t) :
  checkStandardTx tx = Val tt <->
  Forall (standardSpend (graphTx tx)) (bc.Tx.GasInputIDs tx)
  /\ exists h, bc.Tx.TxHeader tx = Some h
               /\ Forall (standardOutput (graphTx tx)) (bc.TxHeader.ResultIds h).
Proof.
  unfold checkStandardTx.
  rewrite <- (Forall_iff _ _ _ (standardGasInput_Val (graphTx tx))).
  rewrite <- forEach_Val.
  destruct (forEach _ (bc.Tx.GasInputIDs tx)) as [[]| | |]; simpl;
    try (split; [done|by intros [? _]]).
  destruct (bc.Tx.TxHeader tx) as [h|]; simpl.
  - rewrite forEach_Val, (Forall_iff _ _ _ (standardResult_Val (graphTx tx))).
    split; [intros ?; split; [done|by exists h] | by intros [_ (h' & [= <-] & ?)]].
  - split; [done|by intros [_ (h' & ? & _)]].
Qed.

(** The standardness check accepts exactly the transactions whose gas inputs
    are all spends of outputs with a segregated-witness program and whose
    results are all entries of the transaction, the outputs of the native
    asset among them carrying a segregated-witness program; it returns no
    other errors than a missing entry, a wrong entry type and "not
    standard". *)
Theorem checkStandardTx_accepts (tx : bc.Tx.t) :
  (checkStandardTx tx = Val tt <->
   Forall (standardSpend (graphTx tx)) (bc.Tx.GasInputIDs tx)
   /\ exists h, bc.Tx.TxHeader tx = Some h
                /\ Forall (standardOutput (graphTx tx)) (bc.TxHeader.ResultIds h)) /\
  (forall err, checkStandardTx tx = Raise err ->
               err ∈ [ErrMissingEntry; ErrEntryType; ErrNotStandardTx]).
Proof.
  split; [apply checkStandardTx_Val|]. unfold checkStandardTx.
  - intros err.
    destruct (forEach _ (bc.Tx.GasInputIDs tx)) as [[]|e| |] eqn:Egas; simpl; try done.
    + destruct (bc.Tx.TxHeader tx) as [h|]; simpl; [|done].
      intros (x & _ & Hx)%forEach_Raise. by eapply standardResult_errors.
    + intros [= <-]. apply forEach_Raise in Egas as (x & _ & Hx).
      by eapply standardGasInput_errors.
Qed.

End standard.
Section entry.
Context `{Consensus} `{Collaborators} `{PeginEnv} `{Segwit}.

Lemma wrongVersion_test bh h :
  (bc.BlockHeader.Version bh =? 1) && negb (bc.TxHeader.Version h =? 1) = true
  <-> wrongVersion bh h.
Proof.
  unfold wrongVersion. rewrite andb_true_iff, negb_true_iff, Z.eqb_eq, Z.eqb_neq. done.
Qed.

Lemma checkTimeRange_present tx b bh h :
  bc.Block.BlockHeader b = Some bh -> bc.Tx.TxHeader tx = Some h ->
  checkTimeRange tx (Some b)
  = failIf ((negb (bc.TxHeader.TimeRange h =? 0))
            && (bc.TxHeader.TimeRange h <? bc.BlockHeader.Height bh)) ErrBadTimeRange.
Proof.
  intros Hbh Hh. unfold checkTimeRange. rewrite Hh. simpl.
  destruct (bc.TxHeader.TimeRange h =? 0); [done|]. simpl. by rewrite Hbh.
Qed.

Lemma badTimeRange_test bh h :
  (negb (bc.TxHeader.TimeRange h =? 0))
  && (bc.TxHeader.TimeRange h <? bc.BlockHeader.Height bh) = true
  <-> badTimeRange bh h.
Proof.
  unfold badTimeRange. rewrite andb_true_iff, negb_true_iff, Z.eqb_neq, Z.ltb_lt. done.
Qed.

(** [ValidateTx] with block and header present, as a ladder. *)
Lemma ValidateTx_present fuel tx b bh h :
  bc.Block.BlockHeader b = Some bh -> bc.Tx.TxHeader tx = Some h ->
  ValidateTx fuel tx (Some b)
  = if (bc.BlockHeader.Version bh =? 1) && negb (bc.TxHeader.Version h =? 1)
    then Val (freshGas, Some ErrTxVersion)
    else if bc.TxHeader.SerializedSize h =? 0
    then Val (freshGas, Some ErrWrongTransactionSize)
    else if (negb (bc.TxHeader.TimeRange h =? 0))
            && (bc.TxHeader.TimeRange h <? bc.BlockHeader.Height bh)
    then Val (freshGas, Some ErrBadTimeRange)
    else match checkStandardTx tx with
         | Raise err => Val (freshGas, Some err)
         | Panic => Panic
         | OutOfFuel => OutOfFuel
         | Val _ =>
             match checkValid fuel (rootVS tx b) (Some (headerEntry h)) newStore with
             | (Val _, s) => Val (gasStatus s, None)
             | (Raise err, s) => Val (gasStatus s, Some err)
             | (Panic, _) => Panic
             | (OutOfFuel, _) => OutOfFuel
             end
         end.
Proof.
  intros Hbh Hh. unfold ValidateTx. simpl. rewrite Hbh. simpl. rewrite Hh. simpl.
  rewrite (checkTimeRange_present tx b bh h Hbh Hh).
  destruct (bc.BlockHeader.Version bh =? 1); simpl;
    [destruct (bc.TxHeader.Version h =? 1); simpl; [|done]|];
    (destruct (bc.TxHeader.SerializedSize h =? 0); [done|]);
    by destruct (_ && _).
Qed.

(** The checks [ValidateTx] makes before the walk, in their order: a nil
    block, or a block or a transaction without header, is a panic; then on a
    version 1 block a transaction of another version is refused with
    [ErrTxVersion], a transaction of serialized size 0 with
    [ErrWrongTransactionSize], a nonzero time range below the height of the
    block with [ErrBadTimeRange], then the error of the standardness check is
    returned; each of these returns the fresh gas state.  Past them the
    outcome is that of the walk from the header on a fresh store, with the gas
    state the walk leaves. *)
Theorem ValidateTx_prechecks (fuel : nat) (tx : bc.Tx.t) (b : bc.Block.t)
    (bh : bc.BlockHeader.t) (h : bc.TxHeader.t) :
  let run := ValidateTx fuel tx (Some b) in
  ValidateTx fuel tx None = Panic /\
  (bc.Block.BlockHeader b = None -> run = Panic) /\
  (bc.Block.BlockHeader b = Some bh ->
   (bc.Tx.TxHeader tx = None -> run = Panic) /\
   (bc.Tx.TxHeader tx = Some h ->
    (wrongVersion bh h -> run = Val (freshGas, Some ErrTxVersion)) /\
    (~ wrongVersion bh h ->
     (bc.TxHeader.SerializedSize h = 0 ->
      run = Val (freshGas, Some ErrWrongTransactionSize)) /\
     (bc.TxHeader.SerializedSize h <> 0 ->
      (badTimeRange bh h -> run = Val (freshGas, Some ErrBadTimeRange)) /\
      (~ badTimeRange bh h ->
       (forall err, checkStandardTx tx = Raise err ->
                    run = Val (freshGas, Some err)) /\
       (checkStandardTx tx = Val tt ->
        forall r s,
          checkValid fuel (rootVS tx b) (Some (headerEntry h)) newStore = (r, s) ->
          (r = Val tt -> run = Val (gasStatus s, None)) /\
          (forall err, r = Raise err -> run = Val (gasStatus s, Some err)) /\
          (r = Panic -> run = Panic))))))).
Proof.
  intros run. split; [done|].
  split; [intros Hbh; subst run; unfold ValidateTx; simpl; by rewrite Hbh|].
  intros Hbh. split.
  { intros Hh. subst run. unfold ValidateTx. simpl. rewrite Hbh. simpl. rewrite Hh.
    simpl. by destruct (bc.BlockHeader.Version bh =? 1). }
  intros Hh. subst run. rewrite (ValidateTx_present fuel tx b bh h Hbh Hh).
  split; [by intros ->%wrongVersion_test|].
  intros Hv. destruct (_ && negb _) eqn:Ev; [by apply wrongVersion_test in Ev|].
  split; [by intros ->%Z.eqb_eq|]. intros ->%Z.eqb_neq.
  split; [by intros ->%badTimeRange_test|].
  intros Ht. destruct (negb _ && _) eqn:Et; [by apply badTimeRange_test in Et|].
  split; [by intros err ->|]. intros ->. intros r s ->.
  split_and!; [by intros ->|by intros err ->|by intros ->].
Qed.

End entry.

Lemma ValidateTx_prechecks_witness :
  ValidateTx (H := exampleParams) (H0 := exampleCollaborators) (H1 := examplePeginEnv)
    (H2 := exampleSegwit) 10 emptySizeTx (Some exampleBcBlock)
  = Val (freshGas, Some ErrWrongTransactionSize).
Proof.
  destruct (ValidateTx_prechecks (H := exampleParams) (H0 := exampleCollaborators)
              (H1 := examplePeginEnv) (H2 := exampleSegwit) 10 emptySizeTx
              exampleBcBlock (bc.BlockHeader.mk 1 0)
              (bc.NewTxHeader 1 0 None 0 [Some 3%N] false))
    as (_ & _ & Hpresent).
  destruct (Hpresent eq_refl) as [_ Hheader].
  destruct (Hheader eq_refl) as [_ Hversion].
  destruct Hversion as [Hsize _]; [by intros [_ ?]|].
  by apply Hsize.
Defined.

Section entry_standard.
Context `{Consensus} `{Collaborators} `{PeginEnv} `{Segwit}.

(** A gas input that is a spend of an output whose control program has no
    segregated-witness form makes the standardness check fail, so that
    [ValidateTx] never accepts the transaction, whatever else it holds; when
    the gas inputs before it are standard the check's error is
    [ErrNotStandardTx], which [ValidateTx] returns beside the fresh gas state
    once its version, size and time-range checks are passed. *)
Theorem ValidateTx_standardness (tx : bc.Tx.t) (pre post : list Hash) (id oid : Hash)
    (sp : Spend.t) (o : Output.t) (prog : Program.t) :
  bc.Tx.GasInputIDs tx = pre ++ id :: post ->
  bc.Tx.Entries tx !! id = Some (SpendEntry sp) ->
  Spend.SpentOutputId sp = Some oid ->
  bc.Tx.Entries tx !! oid = Some (OutputEntry o) ->
  Output.ControlProgram o = Some prog ->
  IsP2WScript (Program.Code prog) = false ->
  checkStandardTx tx <> Val tt /\
  (forall fuel block g, ValidateTx fuel tx block <> Val (g, None)) /\
  (Forall (standardSpend (graphTx tx)) pre ->
   checkStandardTx tx = Raise ErrNotStandardTx /\
   forall fuel b bh h,
     bc.Block.BlockHeader b = Some bh -> bc.Tx.TxHeader tx = Some h ->
     ~ wrongVersion bh h -> bc.TxHeader.SerializedSize h <> 0 ->
     ~ badTimeRange bh h ->
     ValidateTx fuel tx (Some b) = Val (freshGas, Some ErrNotStandardTx)).
Proof.
  intros Hgas Hid Hoid Ho Hprog Hw.
  assert (Hbad : standardGasInput (graphTx tx) id = Raise ErrNotStandardTx).
  { unfold standardGasInput, Tx_Spend, Tx_Output. simpl. rewrite Hid. simpl.
    rewrite Hoid. simpl. rewrite Ho. simpl. rewrite Hprog. simpl. by rewrite Hw. }
  assert (Hno : checkStandardTx tx <> Val tt).
  { unfold checkStandardTx.
    destruct (forEach _ (bc.Tx.GasInputIDs tx)) as [[]| | |] eqn:Eloop; try done.
    exfalso. eapply (forEach_not_Val _ _ id); [| |exact Eloop].
    - rewrite Hgas. set_solver.
    - by rewrite Hbad. }
  split; [done|]. split.
  - intros fuel block g. destruct block as [b|]; [|done].
    destruct (bc.Block.BlockHeader b) as [bh|] eqn:Hbh;
      [|by unfold ValidateTx; simpl; rewrite Hbh].
    destruct (bc.Tx.TxHeader tx) as [h|] eqn:Hh; cycle 1.
    { unfold ValidateTx. simpl. rewrite Hbh. simpl. rewrite Hh. simpl.
      by destruct (bc.BlockHeader.Version bh =? 1). }
    rewrite (ValidateTx_present fuel tx b bh h Hbh Hh).
    destruct (_ && negb _); [done|]. destruct (_ =? 0); [done|].
    destruct (negb _ && _); [done|].
    by destruct (checkStandardTx tx) as [[]| | |].
  - intros Hpre.
    assert (Hrun : checkStandardTx tx = Raise ErrNotStandardTx).
    { unfold checkStandardTx. rewrite Hgas.
      rewrite (forEach_app_Raise _ pre id post (Raise ErrNotStandardTx)); try done.
      eapply Forall_impl; [exact Hpre|]. intros x. by apply standardGasInput_Val. }
    split; [done|]. intros fuel b bh h Hbh Hh Hv Hsize Ht.
    rewrite (ValidateTx_present fuel tx b bh h Hbh Hh), Hrun.
    destruct (_ && negb _) eqn:Ev; [by apply wrongVersion_test in Ev|].
    apply Z.eqb_neq in Hsize as ->.
    by destruct (negb _ && _) eqn:Et; [apply badTimeRange_test in Et|].
Qed.

End entry_standard.

Lemma ValidateTx_standardness_witness :
  ValidateTx (H := exampleParams) (H0 := exampleCollaborators) (H1 := examplePeginEnv)
    (H2 := exampleSegwit) 10 nonStandardTx (Some exampleBcBlock)
  = Val (freshGas, Some ErrNotStandardTx).
Proof.
  destruct (ValidateTx_standardness (H := exampleParams) (H0 := exampleCollaborators)
              (H1 := examplePeginEnv) (H2 := exampleSegwit) nonStandardTx [] [] 6%N 3%N
              (Spend.mk (Some 3%N) None []) peginPrevout (Program.mk 1 [])
              eq_refl eq_refl eq_refl eq_refl eq_refl eq_refl)
    as (_ & _ & Hfirst).
  destruct (Hfirst (Forall_nil_2 _)) as [_ Hrun].
  apply (Hrun 10%nat exampleBcBlock (bc.BlockHeader.mk 1 0) exampleTxHeader);
    try done.
  - by intros [_ ?].
  - by intros [? _].
Defined.
(** ** Recorded outcomes are never overwritten *)

Lemma keeps_stable {A} (m : M A) : keeps m -> stable m.
Proof. intros Hk s y v Hy. destruct (Hk s) as [-> _]. done. Qed.

Lemma stable_bind {A B} (m : M A) (k : A -> M B) :
  stable m -> (forall a, stable (k a)) -> stable (bindM m k).
Proof.
  intros Hm Hk s y v Hy. unfold bindM. specialize (Hm s y v Hy).
  destruct (m s) as [[a|e| |] s1]; simpl in *; try done. by apply Hk.
Qed.

Lemma stable_forRange {A} (f : Z -> A -> M unit) (l : list A) :
  (forall i a, stable (f i a)) -> forall i, stable (forRange f i l).
Proof.
  intros Hf. induction l as [|a l IH]; intros i; [by intros s|].
  simpl. apply stable_bind; [apply Hf | intros _; apply IH].
Qed.

Section stable.
Context `{Consensus} `{Collaborators} `{PeginEnv}.

Lemma checkValidSrc_stable rec vstate src :
  (forall vs c, stable (rec vs c)) -> stable (checkValidSrc rec vstate src).
Proof.
  intros Hrec. unfold checkValidSrc.
  destruct src as [vs|]; [|by intros s].
  destruct (ValueSource.Ref vs) as [ref|]; [|by intros s].
  apply stable_bind; [apply keeps_stable, keeps_liftR|intros _].
  apply stable_bind; [apply keeps_stable, keeps_liftR|intros e].
  apply stable_bind; [apply Hrec|intros _]. apply keeps_stable, keeps_liftR.
Qed.

Lemma checkEntry_stable rec vs e :
  (forall vs c, stable (rec vs c)) -> stable (checkEntry rec vs e).
Proof.
  intros Hrec. destruct e as [[h|m|o|r|i|sp|cb|cl|d|]|]; unfold checkEntry.
  - apply stable_bind; [|intros; apply keeps_stable, keeps_liftR].
    apply stable_forRange. intros _ resID.
    apply stable_bind; [apply keeps_stable, keeps_liftR|intros ?]. apply Hrec.
  - apply stable_bind; [apply keeps_stable, keeps_liftR|intros parity].
    apply stable_bind.
    { apply keeps_stable, keeps_forRange. intros. apply checkAsset_keeps. }
    intros _. apply stable_bind.
    { apply stable_forRange. intros _ id.
      apply stable_bind; [apply keeps_stable, keeps_liftR|intros ?]. apply Hrec. }
    intros _. apply stable_bind.
    { apply keeps_stable, keeps_forRange. intros. apply keeps_liftR. }
    intros _. apply stable_bind.
    { apply keeps_stable. case_match; [apply keeps_onGas | by intros s]. }
    intros _. apply stable_forRange. intros i src. by apply checkValidSrc_stable.
  - by apply checkValidSrc_stable.
  - by apply checkValidSrc_stable.
  - apply keeps_stable.
    repeat (apply keeps_bind; [apply keeps_liftR|intros ?]).
    intros s. destruct (vmVerify _ _ _ _ _) as [gasLeft err].
    revert s. apply keeps_bind; [apply keeps_liftR|intros ?].
    apply keeps_bind; [apply keeps_onGas|intros ?]. apply keeps_liftR.
  - apply keeps_stable.
    repeat (apply keeps_bind; [apply keeps_liftR|intros ?]).
    intros s. destruct (vmVerify _ _ _ _ _) as [gasLeft err].
    revert s. apply keeps_bind; [apply keeps_liftR|intros ?].
    apply keeps_bind; [apply keeps_onGas|intros ?].
    repeat (apply keeps_bind; [apply keeps_liftR|intros ?]). apply keeps_liftR.
  - apply keeps_stable.
    repeat (apply keeps_bind; [apply keeps_liftR|intros ?]). by intros s.
  - apply keeps_stable.
    repeat (apply keeps_bind; [apply keeps_liftR|intros ?]). by intros s.
  - by intros s.
  - by intros s.
  - by intros s.
Qed.

Lemma checkValid_stable fuel : forall vs e, stable (checkValid fuel vs e).
Proof.
  induction fuel as [|fuel IH]; intros vs e s y v Hy; [done|].
  simpl. destruct (cache s !! entryIDOf e) as [err|] eqn:Ec; [done|].
  assert (Hne : y <> entryIDOf e) by (intros ->; congruence).
  pose proof (checkEntry_stable (checkValid fuel) vs e IH
                (withVisited (entryIDOf e :: visited s) s) y v Hy) as Hbody.
  destruct (checkEntry _ _ _ _) as [[u|err| |] s1]; simpl in *; try done;
    by rewrite lookup_insert_ne.
Qed.

(** What a returning call leaves in the cache for its entry. *)
Lemma checkValid_records fuel vs e s r s' :
  checkValid fuel vs e s = (r, s') ->
  (r = Val tt -> cache s' !! entryIDOf e = Some None)
  /\ (forall err, r = Raise err -> cache s' !! entryIDOf e = Some (Some err)).
Proof.
  destruct fuel as [|fuel]; [by intros [= <- <-]|]. simpl.
  destruct (cache s !! entryIDOf e) as [[err|]|] eqn:Ec.
  - intros [= <- <-]. simpl. split; [done|]. by intros ? [= <-].
  - by intros [= <- <-].
  - destruct (checkEntry _ _ _ _) as [[u|err'| |] s1]; simpl;
      intros [= <- <-]; split; try done.
    + intros _. simpl. by rewrite lookup_insert_eq.
    + intros err [= <-]. simpl. by rewrite lookup_insert_eq.
Qed.

(** An outcome recorded in the cache is never overwritten: whatever walk
    [checkValid] makes (cyclic graphs included), the outcomes that were
    recorded before it are recorded after it, so a later call on such an
    entry still returns the outcome recorded first and changes nothing. *)
Theorem checkValid_cache_stable (fuel fuel' : nat) (vs vs' : validationState)
    (e e' : option Entry) (s : Shared) (err : option error) :
  cache s !! entryIDOf e = Some err ->
  let s' := snd (checkValid fuel vs' e' s) in
  cache s' !! entryIDOf e = Some err
  /\ checkValid (S fuel') vs e s' = (errorOf err, s').
Proof.
  intros Hc s'.
  assert (Hc' : cache s' !! entryIDOf e = Some err) by by apply checkValid_stable.
  split; [done|]. by apply checkValid_cached.
Qed.

End stable.

Lemma checkValid_cache_stable_witness :
  let s := mkShared freshGas (<[3%N := Some ErrMismatchedValue]> ∅) [] in
  let s' := snd (checkValid (H := exampleParams) (H0 := exampleCollaborators)
                   (H1 := examplePeginEnv) 10 exampleVS (Some exampleHeader) s) in
  checkValid (H := exampleParams) (H0 := exampleCollaborators) (H1 := examplePeginEnv)
    1 outputVS (Some exampleOutput) s' = (Raise ErrMismatchedValue, s').
Proof.
  intros s s'.
  exact (proj2 (checkValid_cache_stable (H := exampleParams) (H0 := exampleCollaborators)
                  (H1 := examplePeginEnv) 10 0 outputVS exampleVS (Some exampleOutput)
                  (Some exampleHeader) s (Some ErrMismatchedValue) eq_refl)).
Defined.
Section accepted.
Context `{Consensus} `{Collaborators} `{PeginEnv} `{Segwit}.

Lemma bindM_Val_inv {A B} (m : M A) (k : A -> M B) s b s' :
  bindM m k s = (Val b, s') ->
  exists a s1, m s = (Val a, s1) /\ k a s1 = (Val b, s').
Proof.
  unfold bindM. destruct (m s) as [[a|e| |] s1]; try done. intros Hk. by exists a, s1.
Qed.

(** The results of a header whose loop over them went through are recorded
    as valid. *)
Lemma results_recorded fuel vs (l : list (option Hash)) : forall i s s1,
  forRange (fun _ resID =>
              resID <- liftR (deref resID) ;;
              checkValid fuel (withEntryID resID vs) (Tx.Entries (tx vs) !! resID))%go
           i l s = (Val tt, s1) ->
  Forall (fun rid => exists r, rid = Some r
            /\ cache s1 !! entryIDOf (Tx.Entries (tx vs) !! r) = Some None) l.
Proof.
  induction l as [|rid l IH]; intros i s s1 Hrun; [done|].
  simpl in Hrun. apply bindM_Val_inv in Hrun as ([] & s2 & Hhead & Hrest).
  apply bindM_Val_inv in Hhead as (r & s3 & Hr & Hcall).
  unfold liftR in Hr. destruct rid as [r'|]; [|done]. simpl in Hr.
  injection Hr as <- <-.
  apply Forall_cons. split; [|by eapply IH].
  exists r'. split; [done|].
  apply checkValid_records in Hcall as [Hval _].
  match type of Hrest with
  | ?loop s2 = _ =>
      assert (Hst : stable loop);
      [apply stable_forRange; intros _ resID;
       apply stable_bind; [apply keeps_stable, keeps_liftR|intros r];
       apply checkValid_stable|]
  end.
  specialize (Hst s2 _ _ (Hval eq_refl)). by rewrite Hrest in Hst.
Qed.

Lemma header_accepted fuel vs (e : TxHeader.t) s s' :
  cache s !! EntryID (TxHeaderEntry e) = None ->
  checkValid fuel vs (Some (TxHeaderEntry e)) s = (Val tt, s') ->
  (TxHeader.Version e = 1 -> TxHeader.ResultIds e <> [])
  /\ Forall (fun rid => exists r, rid = Some r
               /\ cache s' !! entryIDOf (Tx.Entries (tx vs) !! r) = Some None)
            (TxHeader.ResultIds e).
Proof.
  intros Hfresh Hrun. destruct fuel as [|fuel]; [done|].
  rewrite checkValid_fresh in Hrun by done.
  destruct (checkEntry _ _ _ _) as [[[]| | |] s1] eqn:Ebody; try done.
  simpl in Hrun. injection Hrun as <-.
  unfold checkEntry in Ebody.
  apply bindM_Val_inv in Ebody as ([] & s2 & Hloop & Hlast).
  unfold liftR in Hlast.
  destruct (_ && _) eqn:Eempty; [done|]. injection Hlast as ->.
  split.
  - intros Hv Hnil. rewrite Hv, Hnil in Eempty. done.
  - apply results_recorded in Hloop.
    eapply Forall_impl; [exact Hloop|]. intros rid (r & -> & Hc).
    exists r. split; [done|]. simpl.
    destruct (decide (entryIDOf (Tx.Entries (tx vs) !! r) = EntryID (TxHeaderEntry e)))
      as [->|Hne]; [by rewrite lookup_insert_eq | by rewrite lookup_insert_ne].
Qed.

(** When [ValidateTx] accepts, the block, its header and the header of the
    transaction are present, the version, size and time-range rules hold,
    the transaction is standard, the walk from the header on a fresh store
    returned nil and left the gas state that is returned, a header of version
    1 has at least one result, and every result is an entry of the
    transaction whose successful validation the cache of the walk records.
    These conditions are also sufficient. *)
Theorem ValidateTx_accepted (fuel : nat) (tx : bc.Tx.t) (block : option bc.Block.t)
    (g : GasState) :
  ValidateTx fuel tx block = Val (g, None) <->
  exists b bh h s,
    block = Some b /\ bc.Block.BlockHeader b = Some bh
    /\ bc.Tx.TxHeader tx = Some h
    /\ ~ wrongVersion bh h
    /\ bc.TxHeader.SerializedSize h <> 0
    /\ ~ badTimeRange bh h
    /\ Forall (standardSpend (graphTx tx)) (bc.Tx.GasInputIDs tx)
    /\ Forall (standardOutput (graphTx tx)) (bc.TxHeader.ResultIds h)
    /\ checkValid fuel (rootVS tx b) (Some (headerEntry h)) newStore = (Val tt, s)
    /\ g = gasStatus s
    /\ (bc.TxHeader.Version h = 1 -> bc.TxHeader.ResultIds h <> [])
    /\ Forall (fun rid => exists r e,
                 rid = Some r /\ bc.Tx.Entries tx !! r = Some e
                 /\ cache s !! EntryID e = Some None)
              (bc.TxHeader.ResultIds h).
Proof.
  split.
  - destruct block as [b|]; [|done].
    destruct (bc.Block.BlockHeader b) as [bh|] eqn:Hbh;
      [|by unfold ValidateTx; simpl; rewrite Hbh].
    destruct (bc.Tx.TxHeader tx) as [h|] eqn:Hh; cycle 1.
    { unfold ValidateTx. simpl. rewrite Hbh. simpl. rewrite Hh. simpl.
      by destruct (bc.BlockHeader.Version bh =? 1). }
    rewrite (ValidateTx_present fuel tx b bh h Hbh Hh).
    destruct (_ && negb _) eqn:Ev; [done|].
    destruct (_ =? 0) eqn:Es; [done|].
    destruct (negb _ && _) eqn:Et; [done|].
    destruct (checkStandardTx tx) as [[]| | |] eqn:Estd; try done.
    destruct (checkValid _ _ _ _) as [[[]| | |] s] eqn:Ewalk; try done.
    intros [= <-].
    apply checkStandardTx_Val in Estd as (Hgas & h' & Hh' & Hres).
    rewrite Hh in Hh'. injection Hh' as <-.
    destruct (header_accepted fuel (rootVS tx b)
                (TxHeader.mk (bc.TxHeader.Version h) (bc.TxHeader.ResultIds h))
                newStore s) as [Hone Hrec];
      [done|exact Ewalk|].
    exists b, bh, h, s. split_and!; try done.
    + intros Hw%wrongVersion_test. congruence.
    + by apply Z.eqb_neq.
    + intros Hb%badTimeRange_test. congruence.
    + rewrite Forall_forall in Hres, Hrec. apply Forall_forall. intros rid Hrid.
      destruct (Hrec rid Hrid) as (r & -> & Hc).
      destruct (Hres _ Hrid) as (id & e & [= <-] & He & _).
      exists r, e. split_and!; try done. simpl in Hc, He.
      by rewrite He in Hc.
  - intros (b & bh & h & s & -> & Hbh & Hh & Hv & Hs & Ht & Hgas & Hres & Hwalk & -> & _).
    rewrite (ValidateTx_present fuel tx b bh h Hbh Hh).
    destruct (_ && negb _) eqn:Ev; [by apply wrongVersion_test in Ev|].
    apply Z.eqb_neq in Hs as ->.
    destruct (negb _ && _) eqn:Et; [by apply badTimeRange_test in Et|].
    rewrite (proj2 (checkStandardTx_Val tx)), Hwalk; [done|].
    split; [done|]. by exists h.
Qed.

(** In an acyclic graph, with fuel above the rank of the header, the bound
    of the model is never the outcome of [ValidateTx]: the call returns or
    panics. *)
Theorem ValidateTx_finishes (rank : Hash -> nat) (fuel : nat) (tx : bc.Tx.t)
    (block : option bc.Block.t) :
  (forall h, bc.Tx.TxHeader tx = Some h ->
             acyclic rank (graphTx tx) (headerEntry h)
             /\ (rank (EntryID (headerEntry h)) < fuel)%nat) ->
  ValidateTx fuel tx block <> OutOfFuel.
Proof.
  intros Hgraph. destruct block as [b|]; [|done].
  destruct (bc.Block.BlockHeader b) as [bh|] eqn:Hbh;
    [|by unfold ValidateTx; simpl; rewrite Hbh].
  destruct (bc.Tx.TxHeader tx) as [h|] eqn:Hh; cycle 1.
  { unfold ValidateTx. simpl. rewrite Hbh. simpl. rewrite Hh. simpl.
    by destruct (bc.BlockHeader.Version bh =? 1). }
  rewrite (ValidateTx_present fuel tx b bh h Hbh Hh).
  destruct (_ && negb _); [done|]. destruct (_ =? 0); [done|].
  destruct (negb _ && _); [done|].
  destruct (checkStandardTx tx) as [[]| | |] eqn:Estd; try done.
  - destruct (Hgraph h eq_refl) as [Hacyclic Hfuel].
    pose proof (checkValid_finishes rank (graphTx tx) (headerEntry h) Hacyclic fuel
                  (rootVS tx b) (Some (headerEntry h))) as Hfin.
    specialize (Hfin eq_refl).
    destruct (checkValid _ _ _ _) as [[[]| | |] s] eqn:Ewalk; try done.
    exfalso. refine (Hfin _ Hfuel newStore _); [|by rewrite Ewalk].
    intros e [= <-]. by left.
  - exfalso. revert Estd. unfold checkStandardTx, forEach.
    unfold standardGasInput, standardResult, Tx_Spend, Tx_Output.
    apply finishesR_bind; [finish_pure|]. intros _.
    apply finishesR_bind; [finish_pure|]. intros h'. finish_pure.
Qed.

End accepted.

Lemma ValidateTx_accepted_witness :
  exists s,
    checkValid (H := exampleParams) (H0 := exampleCollaborators) (H1 := examplePeginEnv)
      10 (rootVS exampleBcTx exampleBcBlock) (Some (headerEntry exampleTxHeader))
      newStore = (Val tt, s)
    /\ cache s !! 3%N = Some None.
Proof.
  destruct (proj1 (ValidateTx_accepted (H := exampleParams) (H0 := exampleCollaborators)
                     (H1 := examplePeginEnv) (H2 := exampleSegwit)
                     10 exampleBcTx (Some exampleBcBlock) freshGas) eq_refl)
    as (b & bh & h & s & [= <-] & [= <-] & [= <-] & _ & _ & _ & _ & _ & Hwalk & _ & _ & Hres).
  exists s. split; [exact Hwalk|].
  apply Forall_cons in Hres as [(r & e & [= <-] & He & Hc) _].
  vm_compute in He. injection He as <-. exact Hc.
Defined.

Lemma ValidateTx_finishes_witness :
  ValidateTx (H := exampleParams) (H0 := exampleCollaborators) (H1 := examplePeginEnv)
    (H2 := exampleSegwit) 4 exampleBcTx (Some exampleBcBlock) <> OutOfFuel.
Proof.
  apply (ValidateTx_finishes (H := exampleParams) (H0 := exampleCollaborators)
           (H1 := examplePeginEnv) (H2 := exampleSegwit) exampleRank).
  intros h [= <-]. split; [exact example_acyclic | vm_compute; lia].
Defined.

(** ** Issuance and spend *)

Section programs.
Context `{Consensus} `{Collaborators} `{PeginEnv}.

(** An issuance not yet in the cache: the asset id computed from the asset
    definition is compared with the declared one before the issuance program
    runs ([ErrMismatchedAssetID], the gas state untouched); an error of the
    program is returned, the gas state untouched; otherwise the gas the
    program left is charged by [updateUsage], whose error is returned beside
    the updated meter; then the destination edge is checked at slot 0.  Every
    outcome is recorded in the cache. *)
Theorem issuance_rule (fuel : nat) (vs : validationState) (e : Issuance.t)
    (s : Shared) (def : AssetDefinition.t) (value : AssetAmount.t)
    (assetId : AssetID) :
  let id := EntryID (IssuanceEntry e) in
  let run := checkValid (S fuel) vs (Some (IssuanceEntry e)) s in
  let failed g err :=
    (Raise err, mkShared g (<[id := Some err]> (cache s)) (id :: visited s)) in
  let verdict :=
    vmVerify vs (IssuanceEntry e) (AssetDefinition.IssuanceProgram def)
      (Issuance.WitnessArguments e) (GasLeft (gasStatus s)) in
  let charged := updateUsage (gasStatus s) (fst verdict) in
  cache s !! id = None ->
  Issuance.WitnessAssetDefinition e = Some def ->
  Issuance.Value e = Some value ->
  AssetAmount.AssetId value = Some assetId ->
  (ComputeAssetID def <> assetId ->
   run = failed (gasStatus s) ErrMismatchedAssetID) /\
  (ComputeAssetID def = assetId ->
   (forall err, snd verdict = Some err -> run = failed (gasStatus s) err) /\
   (snd verdict = None ->
    (forall err, fst charged = Some err -> run = failed (snd charged) err) /\
    (fst charged = None ->
     (forall err,
        checkValidDest (withDestPos 0 vs) (Issuance.WitnessDestination e) = Raise err ->
        run = failed (snd charged) err) /\
     (checkValidDest (withDestPos 0 vs) (Issuance.WitnessDestination e) = Val tt ->
      run = (Val tt, mkShared (snd charged) (<[id := None]> (cache s))
                              (id :: visited s)))))).
Proof.
  intros id run failed verdict charged Hfresh Hdef Hvalue Hasset.
  subst run. rewrite checkValid_fresh by done.
  unfold checkEntry, bindM, liftR. rewrite Hdef. simpl. rewrite Hvalue. simpl.
  rewrite Hasset. simpl.
  split; [intros Hne; by rewrite bool_decide_eq_false_2|].
  intros Heq. rewrite bool_decide_eq_true_2 by done. simpl.
  subst charged verdict. destruct (vmVerify _ _ _ _ _) as [gasLeft verr]. simpl.
  split; [by intros err ->|]. intros ->. simpl. unfold onGas. simpl.
  destruct (updateUsage (gasStatus s) gasLeft) as [uerr g']. simpl.
  split; [by intros err ->|]. intros ->. simpl.
  split; [by intros err ->|]. by intros ->.
Qed.

(** A spend not yet in the cache: a nil spent output id is
    [ErrMissingField], an id that does not resolve to an output of the
    transaction is the error of the lookup; then the control program of the
    spent output runs and its gas is charged, before the values are compared:
    an error of the program leaves the gas state untouched, an error of
    [updateUsage] and every later failure come with the meter updated; the
    value of the spent output's source must equal the value of the spend's
    destination ([ErrMismatchedValue]; the error of the comparison when an
    operand or an asset id is absent), and last the destination edge is
    checked at slot 0. *)
Theorem spend_rule (fuel : nat) (vs : validationState) (e : Spend.t) (s : Shared)
    (spentOutputId : Hash) (spentOutput : Output.t) (source : ValueSource.t)
    (dest : ValueDestination.t) :
  let id := EntryID (SpendEntry e) in
  let run := checkValid (S fuel) vs (Some (SpendEntry e)) s in
  let failed g err :=
    (Raise err, mkShared g (<[id := Some err]> (cache s)) (id :: visited s)) in
  let verdict :=
    vmVerify vs (SpendEntry e) (Output.ControlProgram spentOutput)
      (Spend.WitnessArguments e) (GasLeft (gasStatus s)) in
  let charged := updateUsage (gasStatus s) (fst verdict) in
  cache s !! id = None ->
  (Spend.SpentOutputId e = None -> run = failed (gasStatus s) ErrMissingField) /\
  (Spend.SpentOutputId e = Some spentOutputId ->
   (forall err, Tx_Output (tx vs) spentOutputId = Raise err ->
                run = failed (gasStatus s) err) /\
   (Tx_Output (tx vs) spentOutputId = Val spentOutput ->
    (forall err, snd verdict = Some err -> run = failed (gasStatus s) err) /\
    (snd verdict = None ->
     (forall err, fst charged = Some err -> run = failed (snd charged) err) /\
     (fst charged = None ->
      Output.Source spentOutput = Some source ->
      Spend.WitnessDestination e = Some dest ->
      (AssetAmount_Equal (ValueSource.Value source) (ValueDestination.Value dest) = None ->
       run = failed (snd charged) ErrEmptyAssetAmount) /\
      (AssetAmount_Equal (ValueSource.Value source) (ValueDestination.Value dest)
       = Some false ->
       run = failed (snd charged) ErrMismatchedValue) /\
      (sameValue (ValueSource.Value source) (ValueDestination.Value dest) ->
       (forall err, checkValidDest (withDestPos 0 vs) (Some dest) = Raise err ->
                    run = failed (snd charged) err) /\
       (checkValidDest (withDestPos 0 vs) (Some dest) = Val tt ->
        run = (Val tt, mkShared (snd charged) (<[id := None]> (cache s))
                                (id :: visited s)))))))).
Proof.
  intros id run failed verdict charged Hfresh.
  subst run. rewrite checkValid_fresh by done.
  unfold checkEntry, bindM, liftR.
  split; [by intros ->|]. intros ->. simpl.
  split; [by intros err ->|]. intros ->. simpl.
  subst charged verdict. destruct (vmVerify _ _ _ _ _) as [gasLeft verr]. simpl.
  split; [by intros err ->|]. intros ->. simpl. unfold onGas. simpl.
  destruct (updateUsage (gasStatus s) gasLeft) as [uerr g']. simpl.
  split; [by intros err ->|]. intros -> -> Hdest. rewrite Hdest. simpl.
  split; [by intros ->|]. split; [by intros ->|].
  intros ->%AssetAmount_Equal_true. simpl.
  split; [by intros err ->|]. by intros ->.
Qed.

End programs.

(** ** Accepted claims, outputs and retirements *)

Lemma IsValidPeginWitness_Val_length `{PeginEnv} stack prevout :
  IsValidPeginWitness stack prevout = Val tt -> Z.of_nat (length stack) = 5.
Proof.
  intros Hrun. destruct (decide (Z.of_nat (length stack) = 5)) as [|Hne]; [done|].
  rewrite IsValidPeginWitness_short in Hrun by done.
  destruct (Output.Source prevout) as [source|]; [simpl in Hrun|done].
  destruct (ValueSource.Value source); [simpl in Hrun|done].
  by destruct (Output.ControlProgram prevout).
Qed.

Section sinks.
Context `{Consensus} `{Collaborators} `{PeginEnv}.

(** A claim not yet in the cache is accepted exactly when its spent output
    id resolves to an output of the transaction that has a source, its
    witness stack holds exactly five elements, the second of them present,
    the peg-in verifier accepts the stack, the value of the spent output's
    source is the value of the claim's destination, and the destination edge
    checks at slot 0; the call then sets [GasValid], changes nothing else of
    the gas state, and records the success. *)
Theorem claim_accepted (fuel : nat) (vs : validationState) (e : Claim.t)
    (s s' : Shared) :
  let id := EntryID (ClaimEntry e) in
  cache s !! id = None ->
  (checkValid (S fuel) vs (Some (ClaimEntry e)) s = (Val tt, s') <->
   exists spentOutputId spentOutput source dest,
     Claim.SpentOutputId e = Some spentOutputId
     /\ Tx_Output (tx vs) spentOutputId = Val spentOutput
     /\ Z.of_nat (length (Claim.Peginwitness e)) = 5
     /\ (exists w1, Claim.Peginwitness e !! 1%nat = Some (Some w1))
     /\ Output.Source spentOutput = Some source
     /\ IsValidPeginWitness (Claim.Peginwitness e) spentOutput = Val tt
     /\ Claim.WitnessDestination e = Some dest
     /\ sameValue (ValueSource.Value source) (ValueDestination.Value dest)
     /\ checkValidDest (withDestPos 0 vs) (Some dest) = Val tt
     /\ s' = mkShared (setGasValidFlag true (gasStatus s))
                      (<[id := None]> (cache s)) (id :: visited s)).
Proof.
  intros id Hfresh. rewrite checkValid_fresh by done.
  unfold checkEntry, bindM, liftR.
  remember (checkValidDest (withDestPos 0 vs) (Claim.WitnessDestination e)) as edge
    eqn:Eedge.
  split.
  - destruct (Claim.SpentOutputId e) as [oid|] eqn:Eoid; [simpl|done].
    destruct (Tx_Output (tx vs) oid) as [o| | |] eqn:Eo; simpl; try done.
    destruct (_ || _) eqn:Eguard; [done|]. simpl.
    apply orb_false_iff in Eguard as [[Elen E1]%orb_false_iff Esrc].
    apply bool_decide_eq_false in E1, Esrc.
    destruct (IsValidPeginWitness _ o) as [[]| | |] eqn:Epeg; simpl; try done.
    destruct (Output.Source o) as [source|] eqn:Es; [simpl|done].
    destruct (Claim.WitnessDestination e) as [dest|] eqn:Ed; [simpl|done].
    destruct (AssetAmount_Equal _ _) as [[|]|] eqn:Eeq; simpl; try done.
    destruct edge as [[]| | |]; simpl; try done.
    intros [= <-]. exists oid, o, source, dest.
    split_and!; try done.
    + by eapply IsValidPeginWitness_Val_length.
    + destruct (Claim.Peginwitness e !! 1%nat) as [[w1|]|] eqn:Ew; [by exists w1|done|].
      apply lookup_ge_None in Ew. apply Z.ltb_ge in Elen. lia.
    + by apply AssetAmount_Equal_true.
  - intros (oid & o & source & dest & -> & -> & Hlen & (w1 & Hw1) & Hs & -> & Hd & Heq
            & Hdest & ->). simpl.
    rewrite Hd, Hdest in Eedge. subst edge.
    rewrite Hlen, Hw1, Hs, Hd. simpl. by apply AssetAmount_Equal_true in Heq as ->.
Qed.

(** The entries a value source may refer to. *)
Lemma destinationAt_producer e position dest :
  destinationAt e position = Val dest -> producer e.
Proof. by destruct e. Qed.

Lemma sink_accepted fuel vs e osrc s s' :
  cache s !! entryIDOf e = None ->
  checkEntry (checkValid fuel) vs e = checkValidSrc (checkValid fuel) (withSourcePos 0 vs) osrc ->
  checkValid (S fuel) vs e s = (Val tt, s') ->
  exists src ref e' dest,
    osrc = Some src /\ ValueSource.Ref src = Some ref
    /\ Tx.Entries (tx vs) !! ref = Some e'
    /\ producer e'
    /\ destinationAt e' (ValueSource.Position src) = Val (Some dest)
    /\ refersBack (entryID vs) 0 (ValueSource.Value src)
         (ValueDestination.Ref dest) (ValueDestination.Position dest)
         (ValueDestination.Value dest)
    /\ cache s' !! EntryID e' = Some None.
Proof.
  intros Hfresh Hbody Hrun. rewrite checkValid_fresh in Hrun by done.
  rewrite Hbody in Hrun.
  destruct (checkValidSrc _ _ _ _) as [[[]| | |] s1] eqn:Esrc; try done.
  simpl in Hrun. injection Hrun as <-.
  pose proof (checkValidSrc_Val_inv (checkValid fuel) (withSourcePos 0 vs) osrc
                (withVisited (entryIDOf e :: visited s) s)) as Hinv.
  rewrite Esrc in Hinv.
  destruct (Hinv eq_refl) as (src & ref & e' & dest & s2 & -> & Href & Hhas & He' & Hrec
                              & Hdest & Hback).
  exists src, ref, e', dest. split_and!; try done.
  - by eapply destinationAt_producer.
  - rewrite (checkValidSrc_resolved _ _ src ref e' _ Href Hhas He'), Hrec in Esrc.
    injection Esrc as _ <-.
    apply checkValid_records in Hrec as [Hval _]. specialize (Hval eq_refl).
    simpl in *. destruct (decide (EntryID e' = entryIDOf e)) as [->|Hne];
      [by rewrite lookup_insert_eq | by rewrite lookup_insert_ne].
Qed.

(** An output or a retirement not yet in the cache is accepted only when its
    source refers to an entry of the transaction that produces value (a
    coinbase, an issuance, a spend, a mux, a claim or a delegate entry: never
    an output, a retirement or a header), whose destination at the source's
    position refers back to the current entry id at slot 0 with the same
    value, and whose own validation the cache records as successful. *)
Theorem sink_rule (fuel : nat) (vs : validationState) (e : Entry)
    (osrc : option ValueSource.t) (s s' : Shared) :
  sinkSource e = Some osrc ->
  cache s !! EntryID e = None ->
  checkValid (S fuel) vs (Some e) s = (Val tt, s') ->
  exists src ref e' dest,
    osrc = Some src /\ ValueSource.Ref src = Some ref
    /\ Tx.Entries (tx vs) !! ref = Some e'
    /\ producer e'
    /\ destinationAt e' (ValueSource.Position src) = Val (Some dest)
    /\ refersBack (entryID vs) 0 (ValueSource.Value src)
         (ValueDestination.Ref dest) (ValueDestination.Position dest)
         (ValueDestination.Value dest)
    /\ cache s' !! EntryID e' = Some None.
Proof.
  intros Hsink Hfresh Hrun.
  apply (sink_accepted fuel vs (Some e) osrc s s'); [done| |done].
  destruct e; try done; by injection Hsink as <-.
Qed.

End sinks.

Lemma issuance_rule_witness :
  checkValid (H := exampleParams) (H0 := exampleCollaborators) (H1 := examplePeginEnv)
    1 issuanceVS (Some (IssuanceEntry issuance7)) newStore
  = (Val tt, mkShared (mkGasState 0 0 0 false 0) (<[5%N := None]> ∅) [5%N]).
Proof.
  destruct (issuance_rule (H := exampleParams) (H0 := exampleCollaborators)
              (H1 := examplePeginEnv) 0 issuanceVS issuance7 newStore
              (AssetDefinition.mk None None) (AssetAmount.mk (Some 7%N) 5) 7%N
              eq_refl eq_refl eq_refl eq_refl) as [_ Hsame].
  destruct (Hsame eq_refl) as [_ Hran].
  destruct (Hran eq_refl) as [_ Hcharged].
  destruct (Hcharged eq_refl) as [_ Hedge].
  exact (Hedge eq_refl).
Defined.

Lemma spend_rule_witness :
  fst (checkValid (H := exampleParams) (H0 := exampleCollaborators)
         (H1 := examplePeginEnv) 1 spendVS (Some (SpendEntry greedySpend)) newStore)
  = Raise ErrMismatchedValue.
Proof.
  destruct (spend_rule (H := exampleParams) (H0 := exampleCollaborators)
              (H1 := examplePeginEnv) 0 spendVS greedySpend newStore 3%N peginPrevout
              (ValueSource.mk (Some 7%N) nativeValue 0)
              (ValueDestination.mk (Some 2%N) exampleValue 0) eq_refl)
    as [_ Hid].
  destruct (Hid eq_refl) as [_ Hout].
  destruct (Hout eq_refl) as [_ Hran].
  destruct (Hran eq_refl) as [_ Hcharged].
  destruct (Hcharged eq_refl eq_refl eq_refl) as (_ & Hdiff & _).
  by rewrite (Hdiff eq_refl).
Defined.

Lemma claim_accepted_witness :
  checkValid (H := exampleParams) (H0 := exampleCollaborators) (H1 := examplePeginEnv)
    1 claimVS (Some (ClaimEntry fullClaim)) newStore
  = (Val tt, mkShared (mkGasState 0 0 0 true 0) (<[8%N := None]> ∅) [8%N]).
Proof.
  apply (claim_accepted (H := exampleParams) (H0 := exampleCollaborators)
           (H1 := examplePeginEnv) 0 claimVS fullClaim newStore); [done|].
  exists 3%N, peginPrevout, (ValueSource.mk (Some 7%N) nativeValue 0),
    (ValueDestination.mk (Some 2%N) nativeValue 0).
  split_and!; try by vm_compute.
  - by exists [].
  - by exists 1%N, 5.
Defined.

Lemma sink_rule_witness :
  exists s',
    checkValid (H := exampleParams) (H0 := exampleCollaborators) (H1 := examplePeginEnv)
      5 outputVS (Some exampleOutput) newStore = (Val tt, s')
    /\ cache s' !! 2%N = Some None.
Proof.
  eexists. split; [by vm_compute|].
  destruct (sink_rule (H := exampleParams) (H0 := exampleCollaborators)
              (H1 := examplePeginEnv) 4 outputVS exampleOutput
              (Some outputSource) newStore _ eq_refl eq_refl eq_refl)
    as (src & ref & e' & dest & [= <-] & [= <-] & He' & _ & _ & _ & Hc).
  vm_compute in He'. injection He' as <-. exact Hc.
Defined.

(** ** Headers *)

Lemma forRange_const_index {A} (f : A -> M unit) (l : list A) : forall i j,
  forRange (fun _ => f) i l = forRange (fun _ => f) j l.
Proof.
  induction l as [|x l IH]; intros i j; [done|]. simpl. by rewrite (IH (i + 1) (j + 1)).
Qed.

Lemma forRange_const_app {A} (f : A -> M unit) (l1 l2 : list A) : forall i s,
  forRange (fun _ => f) i (l1 ++ l2) s
  = match forRange (fun _ => f) i l1 s with
    | (Val _, s1) => forRange (fun _ => f) i l2 s1
    | other => other
    end.
Proof.
  induction l1 as [|x l1 IH]; intros i s; [done|].
  change ((x :: l1) ++ l2) with (x :: (l1 ++ l2)).
  cbn [forRange]. unfold bindM. destruct (f x s) as [[[]|e| |] s1]; try done.
  rewrite IH. by rewrite (forRange_const_index f l2 (i + 1) i).
Qed.

(** A loop that stops at the element after [pre]. *)
Lemma forRange_stops {A} (f : A -> M unit) (k : unit -> M unit)
    (pre post : list A) (x : A) s0 s1 r s2 :
  forRange (fun _ => f) 0 pre s0 = (Val tt, s1) ->
  f x s1 = (r, s2) -> (forall u, r <> Val u) ->
  bindM (forRange (fun _ => f) 0 (pre ++ x :: post)) k s0 = (r, s2).
Proof.
  intros Hpre Hx Hr. unfold bindM at 1. rewrite forRange_const_app, Hpre.
  cbn [forRange]. unfold bindM. rewrite Hx.
  destruct r as [u| | |]; [by destruct (Hr u)|done..].
Qed.

Section headers.
Context `{Consensus} `{Collaborators} `{PeginEnv}.

(** A header not yet in the cache visits its results in order and stops at
    the first that does not validate: a nil result id is a panic; the error
    of a result is the error of the header, recorded under the header's id,
    and the results after it are not visited; a result id without entry in
    the transaction is visited as the nil entry, refused as an entry of
    unexpected type and recorded under the zero hash. *)
Theorem header_first_failure (fuel : nat) (vs : validationState) (e : TxHeader.t)
    (s s1 : Shared) (pre post : list (option Hash)) (rid : option Hash) :
  let id := EntryID (TxHeaderEntry e) in
  let run := checkValid (S fuel) vs (Some (TxHeaderEntry e)) s in
  cache s !! id = None ->
  TxHeader.ResultIds e = pre ++ rid :: post ->
  forRange (fun _ => visitResult fuel vs) 0 pre (withVisited (id :: visited s) s)
  = (Val tt, s1) ->
  (rid = None -> run = (Panic, s1)) /\
  (forall r err s2,
     rid = Some r ->
     checkValid fuel (withEntryID r vs) (Tx.Entries (tx vs) !! r) s1 = (Raise err, s2) ->
     run = (Raise err, withCache (<[id := Some err]> (cache s2)) s2)) /\
  (forall r fuel',
     rid = Some r -> fuel = S fuel' ->
     Tx.Entries (tx vs) !! r = None -> cache s1 !! 0%N = None ->
     run = (Raise ErrUnexpectedType,
            mkShared (gasStatus s1)
              (<[id := Some ErrUnexpectedType]>
                 (<[0%N := Some ErrUnexpectedType]> (cache s1)))
              (0%N :: visited s1))).
Proof.
  intros id run Hfresh Hids Hpre. subst run.
  rewrite checkValid_fresh by done.
  change (entryIDOf (Some (TxHeaderEntry e))) with id.
  assert (Hstop : forall r s2,
    visitResult fuel vs rid s1 = (r, s2) -> (forall u, r <> Val u) ->
    checkEntry (checkValid fuel) vs (Some (TxHeaderEntry e))
      (withVisited (id :: visited s) s) = (r, s2)).
  { intros r s2 Hvisit Hr. unfold checkEntry. rewrite Hids.
    by apply (forRange_stops (visitResult fuel vs) _ pre post rid _ s1). }
  split_and!.
  - intros ->. by rewrite (Hstop Panic s1).
  - intros r err s2 -> Hcall. by rewrite (Hstop (Raise err) s2).
  - intros r fuel' -> -> Hnone Hzero.
    rewrite (Hstop (Raise ErrUnexpectedType)
               (mkShared (gasStatus s1) (<[0%N := Some ErrUnexpectedType]> (cache s1))
                         (0%N :: visited s1))); [done| |done].
    unfold visitResult, bindM, liftR. simpl deref. cbv iota beta.
    rewrite Hnone. by rewrite checkValid_fresh.
Qed.

End headers.

Lemma header_first_failure_witness :
  checkValid (H := exampleParams) (H0 := exampleCollaborators) (H1 := examplePeginEnv)
    2 exampleVS (Some (TxHeaderEntry (TxHeader.mk 1 [Some 4%N]))) newStore
  = (Raise ErrUnexpectedType,
     mkShared (mkGasState 0 0 0 false 0)
       (<[1%N := Some ErrUnexpectedType]> (<[0%N := Some ErrUnexpectedType]> ∅))
       [0%N; 1%N]).
Proof.
  destruct (header_first_failure (H := exampleParams) (H0 := exampleCollaborators)
              (H1 := examplePeginEnv) 1 exampleVS (TxHeader.mk 1 [Some 4%N]) newStore
              (withVisited [1%N] newStore) [] [] (Some 4%N) eq_refl eq_refl eq_refl)
    as (_ & _ & Hdangling).
  exact (Hdangling 4%N 0%nat eq_refl eq_refl eq_refl eq_refl).
Defined.

(** ** The flag [GasValid] *)

Lemma keepsGasValid_bind {A B} (m : M A) (k : A -> M B) :
  keepsGasValid m -> (forall a, keepsGasValid (k a)) -> keepsGasValid (bindM m k).
Proof.
  intros Hm Hk s Hs. unfold bindM. specialize (Hm s Hs).
  destruct (m s) as [[a|e| |] s1]; simpl in *; try done. by apply Hk.
Qed.

Lemma keepsGasValid_forRange {A} (f : Z -> A -> M unit) (l : list A) :
  (forall i a, keepsGasValid (f i a)) -> forall i, keepsGasValid (forRange f i l).
Proof.
  intros Hf. induction l as [|a l IH]; intros i; [by intros s|].
  simpl. apply keepsGasValid_bind; [apply Hf | intros _; apply IH].
Qed.

Lemma keepsGasValid_liftR {A} (r : res A) : keepsGasValid (liftR r).
Proof. by intros s. Qed.

Lemma sameGasValid_bind {A B} (m : M A) (k : A -> M B) :
  sameGasValid m -> (forall a, sameGasValid (k a)) -> sameGasValid (bindM m k).
Proof.
  intros Hm Hk s. unfold bindM. specialize (Hm s).
  destruct (m s) as [[a|e| |] s1]; simpl in *; try done. by rewrite Hk.
Qed.

Lemma sameGasValid_forRange {A} (f : Z -> A -> M unit) (l : list A) :
  (forall i a, a ∈ l -> sameGasValid (f i a)) ->
  forall i, sameGasValid (forRange f i l).
Proof.
  induction l as [|a l IH]; intros Hf i; [by intros s|].
  simpl. apply sameGasValid_bind; [apply Hf; by left|].
  intros _. apply IH. intros j b Hb. apply Hf. by right.
Qed.

Lemma sameGasValid_liftR {A} (r : res A) : sameGasValid (liftR r).
Proof. by intros s. Qed.

Lemma sameGasValid_keeps {A} (m : M A) : sameGasValid m -> keepsGasValid m.
Proof. intros Hm s Hs. by rewrite Hm. Qed.

Lemma setGas_GasValid `{Consensus} g btm size :
  GasValid (snd (setGas g btm size)) = GasValid g
  /\ GasUsed (snd (setGas g btm size)) = GasUsed g.
Proof.
  unfold setGas. destruct (btm <? 0); [done|].
  destruct (checked.DivInt64 btm VMGasRate) as [q ok]. destruct ok; simpl; [|done].
  destruct (checked.MulInt64 size StorageGasRate) as [p ok].
  by destruct ok, (q >? MaxGasAmount).
Qed.

Lemma updateUsage_GasValid `{Consensus} g gasLeft :
  GasValid (snd (updateUsage g gasLeft)) = GasValid g.
Proof.
  unfold updateUsage. destruct (gasLeft <? 0); [done|].
  destruct (checked.SubInt64 (GasLeft g) gasLeft) as [u ok]. destruct ok; [|done].
  simpl. by destruct (negb (GasValid g) && _).
Qed.

Lemma setGasValid_GasValid g :
  GasValid g = true -> GasValid (snd (setGasValid g)) = true.
Proof.
  intros Hg. unfold setGasValid.
  destruct (checked.SubInt64 (GasLeft g) (StorageGas g)) as [d ok]. simpl.
  destruct (negb ok || (d <? 0)); [done|].
  destruct (checked.AddInt64 (GasUsed g) (StorageGas g)) as [u ok']. simpl.
  by destruct ok'.
Qed.

Section flag.
Context `{Consensus} `{Collaborators} `{PeginEnv}.

Lemma sameGasValid_setGas size amount :
  sameGasValid (onGas (fun g => setGas g amount size)).
Proof.
  intros s. unfold onGas. pose proof (setGas_GasValid (gasStatus s) amount size) as [Hg _].
  by destruct (setGas _ _ _) as [[e|] g].
Qed.

Lemma sameGasValid_updateUsage gasLeft :
  sameGasValid (onGas (fun g => updateUsage g gasLeft)).
Proof.
  intros s. unfold onGas. pose proof (updateUsage_GasValid (gasStatus s) gasLeft) as Hg.
  by destruct (updateUsage _ _) as [[e|] g].
Qed.

Lemma keepsGasValid_setGasValid : keepsGasValid (onGas setGasValid).
Proof.
  intros s Hs. unfold onGas. pose proof (setGasValid_GasValid (gasStatus s) Hs) as Hg.
  by destruct (setGasValid _) as [[e|] g].
Qed.

Lemma sameGasValid_checkAsset t kv : sameGasValid (checkAsset t kv).
Proof.
  destruct kv as [a n]. unfold checkAsset.
  case_bool_decide; [apply sameGasValid_setGas | apply sameGasValid_liftR].
Qed.

Lemma checkValidSrc_sameGasValid rec vstate src :
  (forall c, refEntry (tx vstate) src = Some c ->
             sameGasValid (rec (withEntryID (default 0%N (src ≫= ValueSource.Ref)) vstate) c)) ->
  sameGasValid (checkValidSrc rec vstate src).
Proof.
  intros Hrec. unfold checkValidSrc.
  destruct src as [vs|]; [|by intros s].
  destruct (ValueSource.Ref vs) as [ref|] eqn:Href; [|by intros s].
  apply sameGasValid_bind; [apply sameGasValid_liftR|intros _].
  intros s. unfold bindM at 1, liftR at 1.
  destruct (Tx.Entries (tx vstate) !! ref) as [e|] eqn:He; [|done].
  revert s. apply sameGasValid_bind; [|intros _; apply sameGasValid_liftR].
  specialize (Hrec (Some e)). simpl in Hrec. rewrite Href, He in Hrec. simpl in Hrec.
  by apply Hrec.
Qed.

Lemma checkValidSrc_keepsGasValid rec vstate src :
  (forall vs c, keepsGasValid (rec vs c)) ->
  keepsGasValid (checkValidSrc rec vstate src).
Proof.
  intros Hrec. unfold checkValidSrc.
  destruct src as [vs|]; [|by intros s].
  destruct (ValueSource.Ref vs) as [ref|]; [|by intros s].
  apply keepsGasValid_bind; [apply keepsGasValid_liftR|intros _].
  apply keepsGasValid_bind; [apply keepsGasValid_liftR|intros e].
  apply keepsGasValid_bind; [apply Hrec|intros _]. apply keepsGasValid_liftR.
Qed.

Lemma checkEntry_keepsGasValid rec vs e :
  (forall vs c, keepsGasValid (rec vs c)) -> keepsGasValid (checkEntry rec vs e).
Proof.
  intros Hrec. destruct e as [[h|m|o|r|i|sp|cb|cl|d|]|]; unfold checkEntry.
  - apply keepsGasValid_bind; [|intros; apply keepsGasValid_liftR].
    apply keepsGasValid_forRange. intros _ resID.
    apply keepsGasValid_bind; [apply keepsGasValid_liftR|intros ?]. apply Hrec.
  - apply keepsGasValid_bind; [apply keepsGasValid_liftR|intros parity].
    apply keepsGasValid_bind.
    { apply keepsGasValid_forRange. intros. apply sameGasValid_keeps, sameGasValid_checkAsset. }
    intros _. apply keepsGasValid_bind.
    { apply keepsGasValid_forRange. intros _ id.
      apply keepsGasValid_bind; [apply keepsGasValid_liftR|intros ?]. apply Hrec. }
    intros _. apply keepsGasValid_bind.
    { apply keepsGasValid_forRange. intros. apply keepsGasValid_liftR. }
    intros _. apply keepsGasValid_bind.
    { case_match; [apply keepsGasValid_setGasValid | by intros s]. }
    intros _. apply keepsGasValid_forRange. intros i src.
    by apply checkValidSrc_keepsGasValid.
  - by apply checkValidSrc_keepsGasValid.
  - by apply checkValidSrc_keepsGasValid.
  - repeat (apply keepsGasValid_bind; [apply keepsGasValid_liftR|intros ?]).
    intros s. destruct (vmVerify _ _ _ _ _) as [gasLeft err].
    revert s. apply keepsGasValid_bind; [apply keepsGasValid_liftR|intros ?].
    apply keepsGasValid_bind; [apply sameGasValid_keeps, sameGasValid_updateUsage|intros ?].
    apply keepsGasValid_liftR.
  - repeat (apply keepsGasValid_bind; [apply keepsGasValid_liftR|intros ?]).
    intros s. destruct (vmVerify _ _ _ _ _) as [gasLeft err].
    revert s. apply keepsGasValid_bind; [apply keepsGasValid_liftR|intros ?].
    apply keepsGasValid_bind; [apply sameGasValid_keeps, sameGasValid_updateUsage|intros ?].
    repeat (apply keepsGasValid_bind; [apply keepsGasValid_liftR|intros ?]).
    apply keepsGasValid_liftR.
  - repeat (apply keepsGasValid_bind; [apply keepsGasValid_liftR|intros ?]). by intros s.
  - repeat (apply keepsGasValid_bind; [apply keepsGasValid_liftR|intros ?]). by intros s.
  - by intros s.
  - by intros s.
  - by intros s.
Qed.

Lemma deferred_gasStatus id r :
  gasStatus (snd (deferred id r)) = gasStatus (snd r).
Proof. by destruct r as [[] s]. Qed.

Lemma checkValid_keepsGasValid fuel : forall vs e, keepsGasValid (checkValid fuel vs e).
Proof.
  induction fuel as [|fuel IH]; intros vs e s Hs; [done|].
  simpl. destruct (cache s !! entryIDOf e); [done|].
  rewrite deferred_gasStatus.
  by apply (checkEntry_keepsGasValid (checkValid fuel) vs e IH).
Qed.

(** [GasValid] is never reset: whatever [checkValid] visits and whatever
    the outcome, a gas state that was valid before the call is valid after
    it. *)
Theorem gasValid_never_reset (fuel : nat) (vs : validationState) (e : option Entry)
    (s : Shared) :
  GasValid (gasStatus s) = true ->
  GasValid (gasStatus (snd (checkValid fuel vs e s))) = true.
Proof. apply checkValid_keepsGasValid. Qed.

(** The entries the walk can reach are not exempt from gas. *)
Lemma checkEntry_sameGasValid (t : Tx.t) rec vs e :
  Tx.GasInputIDs t = [] ->
  (forall k c, Tx.Entries t !! k = Some c -> ~ exempt c) ->
  tx vs = t -> (forall c, e = Some c -> ~ exempt c) ->
  (forall vs' c', tx vs' = t -> (forall c, c' = Some c -> ~ exempt c) ->
                  sameGasValid (rec vs' c')) ->
  sameGasValid (checkEntry rec vs e).
Proof.
  intros Hgas Hentries Htx He Hrec.
  assert (Hsrc : forall vs' src, tx vs' = t -> sameGasValid (checkValidSrc rec vs' src)).
  { intros vs' src Htx'. apply checkValidSrc_sameGasValid. intros c Hc.
    apply Hrec; [done|]. intros c' ->. unfold refEntry in Hc. rewrite Htx' in Hc.
    destruct src as [src|]; [|done]. destruct (ValueSource.Ref src) as [ref|]; [|done].
    destruct (Tx.Entries t !! ref) as [e'|] eqn:He'; [|done].
    injection Hc as <-. by eapply Hentries. }
  destruct e as [[h|m|o|r|i|sp|cb|cl|d|]|]; unfold checkEntry.
  - apply sameGasValid_bind; [|intros; apply sameGasValid_liftR].
    apply sameGasValid_forRange. intros _ resID _.
    apply sameGasValid_bind; [apply sameGasValid_liftR|intros r].
    apply Hrec; [done|]. intros c Hc. rewrite Htx in Hc. by eapply Hentries.
  - apply sameGasValid_bind; [apply sameGasValid_liftR|intros parity].
    apply sameGasValid_bind.
    { apply sameGasValid_forRange. intros. apply sameGasValid_checkAsset. }
    intros _. rewrite Htx, Hgas. simpl forRange.
    apply sameGasValid_bind; [by intros s|intros _].
    apply sameGasValid_bind.
    { apply sameGasValid_forRange. intros. apply sameGasValid_liftR. }
    intros _. apply sameGasValid_bind; [by intros s|intros _].
    apply sameGasValid_forRange. intros i src _. by apply Hsrc.
  - by apply Hsrc.
  - by apply Hsrc.
  - repeat (apply sameGasValid_bind; [apply sameGasValid_liftR|intros ?]).
    intros s. destruct (vmVerify _ _ _ _ _) as [gasLeft err].
    revert s. apply sameGasValid_bind; [apply sameGasValid_liftR|intros ?].
    apply sameGasValid_bind; [apply sameGasValid_updateUsage|intros ?].
    apply sameGasValid_liftR.
  - repeat (apply sameGasValid_bind; [apply sameGasValid_liftR|intros ?]).
    intros s. destruct (vmVerify _ _ _ _ _) as [gasLeft err].
    revert s. apply sameGasValid_bind; [apply sameGasValid_liftR|intros ?].
    apply sameGasValid_bind; [apply sameGasValid_updateUsage|intros ?].
    repeat (apply sameGasValid_bind; [apply sameGasValid_liftR|intros ?]).
    apply sameGasValid_liftR.
  - by destruct (He _ eq_refl).
  - by destruct (He _ eq_refl).
  - by intros s.
  - by intros s.
  - by intros s.
Qed.

(** [GasValid] is set by nothing else than the finalization of a mux in a
    transaction with gas inputs and the exemption of coinbase and claim
    entries: in a transaction without gas inputs and without coinbase or
    claim entry, a walk from an entry that is neither leaves the flag as it
    was, whatever the outcome. *)
Theorem gasValid_unpaid (fuel : nat) (vs : validationState) (e : option Entry)
    (s : Shared) :
  Tx.GasInputIDs (tx vs) = [] ->
  (forall k c, Tx.Entries (tx vs) !! k = Some c -> ~ exempt c) ->
  (forall c, e = Some c -> ~ exempt c) ->
  GasValid (gasStatus (snd (checkValid fuel vs e s))) = GasValid (gasStatus s).
Proof.
  intros Hgas Hentries. revert vs e s Hgas Hentries.
  induction fuel as [|fuel IH]; intros vs e s Hgas Hentries He; [done|].
  simpl. destruct (cache s !! entryIDOf e); [done|].
  rewrite deferred_gasStatus.
  rewrite (checkEntry_sameGasValid (tx vs) (checkValid fuel) vs e Hgas Hentries
             eq_refl He); [done|].
  intros vs' c' Htx Hc' s'. apply IH; by rewrite ?Htx.
Qed.

End flag.

Lemma gasValid_never_reset_witness :
  GasValid (gasStatus (snd (checkValid (H := exampleParams) (H0 := exampleCollaborators)
                              (H1 := examplePeginEnv) 10 exampleVS (Some exampleHeader)
                              (mkShared (mkGasState 0 0 0 true 0) ∅ [])))) = true.
Proof.
  exact (gasValid_never_reset (H := exampleParams) (H0 := exampleCollaborators)
           (H1 := examplePeginEnv) 10 exampleVS (Some exampleHeader)
           (mkShared (mkGasState 0 0 0 true 0) ∅ []) eq_refl).
Defined.

Lemma gasValid_unpaid_witness :
  GasValid (gasStatus (snd (checkValid (H := exampleParams) (H0 := exampleCollaborators)
                              (H1 := examplePeginEnv) 10 exampleVS (Some exampleHeader)
                              newStore))) = false.
Proof.
  apply (gasValid_unpaid (H := exampleParams) (H0 := exampleCollaborators)
           (H1 := examplePeginEnv) 10 exampleVS (Some exampleHeader) newStore eq_refl).
  - intros k c Hk. unfold exampleVS, exampleTx in Hk. simpl in Hk.
    repeat (apply lookup_insert_Some in Hk as [[_ <-]|[_ Hk]]; [by intros []|]).
    by rewrite lookup_empty in Hk.
  - by intros c [= <-] [].
Defined.

(** ** Edges that do not resolve *)

Lemma guard_not_hasValue value :
  ~ hasValue value ->
  match value with
  | Some v => bool_decide (AssetAmount.AssetId v = None)
  | None => true
  end = true.
Proof.
  intros Hno. destruct value as [v|]; [|done]. apply bool_decide_eq_true.
  destruct (AssetAmount.AssetId v) as [a|] eqn:Ea; [|done].
  destruct Hno. by exists v, a.
Qed.

Section unresolved.
Context `{Consensus} `{Collaborators} `{PeginEnv}.

(** The failures of [checkValidDest] before the far end is compared, in
    their order: a nil destination, a nil reference, an absent value or
    asset id are [ErrMissingField]; a reference without entry in the
    transaction is [ErrMissingEntry]; an entry that is not an output, a
    retirement or a mux is [ErrEntryType]; a position other than 0 on an
    output or a retirement, or not below the number of sources of a mux, is
    [ErrPosition]; and a nil source in the slot is a panic. *)
Theorem checkValidDest_unresolved (vs : validationState) (vd : ValueDestination.t)
    (ref : Hash) (e : Entry) :
  checkValidDest vs None = Raise ErrMissingField /\
  (ValueDestination.Ref vd = None ->
   checkValidDest vs (Some vd) = Raise ErrMissingField) /\
  (ValueDestination.Ref vd = Some ref ->
   (~ hasValue (ValueDestination.Value vd) ->
    checkValidDest vs (Some vd) = Raise ErrMissingField) /\
   (hasValue (ValueDestination.Value vd) ->
    (Tx.Entries (tx vs) !! ref = None ->
     checkValidDest vs (Some vd) = Raise ErrMissingEntry) /\
    (Tx.Entries (tx vs) !! ref = Some e ->
     (~ consumer e -> checkValidDest vs (Some vd) = Raise ErrEntryType) /\
     (consumer e ->
      (~ sourceSlot e (ValueDestination.Position vd) ->
       checkValidDest vs (Some vd) = Raise ErrPosition) /\
      (0 <= ValueDestination.Position vd ->
       sourceSlot e (ValueDestination.Position vd) ->
       exists osrc,
         sourceAt e (ValueDestination.Position vd) = Val osrc
         /\ (osrc = None -> checkValidDest vs (Some vd) = Panic)))))).
Proof.
  split; [done|]. split; [by unfold checkValidDest; intros ->|].
  intros Href. unfold checkValidDest. rewrite Href.
  split; [by intros ->%guard_not_hasValue|].
  intros ->%hasValue_guard. simpl.
  split; [by intros ->|]. intros ->. simpl.
  split; [by destruct e|]. intros Hcons.
  split.
  - intros Hslot. destruct e as [h|m|o|r|i|sp|cb|cl|d|]; try done; simpl in *.
    + destruct (Z.leb_spec (Z.of_nat (length (Mux.Sources m)))
                           (ValueDestination.Position vd)); [done|lia].
    + by apply Z.eqb_neq in Hslot as ->.
    + by apply Z.eqb_neq in Hslot as ->.
  - intros Hpos Hslot. destruct e as [h|m|o|r|i|sp|cb|cl|d|]; try done; simpl in *.
    + destruct (Z.leb_spec (Z.of_nat (length (Mux.Sources m)))
                           (ValueDestination.Position vd)); [lia|]. simpl.
      destruct (Mux.Sources m !! Z.to_nat (ValueDestination.Position vd))
        as [osrc|] eqn:El.
      * exists osrc. split; [done|]. by intros ->.
      * apply lookup_ge_None in El. lia.
    + rewrite Hslot. simpl. exists (Output.Source o). split; [done|]. by intros ->.
    + rewrite Hslot. simpl. exists (Retirement.Source r). split; [done|]. by intros ->.
Qed.

(** The failures of [checkValidSrc] before the far end is compared: a nil
    source, a nil reference, an absent value or asset id ([ErrMissingField])
    and a reference without entry ([ErrMissingEntry]) are found before
    anything is visited, the store untouched; then the referenced entry is
    validated, and its error or panic is the outcome, whatever its type; only
    when it validates is an entry that gives no destinations refused with
    [ErrEntryType], and a position out of its slots with [ErrPosition]. *)
Theorem checkValidSrc_unresolved (rec : validationState -> option Entry -> M unit)
    (vstate : validationState) (src : ValueSource.t) (ref : Hash) (e : Entry)
    (s : Shared) :
  checkValidSrc rec vstate None s = (Raise ErrMissingField, s) /\
  (ValueSource.Ref src = None ->
   checkValidSrc rec vstate (Some src) s = (Raise ErrMissingField, s)) /\
  (ValueSource.Ref src = Some ref ->
   (~ hasValue (ValueSource.Value src) ->
    checkValidSrc rec vstate (Some src) s = (Raise ErrMissingField, s)) /\
   (hasValue (ValueSource.Value src) ->
    (Tx.Entries (tx vstate) !! ref = None ->
     checkValidSrc rec vstate (Some src) s = (Raise ErrMissingEntry, s)) /\
    (Tx.Entries (tx vstate) !! ref = Some e ->
     (forall r s', rec (withEntryID ref vstate) (Some e) s = (r, s') ->
                   r <> Val tt ->
                   checkValidSrc rec vstate (Some src) s = (r, s')) /\
     (forall s', rec (withEntryID ref vstate) (Some e) s = (Val tt, s') ->
        (~ producer e ->
         checkValidSrc rec vstate (Some src) s = (Raise ErrEntryType, s')) /\
        (producer e -> ~ destinationSlot e (ValueSource.Position src) ->
         checkValidSrc rec vstate (Some src) s = (Raise ErrPosition, s')))))).
Proof.
  split; [done|]. split; [by unfold checkValidSrc; intros ->|].
  intros Href. split.
  { intros Hno%guard_not_hasValue. unfold checkValidSrc, bindM, liftR.
    by rewrite Href, Hno. }
  intros Hval. split.
  { intros Hnone. unfold checkValidSrc, bindM, liftR.
    rewrite Href, (hasValue_guard _ Hval). simpl. by rewrite Hnone. }
  intros He. rewrite (checkValidSrc_resolved rec vstate src ref e s Href Hval He).
  split.
  - intros r s' -> Hr. by destruct r as [[]| | |].
  - intros s' ->. split.
    + intros Hno. by destruct e.
    + intros Hprod Hslot. destruct e as [h|m|o|r|i|sp|cb|cl|d|]; try done; simpl in *;
        try by apply Z.eqb_neq in Hslot as ->.
      destruct (Z.leb_spec (Z.of_nat (length (Mux.WitnessDestinations m)))
                           (ValueSource.Position src)); [done|lia].
Qed.

End unresolved.

Lemma checkValidDest_unresolved_witness :
  checkValidDest (H := exampleCollaborators) muxVS
    (Some (ValueDestination.mk (Some 3%N) exampleValue 1)) = Raise ErrPosition.
Proof.
  destruct (checkValidDest_unresolved (H0 := exampleCollaborators) muxVS
              (ValueDestination.mk (Some 3%N) exampleValue 1) 3%N exampleOutput)
    as (_ & _ & Href).
  destruct (Href eq_refl) as [_ Hval].
  destruct Hval as [_ Hentry]; [by exists (AssetAmount.mk (Some 7%N) 5), 7%N|].
  destruct (Hentry eq_refl) as [_ Hcons].
  destruct (Hcons I) as [Hslot _].
  by apply Hslot.
Defined.

Lemma checkValidSrc_unresolved_witness :
  fst (checkValidSrc (H := exampleCollaborators)
         (checkValid (H := exampleParams) (H0 := exampleCollaborators)
            (H1 := examplePeginEnv) 5)
         muxVS (Some (ValueSource.mk (Some 3%N) exampleValue 0)) newStore)
  = Raise ErrEntryType.
Proof.
  destruct (checkValidSrc_unresolved (H0 := exampleCollaborators)
              (checkValid (H := exampleParams) (H0 := exampleCollaborators)
                 (H1 := examplePeginEnv) 5)
              muxVS (ValueSource.mk (Some 3%N) exampleValue 0) 3%N exampleOutput newStore)
    as (_ & _ & Href).
  destruct (Href eq_refl) as [_ Hval].
  destruct Hval as [_ Hentry]; [by exists (AssetAmount.mk (Some 7%N) 5), 7%N|].
  destruct (Hentry eq_refl) as [_ Hvalid].
  edestruct Hvalid as [Htype _]; [by vm_compute|].
  rewrite Htype; [done|by intros []].
Defined.

(** ** Accepted peg-in witnesses *)

Lemma length_five {A} (l : list A) :
  Z.of_nat (length l) = 5 -> exists a b c d e, l = [a; b; c; d; e].
Proof.
  intros Hl. do 5 (destruct l as [|? l]; [simpl in Hl; lia|]).
  destruct l; [|simpl in Hl; lia]. by eexists _, _, _, _, _.
Qed.

(** The peg-in verifier accepts exactly the stacks of five elements that
    describe a deposit to the peg contract: the amount parses and is in the
    money range, the parent transaction, the proof bundle and its header
    parse and the merkle check accepts, the output of the parent transaction
    at the claimed position has that amount and the control program derived
    from the claim script, the parent genesis hash matches, and the parent
    block is confirmed when that is enforced. *)
Theorem IsValidPeginWitness_accepts `{PeginEnv} (stack : list (option bytes))
    (prevout : Output.t) :
  IsValidPeginWitness stack prevout = Val tt <-> peginDeposit stack prevout.
Proof.
  split.
  - intros Hrun. pose proof (IsValidPeginWitness_Val_length _ _ Hrun) as Hlen.
    apply length_five in Hlen as (w0 & w1 & w2 & w3 & w4 & ->).
    revert Hrun. unfold IsValidPeginWitness, checkPeginTx, peginDeposit.
    destruct (Output.Source prevout) as [source|] eqn:Es; [simpl|done].
    destruct (ValueSource.Value source) as [value|] eqn:Ev; [simpl|done].
    destruct (Output.ControlProgram prevout) as [prog|] eqn:Ep; [simpl|done].
    destruct (ParseUint (sliceOf w0)) as [|amount] eqn:Eamount; [done|simpl].
    destruct (MoneyRange amount) eqn:Erange; [simpl|done].
    destruct (Tx_UnmarshalText (sliceOf w3)) as [|rawTx] eqn:Etx; [done|simpl].
    destruct (json_Unmarshal (sliceOf w4)) as [|mb] eqn:Emb; [done|simpl].
    destruct (BlockHeader_UnmarshalText _) as [|header] eqn:Eheader; [done|simpl].
    destruct (ValidateTxMerkleTreeProof _ _ _ _) eqn:Emerkle; [simpl|done].
    destruct (bytomtypes.Outputs rawTx !! _) as [out|] eqn:Eout; [simpl|done].
    destruct (Z.eqb_spec amount (bytomtypes.Amount out)) as [Hamount|]; [simpl|done].
    destruct (GetPeginContractPrograms _) as [|programs] eqn:Eprog; [done|simpl].
    destruct (P2WSHProgram _) as [|controlProg] eqn:Ectl; [done|simpl].
    case_bool_decide as Hctl; [simpl|done].
    case_bool_decide as Hgenesis; [simpl|done].
    intros Hconfirmed.
    exists source, value, prog, w0, w1, w2, w3, w4, amount, rawTx, mb, header, out,
      programs.
    split_and!; try done.
    + by rewrite Hctl.
    + intros Hv. rewrite Hv in Hconfirmed.
      by destruct (IsConfirmedBytomBlock _ _).
  - intros (source & value & prog & w0 & w1 & w2 & w3 & w4 & amount & rawTx & mb
            & header & out & programs & Hs & Hv & Hp & -> & Hamount & Hrange & Htx
            & Hmb & Hheader & Hmerkle & Hout & Heq & Hprog & Hctl & Hgenesis
            & Hconfirmed).
    unfold IsValidPeginWitness, checkPeginTx.
    rewrite Hs. simpl. rewrite Hv. simpl. rewrite Hp. simpl.
    rewrite Hamount. simpl. rewrite Hrange. simpl. rewrite Htx. simpl.
    rewrite Hmb. simpl. rewrite Hheader. simpl. rewrite Hmerkle. simpl.
    rewrite Hout. simpl. rewrite Heq, Z.eqb_refl. simpl. rewrite Hprog. simpl.
    rewrite Hctl. simpl. rewrite bool_decide_eq_true_2 by done. simpl.
    rewrite bool_decide_eq_true_2 by done. simpl.
    destruct ValidatePegin; [|done]. by rewrite Hconfirmed.
Qed.

(** The position of the claimed output indexes the outputs of the parent
    transaction without a bound check: once the stack has parsed and the
    merkle check has passed, a position that is not below the number of
    outputs of the parent transaction is a panic, not an error. *)
Theorem pegin_position_unchecked `{PeginEnv} (w0 w1 w2 w3 w4 : option bytes)
    (prevout : Output.t) (source : ValueSource.t) (value : AssetAmount.t)
    (prog : Program.t) (amount : Z) (rawTx : bytomtypes.Tx)
    (mb : MerkleBlock.t) (header : bytomtypes.BlockHeader) :
  Output.Source prevout = Some source ->
  ValueSource.Value source = Some value ->
  Output.ControlProgram prevout = Some prog ->
  ParseUint (sliceOf w0) = inr amount ->
  MoneyRange amount = true ->
  Tx_UnmarshalText (sliceOf w3) = inr rawTx ->
  json_Unmarshal (sliceOf w4) = inr mb ->
  BlockHeader_UnmarshalText (MerkleBlock.BlockHeader mb) = inr header ->
  ValidateTxMerkleTreeProof (MerkleBlock.TxHashes mb)
    (rangeFlags 0 (MerkleBlock.Flags mb)) (MerkleBlock.MatchedTxIDs mb)
    (bytomtypes.TransactionsMerkleRoot header) = true ->
  0 <= ValueSource.Position source ->
  Z.of_nat (length (bytomtypes.Outputs rawTx)) <= ValueSource.Position source ->
  IsValidPeginWitness [w0; w1; w2; w3; w4] prevout = Panic.
Proof.
  intros Hs Hv Hp Hamount Hrange Htx Hmb Hheader Hmerkle Hpos Hlen.
  unfold IsValidPeginWitness, checkPeginTx.
  rewrite Hs. simpl. rewrite Hv. simpl. rewrite Hp. simpl.
  rewrite Hamount. simpl. rewrite Hrange. simpl. rewrite Htx. simpl.
  rewrite Hmb. simpl. rewrite Hheader. simpl. rewrite Hmerkle. simpl.
  rewrite (proj2 (lookup_ge_None _ _)); [done|lia].
Qed.

Lemma IsValidPeginWitness_accepts_witness :
  peginDeposit (H := examplePeginEnv) (peginStack [Byte.x01; Byte.x00]) peginPrevout.
Proof.
  by apply (IsValidPeginWitness_accepts (H := examplePeginEnv)
              (peginStack [Byte.x01; Byte.x00]) peginPrevout).
Defined.

Lemma pegin_position_unchecked_witness :
  IsValidPeginWitness (H := examplePeginEnv) (peginStack [Byte.x01; Byte.x00])
    farPrevout = Panic.
Proof.
  exact (pegin_position_unchecked (H := examplePeginEnv)
           (Some [Byte.x35]) (Some []) (Some []) (Some [])
           (Some [Byte.x01; Byte.x00]) farPrevout
           (ValueSource.mk (Some 7%N) nativeValue 1) (AssetAmount.mk (Some 1%N) 5)
           (Program.mk 1 []) 1 (bytomtypes.mkTx [bytomtypes.mkTxOutput 1 []])
           (MerkleBlock.mk [] [] [] [1; 0] []) (bytomtypes.mkBlockHeader 1 0%N)
           eq_refl eq_refl eq_refl eq_refl eq_refl eq_refl eq_refl eq_refl eq_refl
           ltac:(done) ltac:(done)).
Defined.

(** ** The gas meter: what the operations keep *)

Section meter.
Context `{Consensus}.

(** The total [GasLeft + GasUsed] of the meter is preserved by
    [setGasValid] when it succeeds, which also leaves a non-negative
    [GasLeft]; it is preserved by [updateUsage] whenever the difference is
    representable (over-credit included) and the unchecked addition to
    [GasUsed] does not wrap; both leave [BTMValue] and [StorageGas] as they
    were, and [setGas] never touches [GasUsed] or [GasValid]. *)
Theorem gas_total_preserved (g : GasState) :
  (forall g', setGasValid g = (None, g') ->
     GasLeft g' + GasUsed g' = GasLeft g + GasUsed g
     /\ 0 <= GasLeft g' /\ GasValid g' = true
     /\ BTMValue g' = BTMValue g /\ StorageGas g' = StorageGas g) /\
  (forall gasLeft err g',
     updateUsage g gasLeft = (err, g') -> err <> Some ErrGasCalculate ->
     is_int64 (GasUsed g + (GasLeft g - gasLeft)) ->
     GasLeft g' + GasUsed g' = GasLeft g + GasUsed g
     /\ GasLeft g' = gasLeft /\ 0 <= GasLeft g' /\ GasValid g' = GasValid g
     /\ BTMValue g' = BTMValue g /\ StorageGas g' = StorageGas g) /\
  (forall btm size,
     GasUsed (snd (setGas g btm size)) = GasUsed g
     /\ GasValid (snd (setGas g btm size)) = GasValid g).
Proof.
  split_and!.
  - intros g'. unfold setGasValid, checked.SubInt64, checked.AddInt64, checked.exact.
    destruct (in_int64 (GasLeft g - StorageGas g)) eqn:Ed; [|done]. simpl.
    destruct (Z.ltb_spec (GasLeft g - StorageGas g) 0); [done|].
    destruct (in_int64 (GasUsed g + StorageGas g)) eqn:Eu; [|done]. simpl.
    intros [= <-]. simpl. split_and!; try done; lia.
  - intros gasLeft err g'. unfold updateUsage, checked.SubInt64, checked.exact.
    destruct (Z.ltb_spec gasLeft 0); [by intros [= <- _]|].
    destruct (in_int64 (GasLeft g - gasLeft)) eqn:Ed; [|by intros [= <- _]].
    simpl. intros Hrun _ Hsum.
    assert (g' = usageUpdated g gasLeft) as ->.
    { by destruct (negb (GasValid g) && _); injection Hrun as _ <-. }
    unfold usageUpdated. simpl. rewrite wrap64_id by done.
    split_and!; try done; lia.
  - intros btm size. by destruct (setGas_GasValid g btm size).
Qed.


End meter.

Lemma gas_total_preserved_witness :
  GasLeft (snd (updateUsage (H := exampleParams) (mkGasState 20000 100 7 false 30) 60))
  + GasUsed (snd (updateUsage (H := exampleParams) (mkGasState 20000 100 7 false 30) 60))
  = 100 + 7.
Proof.
  destruct (gas_total_preserved (H := exampleParams) (mkGasState 20000 100 7 false 30))
    as (_ & Husage & _).
  destruct (Husage 60 None (mkGasState 20000 60 47 false 30)) as (Htotal & _);
    [done|done|by vm_compute|].
  exact Htotal.
Defined.


(** ** Signature witnesses: materialization and repeated signing *)

Section materialize.
Import mainchain.

Lemma materializeLoop_Some quorum (sigs : list bytes) : forall nsigs args,
  materializeLoop quorum nsigs sigs (Some args)
  = Val (Some (args ++ take (Z.to_nat (quorum - nsigs))
                         (filter (fun sig => sig <> []) sigs))).
Proof.
  induction sigs as [|sig sigs IH]; intros nsigs args; simpl.
  - by rewrite filter_nil, take_nil, app_nil_r.
  - destruct (Z.ltb_spec nsigs quorum) as [Hlt|Hge]; cycle 1.
    { replace (Z.to_nat (quorum - nsigs)) with 0%nat by lia. by rewrite app_nil_r. }
    destruct sig as [|b sig]; simpl.
    + rewrite filter_cons_False by (by intros ?). apply IH.
    + rewrite filter_cons_True by done. rewrite IH.
      replace (Z.to_nat (quorum - nsigs)) with (S (Z.to_nat (quorum - (nsigs + 1))))
        by lia.
      simpl. by rewrite <- (assoc_L (++)).
Qed.

Lemma materializeLoop_None quorum (sigs : list bytes) : forall nsigs,
  materializeLoop quorum nsigs sigs None
  = if decide (take (Z.to_nat (quorum - nsigs))
                    (filter (fun sig => sig <> []) sigs) = [])
    then Val None else Panic.
Proof.
  induction sigs as [|sig sigs IH]; intros nsigs; simpl.
  - by rewrite filter_nil, take_nil.
  - destruct (Z.ltb_spec nsigs quorum) as [Hlt|Hge]; cycle 1.
    { by replace (Z.to_nat (quorum - nsigs)) with 0%nat by lia. }
    destruct sig as [|b sig]; simpl.
    + rewrite filter_cons_False by (by intros ?). apply IH.
    + rewrite filter_cons_True by done.
      by replace (Z.to_nat (quorum - nsigs)) with (S (Z.to_nat (quorum - (nsigs + 1))))
        by lia.
Qed.

(** [Materialize] returns nil and appends to the arguments the first
    [Quorum] non-empty signatures of the witness, in their order: never an
    empty slot, never more than [Quorum], nothing for a quorum that is not
    positive; the arguments already there are kept.  With a nil pointer it
    panics as soon as there is a signature to append, and returns nil
    otherwise. *)
Theorem Materialize_spec (sw : RawTxSigWitness) (args : list bytes) :
  Materialize sw (Some args) = Val (None, Some (args ++ materialized sw)) /\
  Materialize sw None
  = (if decide (materialized sw = []) then Val (None, None) else Panic) /\
  Z.of_nat (length (materialized sw)) <= Z.max 0 (Quorum sw) /\
  Forall (fun sig => sig <> []) (materialized sw) /\
  materialized sw `sublist_of` Sigs sw.
Proof.
  unfold Materialize, materialized. split_and!.
  - rewrite materializeLoop_Some. simpl. by rewrite Z.sub_0_r.
  - rewrite materializeLoop_None, Z.sub_0_r. by destruct (decide _).
  - rewrite length_take. lia.
  - apply Forall_take, Forall_forall. intros sig Hsig.
    by apply list_elem_of_filter in Hsig as [? _].
  - etrans; [apply sublist_take|apply sublist_filter].
Qed.

Context `{SignEnv}.

Lemma padSigs_full (sw : RawTxSigWitness) :
  (length (Keys sw) <= length (Sigs sw))%nat -> padSigs sw = Sigs sw.
Proof.
  intros Hlen. unfold padSigs.
  by destruct (Nat.ltb_spec (length (Sigs sw)) (length (Keys sw))); [lia|].
Qed.

(** Signing twice with the same key is signing once, when the keys of the
    witness have pairwise distinct text forms and the signature is not
    empty: the slot the first call fills is passed over by the second, and
    no other slot takes a signature of this key. *)
Theorem Sign_twice (sw sw' : RawTxSigWitness) (tpl : Template) (index : Z)
    (xprv : bytes) :
  distinctKeys (Keys sw) ->
  XPrv_Sign xprv (Template_Hash tpl index) <> [] ->
  Sign sw tpl index xprv = Val (None, sw') ->
  Sign sw' tpl index xprv = Val (None, sw').
Proof.
  intros Hdistinct Hsig. unfold Sign.
  destruct (signLoop_spec tpl index xprv (Keys sw) [] (padSigs sw))
    as [[Hrun Hnone]|(i & Hi & Hfirst & Hrun)];
    [apply padSigs_length|simpl; lia| |]; simpl in *; rewrite Hrun; simpl;
    intros [= <-]; simpl.
  - rewrite padSigs_full by (simpl; apply padSigs_length). simpl.
    by rewrite Hrun.
  - set (sig := XPrv_Sign xprv (Template_Hash tpl index)) in *.
    rewrite padSigs_full by (simpl; rewrite length_insert; apply padSigs_length).
    simpl.
    destruct (signLoop_spec tpl index xprv (Keys sw) [] (<[i := sig]> (padSigs sw)))
      as [[Hrun' _]|(j & Hj & _ & _)];
      [simpl; rewrite length_insert; apply padSigs_length|simpl; lia| |];
      simpl in *.
    + by rewrite Hrun'.
    + exfalso. destruct Hi as (k & s0 & Hk & Hs0 & _ & Hki).
      destruct Hj as (k' & s1 & Hk' & Hs1 & Hl1 & Hkj).
      assert (j = i) as ->.
      { apply (Hdistinct j i k' k Hk' Hk). by rewrite Hkj, Hki. }
      rewrite list_lookup_insert_eq in Hs1 by (by eapply lookup_lt_Some).
      injection Hs1 as <-. by destruct sig.
Qed.

End materialize.

Lemma Materialize_spec_witness :
  mainchain.Materialize
    (mainchain.mkRawTxSigWitness 2 [] [[Byte.x01]; []; [Byte.x02]; [Byte.x03]])
    (Some [[Byte.x09]])
  = Val (None, Some [[Byte.x09]; [Byte.x01]; [Byte.x02]]).
Proof.
  exact (proj1 (Materialize_spec
                  (mainchain.mkRawTxSigWitness 2 [] [[Byte.x01]; []; [Byte.x02]; [Byte.x03]])
                  [[Byte.x09]])).
Defined.

Lemma Sign_twice_witness :
  mainchain.Sign (H := exampleSignEnv)
    (mainchain.mkRawTxSigWitness 1
       [mainchain.mkKeyID [Byte.x01] []; mainchain.mkKeyID [Byte.x02] []]
       [[Byte.x09]; [Byte.x02; Byte.x2a]]) tt 0 [Byte.x02]
  = Val (None,
         mainchain.mkRawTxSigWitness 1
           [mainchain.mkKeyID [Byte.x01] []; mainchain.mkKeyID [Byte.x02] []]
           [[Byte.x09]; [Byte.x02; Byte.x2a]]).
Proof.
  apply (Sign_twice (H := exampleSignEnv)
           (mainchain.mkRawTxSigWitness 1
              [mainchain.mkKeyID [Byte.x01] []; mainchain.mkKeyID [Byte.x02] []]
              [[Byte.x09]]) _ tt 0 [Byte.x02]); [|done|done].
  intros i j k k' Hi Hj Heq.
  destruct i as [|[|i]], j as [|[|j]]; simplify_eq/=; done.
Defined.

Section sign_materialize.
Import mainchain.
Context `{SignEnv}.

(** A signature that [Sign] produces is materialized when the quorum
    allows: if some slot can take a signature of the key, the signature is
    not empty, and fewer than [Quorum] non-empty signatures stand before
    that slot, then [Sign] returns a witness whose materialization holds the
    signature. *)
Theorem Sign_materialized (sw : RawTxSigWitness) (tpl : Template) (index : Z)
    (xprv : bytes) (i : nat) :
  signable xprv (Keys sw) (padSigs sw) i ->
  XPrv_Sign xprv (Template_Hash tpl index) <> [] ->
  Z.of_nat (length (filter (fun sig => sig <> []) (take i (padSigs sw)))) < Quorum sw ->
  exists sw',
    Sign sw tpl index xprv = Val (None, sw')
    /\ XPrv_Sign xprv (Template_Hash tpl index) ∈ materialized sw'.
Proof.
  intros Hi Hsig Hquorum. unfold Sign.
  destruct (signLoop_spec tpl index xprv (Keys sw) [] (padSigs sw))
    as [[_ Hnone]|(i0 & Hi0 & Hfirst & Hrun)];
    [apply padSigs_length|simpl; lia|by destruct (Hnone i)|].
  simpl in *. rewrite Hrun. simpl. eexists. split; [done|].
  set (sig := XPrv_Sign xprv (Template_Hash tpl index)) in *.
  set (l := padSigs sw) in *.
  assert (Hle : (i0 <= i)%nat).
  { destruct (decide (i < i0)%nat) as [Hlt|]; [by destruct (Hfirst i Hlt)|lia]. }
  assert (Hlt : (i0 < length l)%nat).
  { destruct Hi0 as (_ & s0 & _ & Hs0 & _). by eapply lookup_lt_Some. }
  unfold materialized. simpl.
  rewrite insert_take_drop by done.
  rewrite filter_app, filter_cons_True by done.
  set (before := filter (fun s0 : bytes => s0 <> []) (take i0 l)).
  assert (Hbefore : Z.of_nat (length before) < Quorum sw).
  { assert (Hsplit : take i l = take i0 l ++ drop i0 (take i l)).
    { rewrite <- (take_drop i0 (take i l)) at 1. f_equal.
      rewrite take_take. f_equal. lia. }
    rewrite Hsplit, filter_app, length_app in Hquorum. subst before. lia. }
  apply list_elem_of_lookup. exists (length before).
  rewrite lookup_take_lt by lia.
  by rewrite lookup_app_r, Nat.sub_diag by lia.
Qed.

End sign_materialize.

Lemma Sign_materialized_witness :
  exists sw',
    mainchain.Sign (H := exampleSignEnv)
      (mainchain.mkRawTxSigWitness 2
         [mainchain.mkKeyID [Byte.x01] []; mainchain.mkKeyID [Byte.x02] []]
         [[Byte.x09]]) tt 0 [Byte.x02] = Val (None, sw')
    /\ [Byte.x02; Byte.x2a] ∈ materialized sw'.
Proof.
  apply (Sign_materialized (H := exampleSignEnv)
           (mainchain.mkRawTxSigWitness 2
              [mainchain.mkKeyID [Byte.x01] []; mainchain.mkKeyID [Byte.x02] []]
              [[Byte.x09]]) tt 0 [Byte.x02] 1%nat); [|done|by vm_compute].
  by exists (mainchain.mkKeyID [Byte.x02] []), [].
Defined.

(** ** What the header's hash commits to *)

(** [writeForHash] writes the version, the time range and the result ids of
    a header, and its data hash only when the header is of a side
    transaction: two headers are written alike exactly when they agree on
    these (on the data hash only if [Side] is set), whatever their
    serialized sizes; what was written before is kept.  So the hash input of
    a header that [NewTxHeader] builds for a transaction that is not a side
    transaction depends neither on the size nor on the data hash. *)
Theorem writeForHash_commits (h h' : bc.TxHeader.t) (w : list bc.hashed) :
  (bc.writeForHash h w = bc.writeForHash h' w <->
   bc.TxHeader.Version h = bc.TxHeader.Version h'
   /\ bc.TxHeader.TimeRange h = bc.TxHeader.TimeRange h'
   /\ bc.TxHeader.ResultIds h = bc.TxHeader.ResultIds h'
   /\ bc.TxHeader.Side h = bc.TxHeader.Side h'
   /\ (bc.TxHeader.Side h = true -> bc.TxHeader.Data h = bc.TxHeader.Data h')) /\
  w `prefix_of` bc.writeForHash h w /\
  length (bc.writeForHash h w)
  = (length w + if bc.TxHeader.Side h then 4 else 3)%nat /\
  (forall version size size' data data' timeRange resultIDs,
     bc.writeForHash (bc.NewTxHeader version size data timeRange resultIDs false) w
     = bc.writeForHash (bc.NewTxHeader version size' data' timeRange resultIDs false) w).
Proof.
  destruct h as [v sz d tr ids side], h' as [v' sz' d' tr' ids' side'].
  unfold bc.writeForHash. simpl. split_and!.
  - split.
    + destruct side, side'; rewrite <- !(assoc_L (++)); simpl;
        intros Heq%(inj (app w)); by simplify_eq.
    + intros (-> & -> & -> & -> & Hd). destruct side'; [by rewrite Hd|done].
  - destruct side; rewrite <- !(assoc_L (++)); by eexists.
  - destruct side; rewrite !length_app; simpl; lia.
  - done.
Qed.

(** ** Transaction builder actions *)

Section actions.
Import txbuilder.
Context `{BuildEnv}.

Lemma missing_three c1 n1 c2 n2 c3 n3 :
  missingIf c3 n3 (missingIf c2 n2 (missingIf c1 n1 []))
  = missingOf [(c1, n1); (c2, n2); (c3, n3)].
Proof. by destruct c1, c2, c3. Qed.

Lemma missing_two c1 n1 c2 n2 :
  missingIf c2 n2 (missingIf c1 n1 []) = missingOf [(c1, n1); (c2, n2)].
Proof. by destruct c1, c2. Qed.

Lemma missing_test (l : list string) : (0 <? length l)%nat = negb (bool_decide (l = [])).
Proof. by destruct l. Qed.

(** The three actions check their fields before anything else: every
    missing field is reported at once, in the order of the checks, in one
    [MissingFieldsError], and the builder is left as it was; an action that
    misses nothing adds exactly the output [NewTxOutput] makes of its asset
    id, its amount and its program (the given program, the retirement
    program of the arbitrary data, or the witness program of the decoded
    address), unless the decoder or the program builder fails, whose error
    is returned with the builder untouched; an address of any other type than
    the two witness types is refused as unsupported. *)
Theorem Build_missing_fields (b : TemplateBuilder) :
  (forall a : controlProgramAction,
     let missing :=
       missingOf [(Z.of_nat (length (Program_ a)) =? 0, "control_program"%string);
                  (AssetId_IsZero (AssetAmount.AssetId (cpAssetAmount a)), "asset_id"%string);
                  (AssetAmount.Amount (cpAssetAmount a) =? 0, "amount"%string)] in
     (missing <> [] ->
      controlProgramAction_Build a b = Val (Some (MissingFieldsError missing), b)) /\
     (missing = [] ->
      controlProgramAction_Build a b = addOutput (cpAssetAmount a) (Program_ a) b)) /\
  (forall a : retireAction,
     let missing :=
       missingOf [(AssetId_IsZero (AssetAmount.AssetId (rAssetAmount a)), "asset_id"%string);
                  (AssetAmount.Amount (rAssetAmount a) =? 0, "amount"%string)] in
     (missing <> [] ->
      retireAction_Build a b = Val (Some (MissingFieldsError missing), b)) /\
     (missing = [] ->
      (forall err, RetireProgram (Arbitrary a) = inl err ->
                   retireAction_Build a b = Val (Some err, b)) /\
      (forall program, RetireProgram (Arbitrary a) = inr program ->
                       retireAction_Build a b = addOutput (rAssetAmount a) program b))) /\
  (forall a : controlAddressAction,
     let missing :=
       missingOf [(bool_decide (Address_ a = EmptyString), "address"%string);
                  (AssetId_IsZero (AssetAmount.AssetId (caAssetAmount a)), "asset_id"%string);
                  (AssetAmount.Amount (caAssetAmount a) =? 0, "amount"%string)] in
     (missing <> [] ->
      controlAddressAction_Build a b = Val (Some (MissingFieldsError missing), b)) /\
     (missing = [] ->
      (forall err, DecodeAddress (Address_ a) = inl err ->
                   controlAddressAction_Build a b = Val (Some err, b)) /\
      (forall script, DecodeAddress (Address_ a) = inr (AddressOther script) ->
                      controlAddressAction_Build a b = Val (Some ErrUnsupportedAddress, b)) /\
      (forall script, DecodeAddress (Address_ a) = inr (AddressWitnessPubKeyHash script) ->
         controlAddressAction_Build a b
         = match P2WPKHProgram script with
           | inl err => Val (Some err, b)
           | inr program => addOutput (caAssetAmount a) program b
           end) /\
      (forall script, DecodeAddress (Address_ a) = inr (AddressWitnessScriptHash script) ->
         controlAddressAction_Build a b
         = match P2WSHProgram script with
           | inl err => Val (Some err, b)
           | inr program => addOutput (caAssetAmount a) program b
           end))) /\
  (forall value program,
     (AssetAmount.AssetId value = None -> addOutput value program b = Panic) /\
     (forall assetId, AssetAmount.AssetId value = Some assetId ->
        addOutput value program b
        = Val (AddOutput b (NewTxOutput assetId (AssetAmount.Amount value) program)))).
Proof.
  split_and!.
  - intros a missing. unfold controlProgramAction_Build.
    rewrite missing_three, missing_test. fold missing.
    split; intros Hm; [by rewrite bool_decide_eq_false_2|by rewrite bool_decide_eq_true_2].
  - intros a missing. unfold retireAction_Build.
    rewrite missing_two, missing_test. fold missing.
    split; intros Hm; [by rewrite bool_decide_eq_false_2|].
    rewrite bool_decide_eq_true_2 by done. simpl.
    split; [by intros err ->|by intros program ->].
  - intros a missing. unfold controlAddressAction_Build.
    rewrite missing_three, missing_test. fold missing.
    split; intros Hm; [by rewrite bool_decide_eq_false_2|].
    rewrite bool_decide_eq_true_2 by done. simpl.
    split_and!; by intros ? ->.
  - intros value program. unfold addOutput.
    split; [by intros ->|by intros assetId ->].
Qed.

End actions.

Lemma Build_missing_fields_witness :
  txbuilder.controlProgramAction_Build (H := exampleBuildEnv)
    (txbuilder.mkControlProgramAction (AssetAmount.mk None 0) [Byte.x51]) []
  = Val (Some (txbuilder.MissingFieldsError ["asset_id"; "amount"]%string), [])
  /\ txbuilder.controlAddressAction_Build (H := exampleBuildEnv)
       (txbuilder.mkControlAddressAction (AssetAmount.mk (Some 7%N) 5) "x"%string) []
     = Val (Some txbuilder.ErrUnsupportedAddress, []).
Proof.
  destruct (Build_missing_fields (H := exampleBuildEnv) []) as (Hprogram & _ & Haddress & _).
  split.
  - by apply (Hprogram (txbuilder.mkControlProgramAction (AssetAmount.mk None 0) [Byte.x51])).
  - destruct (Haddress (txbuilder.mkControlAddressAction (AssetAmount.mk (Some 7%N) 5)
                          "x"%string)) as [_ Hcomplete].
    destruct (Hcomplete eq_refl) as (_ & Hother & _).
    by apply (Hother [Byte.x03]).
Defined.

(** ** Miner: the number of workers *)

Section workers.
Import miner.

Lemma to_uint64_small z : 0 <= z < 2 ^ 64 -> to_uint64 z = z.
Proof. intros Hz. unfold to_uint64. by apply Z.mod_small. Qed.

Lemma stopWorkers_down (n : nat) : forall (k fuel : nat) (running closed : list N),
  (1 <= n)%nat -> length running = (n + k)%nat ->
  Z.of_nat (n + k) < 2 ^ 64 -> (k < fuel)%nat ->
  stopWorkers fuel (Z.of_nat n) (Z.of_nat (n + k) - 1) running closed
  = Val (take n running, closed ++ reverse (drop n running)).
Proof.
  induction k as [|k IH]; intros fuel running closed Hn Hlen Hbound Hfuel;
    (destruct fuel as [|fuel]; [lia|]); simpl.
  - destruct (Z.leb_spec (Z.of_nat n) (Z.of_nat (n + 0) - 1)); [lia|].
    rewrite take_ge, drop_ge by lia. by rewrite app_nil_r.
  - destruct (Z.leb_spec (Z.of_nat n) (Z.of_nat (n + S k) - 1)); [|lia].
    replace (Z.to_nat (Z.of_nat (n + S k) - 1)) with (n + k)%nat by lia.
    destruct (running !! (n + k)%nat) as [quit|] eqn:Eq;
      [|apply lookup_ge_None in Eq; lia].
    rewrite to_uint64_small by lia.
    replace (Z.of_nat (n + S k) - 1 - 1) with (Z.of_nat (n + k) - 1) by lia.
    rewrite IH; [|done|rewrite length_take; lia|lia|lia].
    assert (Hsplit : running = take (n + k) running ++ [quit]).
    { rewrite <- (take_drop (n + k) running) at 1. f_equal.
      apply list_eq. intros [|j]; simpl.
      - by rewrite lookup_drop, Nat.add_0_r.
      - rewrite lookup_drop. apply lookup_ge_None. lia. }
    f_equal. f_equal.
    + rewrite take_take. f_equal. lia.
    + rewrite Hsplit at 2.
      rewrite drop_app_le by (rewrite length_take; lia).
      by rewrite reverse_app, <- (assoc_L (++)).
Qed.

Lemma stopWorkers_S fuel numWorkers i (running closed : list N) :
  stopWorkers (S fuel) numWorkers i running closed
  = if numWorkers <=? i then
      match running !! Z.to_nat i with
      | None => Panic
      | Some quit =>
          stopWorkers fuel numWorkers (to_uint64 (i - 1))
            (take (Z.to_nat i) running) (closed ++ [quit])
      end
    else Val (running, closed).
Proof. done. Qed.

Lemma stopWorkers_zero : forall (k fuel : nat) (running closed : list N),
  length running = S k -> Z.of_nat (S k) < 2 ^ 64 -> (S k < fuel)%nat ->
  stopWorkers fuel 0 (Z.of_nat k) running closed = Panic.
Proof.
  induction k as [|k IH]; intros fuel running closed Hlen Hbound Hfuel;
    (destruct fuel as [|fuel]; [lia|]); rewrite stopWorkers_S;
    (destruct (Z.leb_spec 0 (Z.of_nat k)) as [_|]; [|lia]) ||
    (destruct (Z.leb_spec 0 (Z.of_nat 0)) as [_|]; [|lia]) ||
    (destruct (Z.leb_spec 0 (Z.of_nat (S k))) as [_|]; [|lia]);
    rewrite Nat2Z.id.
  - destruct (running !! 0%nat) as [quit|] eqn:Eq;
      [|apply lookup_ge_None in Eq; lia].
    destruct fuel as [|fuel]; [lia|]. rewrite stopWorkers_S.
    change (to_uint64 (Z.of_nat 0 - 1)) with (2 ^ 64 - 1).
    by destruct (Z.leb_spec 0 (2 ^ 64 - 1)).
  - destruct (running !! S k) as [quit|] eqn:Eq;
      [|apply lookup_ge_None in Eq; lia].
    replace (to_uint64 (Z.of_nat (S k) - 1)) with (Z.of_nat k)
      by (rewrite to_uint64_small; lia).
    apply IH; [rewrite length_take; lia|lia|lia].
Qed.

(** The controller's loop that stops surplus workers, with [numWorkers]
    unchanged while it runs and fewer than 2^64 workers running: when at
    least one worker is wanted and more are running, it closes the quit
    channels of the surplus workers, the most recently started first, leaves
    exactly the first [numWorkers] workers running and does not panic.  When
    no worker is wanted the loop does not end there: the [uint64] index wraps
    around after the last worker was stopped, and the next index expression
    panics. *)
Theorem stopWorkers_spec (fuel : nat) (numWorkers : Z) (running : list N) :
  0 <= numWorkers < Z.of_nat (length running) ->
  Z.of_nat (length running) < 2 ^ 64 ->
  (length running < fuel)%nat ->
  (1 <= numWorkers ->
   shrinkWorkers fuel numWorkers running
   = Val (take (Z.to_nat numWorkers) running,
          reverse (drop (Z.to_nat numWorkers) running))) /\
  (numWorkers = 0 -> shrinkWorkers fuel numWorkers running = Panic).
Proof.
  intros Hn Hbound Hfuel. unfold shrinkWorkers.
  rewrite to_uint64_small by lia. split.
  - intros Hpos.
    pose proof (stopWorkers_down (Z.to_nat numWorkers)
                  (length running - Z.to_nat numWorkers) fuel running []) as Hloop.
    replace (Z.to_nat numWorkers + (length running - Z.to_nat numWorkers))%nat
      with (length running) in Hloop by lia.
    rewrite Z2Nat.id in Hloop by lia. apply Hloop; lia.
  - intros ->. destruct running as [|quit running]; [simpl in Hn; lia|].
    replace (Z.of_nat (length (quit :: running)) - 1) with (Z.of_nat (length running))
      by (simpl; lia).
    apply stopWorkers_zero; simpl in *; lia.
Qed.

Lemma positiveUpdate_app l1 l2 :
  Forall positiveUpdate l1 -> Forall positiveUpdate l2 ->
  Forall positiveUpdate (l1 ++ l2).
Proof. intros. by apply Forall_app. Qed.

Lemma callMiner_updates m c :
  int32Call c -> Forall positiveUpdate (events m) ->
  Forall positiveUpdate (events (callMiner m c)).
Proof.
  intros Hc Hm. destruct m as [nw st evs]. simpl in Hm.
  destruct c as [| |n]; simpl.
  - unfold Start. destruct st; simpl; [done|].
    apply positiveUpdate_app; [done|]. by repeat constructor.
  - unfold Stop. destruct st; simpl; [|done].
    apply positiveUpdate_app; [done|]. by repeat constructor.
  - simpl in Hc. unfold SetNumWorkers, Stop.
    destruct (Z.eqb_spec n 0) as [->|Hne].
    + destruct st; simpl; [|done].
      apply positiveUpdate_app; [done|]. by repeat constructor.
    + destruct (Z.ltb_spec n 0); destruct st; simpl; try done;
        (apply positiveUpdate_app; [done|]); repeat constructor; simpl.
      * unfold defaultNumWorkers. lia.
      * rewrite to_uint64_small; lia.
Qed.

(** The methods of the miner, for one caller at a time.  [Start] and [Stop]
    are idempotent and [IsMining] tells which came last; [SetNumWorkers]
    followed by [NumWorkers] gives the number back, 1 for a negative one;
    [SetNumWorkers(0)] stops the miner and sends no update; and whatever the
    sequence of calls on a new miner, every update sent to the controller is
    sent while [numWorkers] is one at least. *)
Theorem miner_controls (m : Miner) (n : Z) (calls : list minerCall) :
  Start (Start m) = Start m /\
  Stop (Stop m) = Stop m /\
  IsMining (Start m) = true /\
  IsMining (Stop m) = false /\
  (- 2 ^ 31 <= n < 2 ^ 31 ->
   NumWorkers (SetNumWorkers m n) = (if n <? 0 then 1 else n)
   /\ (n = 0 -> IsMining (SetNumWorkers m n) = false
                /\ events (SetNumWorkers m n) = events (Stop m))
   /\ (n <> 0 -> IsMining (SetNumWorkers m n) = IsMining m)) /\
  (Forall int32Call calls ->
   Forall positiveUpdate (events (foldl callMiner NewMiner calls))).
Proof.
  destruct m as [nw st evs]. split_and!.
  - unfold Start. by destruct st.
  - unfold Stop. by destruct st.
  - unfold Start, IsMining. by destruct st.
  - unfold Stop, IsMining. by destruct st.
  - intros Hn. unfold NumWorkers, SetNumWorkers, Stop, IsMining, to_int32.
    split_and!.
    + destruct (Z.eqb_spec n 0) as [->|Hne]; simpl.
      { by destruct st. }
      destruct (Z.ltb_spec n 0); destruct st; simpl; try done;
        rewrite to_uint64_small by lia; rewrite Z.mod_small; lia.
    + intros ->. simpl. by destruct st.
    + intros Hne. apply Z.eqb_neq in Hne as ->.
      by destruct (n <? 0), st.
  - intros Hcalls.
    assert (Hgen : forall m0, Forall positiveUpdate (events m0) ->
                              Forall positiveUpdate (events (foldl callMiner m0 calls))).
    { induction Hcalls as [|c calls Hc _ IH]; intros m0 Hm0; [done|].
      simpl. apply IH. by apply callMiner_updates. }
    by apply Hgen.
Qed.

End workers.

Lemma stopWorkers_spec_witness :
  miner.shrinkWorkers 5 2 [10; 11; 12; 13]%N = Val ([10; 11]%N, [13; 12]%N)
  /\ miner.shrinkWorkers 5 0 [10; 11; 12; 13]%N = Panic.
Proof.
  split.
  - apply (stopWorkers_spec 5 2 [10; 11; 12; 13]%N); simpl; lia.
  - apply (stopWorkers_spec 5 0 [10; 11; 12; 13]%N); simpl; lia.
Defined.

Lemma miner_controls_witness :
  Forall positiveUpdate
    (miner.events (foldl callMiner miner.NewMiner
                     [CallStart; CallSetNumWorkers 3; CallSetNumWorkers 0;
                      CallSetNumWorkers (-1); CallStart])).
Proof.
  apply (miner_controls miner.NewMiner 0 _).
  repeat constructor; simpl; lia.
Defined.

(** ** Accepted muxes *)

Lemma forRange_Val_stable {A} (f : Z -> A -> M unit) (l : list A) :
  (forall i a, stable (f i a)) ->
  forall i s s', forRange f i l s = (Val tt, s') ->
  forall k x, l !! k = Some x ->
  exists s1 s2, f (i + Z.of_nat k) x s1 = (Val tt, s2)
                /\ forall y v, cache s2 !! y = Some v -> cache s' !! y = Some v.
Proof.
  intros Hf. induction l as [|a l IH]; intros i s s' Hrun k x Hk; [done|].
  simpl in Hrun. unfold bindM in Hrun.
  destruct (f i a s) as [[[]| | |] s1] eqn:Ehead; try done.
  destruct k as [|k]; simpl in Hk.
  - injection Hk as <-. exists s, s1. rewrite Z.add_0_r. split; [done|].
    intros y v Hy.
    pose proof (stable_forRange f l Hf (i + 1) s1 y v Hy) as Hst.
    by rewrite Hrun in Hst.
  - destruct (IH (i + 1) s1 s' Hrun k x Hk) as (s2 & s3 & Hcall & Hst).
    exists s2, s3. split; [|done].
    by replace (i + Z.of_nat (S k)) with (i + 1 + Z.of_nat k) by lia.
Qed.

Lemma setGasValid_None g g' : setGasValid g = (None, g') -> GasValid g' = true.
Proof.
  unfold setGasValid.
  destruct (checked.SubInt64 (GasLeft g) (StorageGas g)) as [d ok]. simpl.
  destruct (negb ok || (d <? 0)); [done|].
  destruct (checked.AddInt64 (GasUsed g) (StorageGas g)) as [u ok']. simpl.
  destruct ok'; [|done]. by intros [= <-].
Qed.

Section mux_accepted.
Context `{Consensus} `{Collaborators} `{PeginEnv}.

(** A mux not yet in the cache is accepted only when, past the asset-sum
    pass, every gas input of the transaction is an entry of it whose
    validation the cache records as successful, every destination edge
    checks at its own slot, every source refers to an entry of the
    transaction that produces value and is recorded as valid; and when the
    transaction has gas inputs the storage gas was charged, so that
    [GasValid] holds after the call. *)
Theorem mux_accepted (fuel : nat) (vs : validationState) (m : Mux.t) (s s' : Shared) :
  cache s !! EntryID (MuxEntry m) = None ->
  checkValid (S fuel) vs (Some (MuxEntry m)) s = (Val tt, s') ->
  (exists parity, muxParity (tx vs) m = Val parity) /\
  Forall (fun id => exists e, Tx.Entries (tx vs) !! id = Some e
                              /\ cache s' !! EntryID e = Some None)
         (Tx.GasInputIDs (tx vs)) /\
  (forall i dest, Mux.WitnessDestinations m !! i = Some dest ->
                  checkValidDest (withDestPos (Z.of_nat i) vs) dest = Val tt) /\
  Forall (fun src => exists v ref e,
            src = Some v /\ ValueSource.Ref v = Some ref
            /\ Tx.Entries (tx vs) !! ref = Some e /\ producer e
            /\ cache s' !! EntryID e = Some None)
         (Mux.Sources m) /\
  (Tx.GasInputIDs (tx vs) <> [] -> GasValid (gasStatus s') = true).
Proof.
  intros Hfresh Hrun. rewrite checkValid_fresh in Hrun by done.
  destruct (checkEntry _ _ _ _) as [[[]| | |] s6] eqn:Ebody; try done.
  simpl in Hrun. injection Hrun as <-.
  unfold checkEntry in Ebody.
  apply bindM_Val_inv in Ebody as (parity & s1 & Hparity & Ebody).
  apply bindM_Val_inv in Ebody as ([] & s2 & _ & Ebody).
  apply bindM_Val_inv in Ebody as ([] & s3 & Hgas & Ebody).
  apply bindM_Val_inv in Ebody as ([] & s4 & Hdests & Ebody).
  apply bindM_Val_inv in Ebody as ([] & s5 & Hfinal & Hsources).
  assert (Hrec : forall vs' c, stable (checkValid fuel vs' c))
    by apply checkValid_stable.
  assert (Hsrc_stable : forall (i : Z) src,
            stable (checkValidSrc (checkValid fuel) (withSourcePos i vs) src)).
  { intros i src. by apply checkValidSrc_stable. }
  assert (Hlate : forall y v, cache s3 !! y = Some v -> cache s6 !! y = Some v).
  { intros y v Hy.
    assert (H4 : cache s4 !! y = Some v).
    { pose proof (keeps_forRange
        (fun i dest => liftR (checkValidDest (withDestPos i vs) dest))
        (Mux.WitnessDestinations m) (fun _ _ => keeps_liftR _) 0 s3) as [Hc _].
      rewrite Hdests in Hc. simpl in Hc. by rewrite Hc. }
    assert (H5 : cache s5 !! y = Some v).
    { destruct (0 <? Z.of_nat (length (Tx.GasInputIDs (tx vs)))).
      - pose proof (keeps_onGas setGasValid s4) as [Hc _].
        rewrite Hfinal in Hc. simpl in Hc. by rewrite Hc.
      - by injection Hfinal as <-. }
    pose proof (stable_forRange _ (Mux.Sources m) Hsrc_stable 0 s5 y v H5) as Hst.
    by rewrite Hsources in Hst. }
  assert (Hend : forall y, cache s6 !! y = Some None ->
                           cache (withCache (<[entryIDOf (Some (MuxEntry m)) := None]>
                                               (cache s6)) s6) !! y = Some None).
  { intros y Hy. simpl.
    destruct (decide (y = EntryID (MuxEntry m))) as [->|Hne];
      [by rewrite lookup_insert_eq | by rewrite lookup_insert_ne]. }
  split_and!.
  - unfold liftR in Hparity. exists parity.
    by destruct (muxParity (tx vs) m); simplify_eq.
  - apply Forall_forall. intros id Hid.
    apply list_elem_of_lookup in Hid as [k Hk].
    match type of Hgas with
    | forRange ?f _ _ _ = _ =>
        destruct (forRange_Val_stable f (Tx.GasInputIDs (tx vs))
                    (fun i a => stable_bind _ _ (keeps_stable _ (keeps_liftR _))
                                  (fun e => Hrec _ _))
                    0 s2 s3 Hgas k id Hk) as (sa & sb & Hcall & Hst)
    end.
    apply bindM_Val_inv in Hcall as (e & sc & Hlook & Hcall).
    unfold liftR in Hlook.
    destruct (Tx.Entries (tx vs) !! id) as [e'|] eqn:He; [|done].
    injection Hlook as <- <-. exists e'. split; [done|].
    apply Hend, Hlate, Hst.
    apply checkValid_records in Hcall as [Hval _]. by apply Hval.
  - intros i dest Hi.
    destruct (forRange_Val_stable
                (fun i dest => liftR (checkValidDest (withDestPos i vs) dest))
                (Mux.WitnessDestinations m)
                (fun _ _ => keeps_stable _ (keeps_liftR _))
                0 s3 s4 Hdests i dest Hi) as (sa & sb & Hcall & _).
    rewrite Z.add_0_l in Hcall. unfold liftR in Hcall. by injection Hcall as ->.
  - apply Forall_forall. intros src Hin.
    apply list_elem_of_lookup in Hin as [k Hk].
    destruct (forRange_Val_stable _ (Mux.Sources m) Hsrc_stable 0 s5 s6 Hsources k src Hk)
      as (sa & sb & Hcall & Hst).
    pose proof (checkValidSrc_Val_inv (checkValid fuel) (withSourcePos (0 + Z.of_nat k) vs)
                  src sa) as Hinv.
    rewrite Hcall in Hinv.
    destruct (Hinv eq_refl) as (v & ref & e & dest & sc & -> & Href & Hhas & He & Hcheck
                                & Hdest & _).
    exists v, ref, e. split_and!; try done.
    + by eapply destinationAt_producer.
    + apply Hend, Hst.
      rewrite (checkValidSrc_resolved _ _ v ref e sa Href Hhas He), Hcheck in Hcall.
      injection Hcall as _ <-.
      apply checkValid_records in Hcheck as [Hval _]. by apply Hval.
  - intros Hne. simpl.
    assert (H5 : GasValid (gasStatus s5) = true).
    { destruct (Tx.GasInputIDs (tx vs)) as [|g0 gs] eqn:Eg; [done|].
      destruct (0 <? Z.of_nat (length (g0 :: gs))) eqn:Et;
        [|apply Z.ltb_ge in Et; simpl in Et; lia].
      unfold onGas in Hfinal.
      destruct (setGasValid (gasStatus s4)) as [[err|] g'] eqn:Eset; [done|].
      injection Hfinal as <-. simpl. by eapply setGasValid_None. }
    pose proof (keepsGasValid_forRange _ (Mux.Sources m)
                  (fun i src => checkValidSrc_keepsGasValid (checkValid fuel)
                                  (withSourcePos i vs) src
                                  (checkValid_keepsGasValid fuel)) 0 s5 H5) as Hk.
    by rewrite Hsources in Hk.
Qed.

End mux_accepted.

Lemma mux_accepted_witness :
  exists s',
    checkValid (H := exampleParams) (H0 := exampleCollaborators) (H1 := examplePeginEnv)
      5 muxVS (Some exampleMux) newStore = (Val tt, s')
    /\ cache s' !! 5%N = Some None.
Proof.
  eexists. split; [by vm_compute|].
  destruct (mux_accepted (H := exampleParams) (H0 := exampleCollaborators)
              (H1 := examplePeginEnv) 4 muxVS balancedMux newStore _ eq_refl eq_refl)
    as (_ & _ & _ & Hsources & _).
  apply Forall_cons in Hsources as [(v & ref & e & [= <-] & [= <-] & He & _ & Hc) _].
  vm_compute in He. injection He as <-. exact Hc.
Defined.
